(** * Checkpoints: the checkpoint oracle of [src/checkpoints.cpp]

    A shallow embedding of namespace [Checkpoints] and the properties its
    specification states about it.

    - [std::map] is a finite map ([gmap]) read through its ordered
      iteration; [operator[]] is the one accessor that may insert.
    - A call either returns, throws or has undefined behaviour; the
      process-wide variables the functions read ([fTestNet], the argument
      map behind [GetBoolArg], [mapBlockIndex], [hashGenesisBlock], the two
      static checkpoint maps, the system clock) form an explicit [World]
      threaded through every call.
    - [double] arithmetic is an interface with two instances: IEEE-754
      binary64 ([SpecFloat]: every operation rounds to nearest, ties to
      even) and exact rationals. What is proved about the value of
      [GuessVerificationProgress] is proved for binary64; the rationals
      only say what the operations round.

    Definitions come first, then the properties: the maps, the calls, the
    oracle's operations one by one, the estimate against its specification,
    the estimate without rounding, the binary64 operations, the estimate in
    binary64 with its exact values and its rounding error, and the
    operations on example worlds. *)

From Stdlib Require Import ZArith QArith Qpower Lqa SpecFloat Ascii.
From stdpp Require Import gmap sorting strings.

Local Open Scope Z_scope.

(** ** Machine integers *)

(** [int64]: a 64-bit two's complement integer, as the [Z] it denotes.
    [wrap64] brings the result of an arithmetic operation back into range. *)
Definition int64_min : Z := - 2 ^ 63.
Definition int64_max : Z := 2 ^ 63 - 1.

Definition wrap64 (z : Z) : Z := (z + 2 ^ 63) mod 2 ^ 64 - 2 ^ 63.

Definition int64_sub (a b : Z) : Z := wrap64 (a - b).

Definition in_int64 (z : Z) : Prop := int64_min <= z <= int64_max.

(** [uint256]: a 256-bit unsigned integer, as the [Z] it denotes. Block
    hashes are only ever compared and used as map keys here. *)
Abbreviation uint256 := Z.

(** ** [std::map] with integer keys *)

Module StdMap.

Section ordered.
Context {V : Type}.

Definition key_le (a b : Z * V) : Prop := a.1 <= b.1.

#[global] Instance key_le_dec (a b : Z * V) : Decision (key_le a b).
Proof. unfold key_le. apply _. Defined.

#[global] Instance key_le_total : Total key_le.
Proof. intros a b. unfold key_le. lia. Qed.

#[global] Instance key_le_trans : Transitive key_le.
Proof. intros a b c. unfold key_le. lia. Qed.

(** [begin() .. end()]: the entries in ascending key order. *)
Definition items (m : gmap Z V) : list (Z * V) :=
  merge_sort key_le (map_to_list m).

(** [rbegin() .. rend()], the order [BOOST_REVERSE_FOREACH] visits. *)
Definition ritems (m : gmap Z V) : list (Z * V) := reverse (items m).

(** [m.find(k)]: [None] stands for [m.end()]. *)
Definition find (k : Z) (m : gmap Z V) : option V := m !! k.

(** [m.count(k)]. *)
Definition count (k : Z) (m : gmap Z V) : Z :=
  match m !! k with Some _ => 1 | None => 0 end.

(** [*m.rbegin()]; there is no such entry in an empty map. *)
Definition rbegin (m : gmap Z V) : option (Z * V) := head (ritems m).

(** [m[k]] on a non-const map: the value stored under [k], after inserting
    the value-initialised [dflt] when [k] had no entry. *)
Definition index (dflt : V) (k : Z) (m : gmap Z V) : V * gmap Z V :=
  match m !! k with
  | Some v => (v, m)
  | None => (dflt, <[k := dflt]> m)
  end.

End ordered.

(** [boost::assign::map_list_of (k1, v1) (k2, v2) ...] converted to a
    [std::map]: the pairs are inserted in order and an insertion under a key
    already present changes nothing, so the first pair of a key wins. *)
Definition map_list_of {V : Type} (l : list (Z * V)) : gmap Z V :=
  list_to_map l.

End StdMap.

(** ** Calls *)

Module Cpp.

(** The exceptions the specification names. No function of
    [checkpoints.cpp] contains a [throw]. *)
Inductive exception : Type := EmptyTable | InvariantViolation.

(** The outcome of a call. *)
Inductive outcome (A : Type) : Type :=
  | Returns (a : A)
  | Throws (e : exception)
  | Undefined.

Arguments Returns {A} a.
Arguments Throws {A} e.
Arguments Undefined {A}.

Definition outcome_map {A B : Type} (f : A -> B) (o : outcome A) : outcome B :=
  match o with
  | Returns a => Returns (f a)
  | Throws e => Throws e
  | Undefined => Undefined
  end.

End Cpp.

Import Cpp.

(** ** [double] *)

(** The operations [GuessVerificationProgress] applies to [double]s:
    conversion from an integer (also used for the literals, all of which
    are integers), [+], [*], [/] and the comparisons. *)
Class DoubleOps (D : Type) : Type := {
  double_of_int : Z -> D;
  double_add : D -> D -> D;
  double_mul : D -> D -> D;
  double_div : D -> D -> D;
  double_le : D -> D -> bool;
  double_lt : D -> D -> bool;
}.

(** IEEE-754 binary64 with round to nearest, ties to even. *)
Definition binary64 : Type := spec_float.

#[global] Instance binary64_ops : DoubleOps binary64 := {
  double_of_int z := binary_normalize 53 1024 z 0 false;
  double_add := SFadd 53 1024;
  double_mul := SFmul 53 1024;
  double_div := SFdiv 53 1024;
  double_le := SFleb;
  double_lt := SFltb;
}.

(** Exact rational arithmetic: [double] without rounding, overflow,
    infinities or NaN. *)
Definition Qleb (a b : Q) : bool := (Qnum a * QDen b <=? Qnum b * QDen a)%Z.
Definition Qltb (a b : Q) : bool := (Qnum a * QDen b <? Qnum b * QDen a)%Z.

#[global] Instance exact_ops : DoubleOps Q := {
  double_of_int := inject_Z;
  double_add := Qplus;
  double_mul := Qmult;
  double_div := Qdiv;
  double_le := Qleb;
  double_lt := Qltb;
}.

(** ** The node's state *)

(** Modelled from the spec: [CBlockIndex] is declared in [main.h], which is
    not among the sources. The specification's BlockIndexEntry "exposes
    height, timestamp, cumulative transaction count up to and including that
    block, hash, and main-chain membership". *)
Record CBlockIndex : Type := {
  nHeight : Z;
  nTime : Z;
  nChainTx : Z;
  GetBlockHash : uint256;
  IsInMainChain : bool;
}.

(** [CBlockIndex*]: [NULL] or the address of a block-index entry. *)
Abbreviation NULL := (@None CBlockIndex).

(** The variables of the process that [checkpoints.cpp] reads. The two
    [static MapCheckpoints] are not [const], so they are part of the state.
    [GetBoolArg] (util) answers from the argument map; [clock] is what
    [time(NULL)] returns. *)
Record World : Type := {
  fTestNet : bool;
  GetBoolArg : string -> bool -> bool;
  clock : Z;
  mapBlockIndex : gmap Z (option CBlockIndex);
  hashGenesisBlock : uint256;
  mapCheckpoints : gmap Z Z;
  mapCheckpointsTestnet : gmap Z Z;
}.

Definition set_mapBlockIndex (m : gmap Z (option CBlockIndex)) (w : World) : World :=
  {| fTestNet := fTestNet w; GetBoolArg := GetBoolArg w; clock := clock w;
     mapBlockIndex := m; hashGenesisBlock := hashGenesisBlock w;
     mapCheckpoints := mapCheckpoints w;
     mapCheckpointsTestnet := mapCheckpointsTestnet w |}.

Definition set_GetBoolArg (g : string -> bool -> bool) (w : World) : World :=
  {| fTestNet := fTestNet w; GetBoolArg := g; clock := clock w;
     mapBlockIndex := mapBlockIndex w; hashGenesisBlock := hashGenesisBlock w;
     mapCheckpoints := mapCheckpoints w;
     mapCheckpointsTestnet := mapCheckpointsTestnet w |}.

Definition set_clock (t : Z) (w : World) : World :=
  {| fTestNet := fTestNet w; GetBoolArg := GetBoolArg w; clock := t;
     mapBlockIndex := mapBlockIndex w; hashGenesisBlock := hashGenesisBlock w;
     mapCheckpoints := mapCheckpoints w;
     mapCheckpointsTestnet := mapCheckpointsTestnet w |}.

(** A call in a world: its outcome and the world it leaves. *)
Definition M (A : Type) : Type := World -> outcome (A * World).

#[global] Instance M_ret : MRet M := fun A a w => Returns (a, w).

#[global] Instance M_bind : MBind M := fun A B f m w =>
  match m w with
  | Returns (a, w') => f a w'
  | Throws e => Throws e
  | Undefined => Undefined
  end.

(** Reading a variable. *)
Definition read {A : Type} (f : World -> A) : M A := fun w => Returns (f w, w).

(** An operation the language gives no meaning to. *)
Definition undefined {A : Type} : M A := fun _ => Undefined.

(** What the caller gets back, the world left aside. *)
Definition result {A : Type} (o : outcome (A * World)) : outcome A :=
  outcome_map fst o.

(** [mapBlockIndex.count(hash)] *)
Definition mapBlockIndex_count (hash : uint256) : M Z :=
  read (fun w => StdMap.count hash (mapBlockIndex w)).

(** [mapBlockIndex[hash]] *)
Definition mapBlockIndex_index (hash : uint256) : M (option CBlockIndex) :=
  fun w =>
    let '(p, m) := StdMap.index NULL hash (mapBlockIndex w) in
    Returns (p, set_mapBlockIndex m w).

(** [p->IsInMainChain()] *)
Definition call_IsInMainChain (p : option CBlockIndex) : M bool :=
  match p with
  | Some b => mret (IsInMainChain b)
  | None => undefined
  end.

(** ** The checkpoint tables *)

(** [const MapCheckpoints *]: the address of one of the two static maps. *)
Inductive MapCheckpoints_ptr : Type :=
  | addr_mapCheckpoints
  | addr_mapCheckpointsTestnet.

(** [*p] *)
Definition deref (p : MapCheckpoints_ptr) : M (gmap Z Z) :=
  read (match p with
        | addr_mapCheckpoints => mapCheckpoints
        | addr_mapCheckpointsTestnet => mapCheckpointsTestnet
        end).

Module CCheckpointData.
Record t (D : Type) : Type := make {
  mapCheckpoints : MapCheckpoints_ptr;
  nTimeLastCheckpoint : Z;
  nTransactionsLastCheckpoint : Z;
  fTransactionsPerDay : D;
}.
Arguments make {D} _ _ _ _.
Arguments mapCheckpoints {D} _.
Arguments nTimeLastCheckpoint {D} _.
Arguments nTransactionsLastCheckpoint {D} _.
Arguments fTransactionsPerDay {D} _.
End CCheckpointData.

Section Checkpoints.

Context {D : Type} `{DoubleOps D}.

(** The constructor [uint256(const std::string&)] of [uint256.h], which is
    not among the sources: how a hash literal is read. *)
Variable uint256_of : string -> uint256.

Definition fSigcheckVerificationFactor : D := double_of_int 5.

(** What the static initialisers put into the two maps at startup. *)
Definition mapCheckpoints_init : gmap Z Z :=
  StdMap.map_list_of
    [ (   0, uint256_of "0x00000076d84c62af64353f3b59d8515191ee9f27e56d9c8422b1964aa6d167155x");
      (1000, uint256_of "0x00000dd11391efd43db7bbbe1de4c07cd82ec207b4074464256bc4d9deaa18c4");
      (2000, uint256_of "0x0000002f154e014512f4e621aef1af30f38fe2f2de995819877468a432067dce");
      (3000, uint256_of "0x000000002cb5bc53bfd466f66a61a6437a7bfdd490e7c75637bf190f0329c6a4");
      (4000, uint256_of "0x000000001a14bd8ddaff31c518af4734183f5f45ddc3ccd8eb05531f0e8358a6");
      (5000, uint256_of "0x00000000626014b6a0ff0895f586c99d6fdf4a1b9e61f58fac1280c6b8b1a159");
      (6000, uint256_of "0x0000000012ab31fbdf4d7ca8bbf12cc63aaa19c4bc6f71fc49690ce0d2847902");
      (7000, uint256_of "0x000000000083394cff579c43017e58108f1e762e66cbd77b207aec198a8f7fd6");
      (7387, uint256_of "0x0000000000ff52a2bf06e724e846f5cc7a85b9f43ede7adc89b289564a3e724d") ].

Definition data : CCheckpointData.t D :=
  CCheckpointData.make addr_mapCheckpoints 1403925464 25000 (double_of_int 800).

Definition mapCheckpointsTestnet_init : gmap Z Z :=
  StdMap.map_list_of [ (44, uint256_of "0") ].

Definition dataTestnet : CCheckpointData.t D :=
  CCheckpointData.make addr_mapCheckpointsTestnet 1393373461 3000 (double_of_int 30).

(** A world whose static maps hold what startup put there. *)
Definition startup (w : World) : Prop :=
  mapCheckpoints w = mapCheckpoints_init /\
  mapCheckpointsTestnet w = mapCheckpointsTestnet_init.

(** ** The operations *)

Definition Checkpoints : M (CCheckpointData.t D) :=
  test ← read fTestNet;
  if test : bool then mret dataTestnet else mret data.

Definition CheckBlock (nHeight : Z) (hash : uint256) : M bool :=
  test ← read fTestNet;
  if test : bool then mret true else
  enabled ← read (fun w => GetBoolArg w "-checkpoints" true);
  if negb enabled then mret true else
  d ← Checkpoints;
  checkpoints ← deref (CCheckpointData.mapCheckpoints d);
  match StdMap.find nHeight checkpoints with
  | None => mret true
  | Some second => mret (hash =? second)
  end.

(** The two amounts of work of [GuessVerificationProgress],
    [(fWorkBefore, fWorkAfter)], for a non-null [pindex]. *)
Definition work (nNow : Z) (d : CCheckpointData.t D) (pindex : CBlockIndex) : D * D :=
  if nChainTx pindex <=? CCheckpointData.nTransactionsLastCheckpoint d then
    let nCheapBefore := double_of_int (nChainTx pindex) in
    let nCheapAfter :=
      double_of_int
        (int64_sub (CCheckpointData.nTransactionsLastCheckpoint d) (nChainTx pindex)) in
    let nExpensiveAfter :=
      double_mul
        (double_div
           (double_of_int (int64_sub nNow (CCheckpointData.nTimeLastCheckpoint d)))
           (double_of_int 86400))
        (CCheckpointData.fTransactionsPerDay d) in
    (nCheapBefore,
     double_add nCheapAfter (double_mul nExpensiveAfter fSigcheckVerificationFactor))
  else
    let nCheapBefore := double_of_int (CCheckpointData.nTransactionsLastCheckpoint d) in
    let nExpensiveBefore :=
      double_of_int
        (int64_sub (nChainTx pindex) (CCheckpointData.nTransactionsLastCheckpoint d)) in
    let nExpensiveAfter :=
      double_mul
        (double_div
           (double_of_int (int64_sub nNow (nTime pindex)))
           (double_of_int 86400))
        (CCheckpointData.fTransactionsPerDay d) in
    (double_add nCheapBefore (double_mul nExpensiveBefore fSigcheckVerificationFactor),
     double_mul nExpensiveAfter fSigcheckVerificationFactor).

Definition GuessVerificationProgress (pindex : option CBlockIndex) : M D :=
  match pindex with
  | None => mret (double_of_int 0)
  | Some b =>
      nNow ← read clock;
      d ← Checkpoints;
      let '(fWorkBefore, fWorkAfter) := work nNow d b in
      mret (double_div fWorkBefore (double_add fWorkBefore fWorkAfter))
  end.

Definition GetTotalBlocksEstimate : M Z :=
  test ← read fTestNet;
  if test : bool then mret 0 else
  enabled ← read (fun w => GetBoolArg w "-checkpoints" true);
  if negb enabled then mret 0 else
  d ← Checkpoints;
  checkpoints ← deref (CCheckpointData.mapCheckpoints d);
  match StdMap.rbegin checkpoints with
  | Some i => mret i.1
  | None => undefined
  end.

(** The loop of [GetLastCheckpoint] over the entries still to visit. *)
Fixpoint GetLastCheckpoint_loop (index : gmap Z (option CBlockIndex))
    (entries : list (Z * Z)) : option CBlockIndex :=
  match entries with
  | [] => NULL
  | i :: rest =>
      let hash := i.2 in
      match StdMap.find hash index with
      | Some second => second
      | None => GetLastCheckpoint_loop index rest
      end
  end.

Definition GetLastCheckpoint (index : gmap Z (option CBlockIndex))
    : M (option CBlockIndex) :=
  test ← read fTestNet;
  if test : bool then mret NULL else
  enabled ← read (fun w => GetBoolArg w "-checkpoints" true);
  if negb enabled then mret NULL else
  d ← Checkpoints;
  checkpoints ← deref (CCheckpointData.mapCheckpoints d);
  mret (GetLastCheckpoint_loop index (StdMap.ritems checkpoints)).

(** The loop of [GetLastAvailableCheckpoint] over the entries still to
    visit; [&&] evaluates its right operand only when the left one holds. *)
Fixpoint GetLastAvailableCheckpoint_loop (entries : list (Z * Z)) : M uint256 :=
  match entries with
  | [] => read hashGenesisBlock
  | i :: rest =>
      let hash := i.2 in
      n ← mapBlockIndex_count hash;
      if n =? 0 then GetLastAvailableCheckpoint_loop rest else
      p ← mapBlockIndex_index hash;
      main ← call_IsInMainChain p;
      if main : bool then mret hash else GetLastAvailableCheckpoint_loop rest
  end.

Definition GetLastAvailableCheckpoint : M uint256 :=
  test ← read fTestNet;
  checkpoints ← read (if test : bool then mapCheckpointsTestnet else mapCheckpoints);
  GetLastAvailableCheckpoint_loop (StdMap.ritems checkpoints).

Definition GetLatestHardenedCheckpoint : M uint256 :=
  d ← Checkpoints;
  checkpoints ← deref (CCheckpointData.mapCheckpoints d);
  match StdMap.rbegin checkpoints with
  | Some i => mret i.2
  | None => undefined
  end.

End Checkpoints.

(** ** Notions the properties are stated with *)

(** The table the network mode selects: [*Checkpoints().mapCheckpoints],
    which is also the map [GetLastAvailableCheckpoint] picks by hand. *)
Definition active_table (w : World) : gmap Z Z :=
  if fTestNet w then mapCheckpointsTestnet w else mapCheckpoints w.

(** Checkpoint enforcement is on unless [-checkpoints] says otherwise. *)
Definition checkpoints_enabled (w : World) : bool :=
  GetBoolArg w "-checkpoints" true.

(** The block index stores no null pointer (main.cpp only ever stores the
    address of an entry it has allocated). *)
Definition index_wf (index : gmap Z (option CBlockIndex)) : Prop :=
  forall hash, index !! hash <> Some NULL.

(** [hash] is in the block index and its entry is on the main chain. *)
Definition on_main_chain (w : World) (hash : uint256) : Prop :=
  exists b, mapBlockIndex w !! hash = Some (Some b) /\ IsInMainChain b = true.

(** A call that returns leaves the world as it found it. *)
Definition frame {A : Type} (m : M A) : Prop :=
  forall w a w', m w = Returns (a, w') -> w' = w.

(** A call that returns in [w] and leaves [w] as it found it. *)
Definition preserves {A : Type} (m : M A) (w : World) : Prop :=
  exists a, m w = Returns (a, w).

(** A value of an integer type of at most 64 bits that is not negative. *)
Definition nonneg_int64 (z : Z) : Prop := 0 <= z <= int64_max.

Section Estimate.

Context {D : Type} `{DoubleOps D}.

(** The calibration the network mode selects. *)
Definition active_data (w : World) : CCheckpointData.t D :=
  if fTestNet w then dataTestnet else data.

(** The progress estimate in the specification's words (4.2): days elapsed
    are seconds over 86400, cheap work counts 1 per transaction, expensive
    work 5.0. Integer differences are the mathematical ones. *)
Definition days_elapsed (from now : Z) : D :=
  double_div (double_of_int (now - from)) (double_of_int 86400).

Definition spec_work_before (d : CCheckpointData.t D) (block : CBlockIndex) : D :=
  let checkpoint_count := CCheckpointData.nTransactionsLastCheckpoint d in
  if nChainTx block <=? checkpoint_count then double_of_int (nChainTx block)
  else double_add (double_of_int checkpoint_count)
         (double_mul (double_of_int (nChainTx block - checkpoint_count))
            (double_of_int 5)).

Definition spec_work_after (d : CCheckpointData.t D) (now : Z) (block : CBlockIndex) : D :=
  let checkpoint_count := CCheckpointData.nTransactionsLastCheckpoint d in
  let per_day := CCheckpointData.fTransactionsPerDay d in
  if nChainTx block <=? checkpoint_count then
    double_add (double_of_int (checkpoint_count - nChainTx block))
      (double_mul
         (double_mul (days_elapsed (CCheckpointData.nTimeLastCheckpoint d) now) per_day)
         (double_of_int 5))
  else
    double_mul (double_mul (days_elapsed (nTime block) now) per_day)
      (double_of_int 5).

Definition spec_progress (d : CCheckpointData.t D) (now : Z)
    (block : option CBlockIndex) : D :=
  match block with
  | None => double_of_int 0
  | Some b =>
      double_div (spec_work_before d b)
        (double_add (spec_work_before d b) (spec_work_after d now b))
  end.

End Estimate.

(** ** binary64 as rationals *)

(** The notions the properties of the binary64 estimate are stated with: the
    value of a float, and what it means that a float is a given rational
    rounded to nearest, ties to even. *)

(** [2 ^ e] as a rational. *)
Definition bpow (e : Z) : Q := (2 ^ e)%Q.

(** The record [mrs] places [y]: between [shr_m] and its successor, at the
    lower end, below the middle, at the middle or above it. *)
Definition describes (mrs : shr_record) (y : Q) : Prop :=
  0 <= shr_m mrs /\
  match shr_r mrs, shr_s mrs with
  | false, false => (y == inject_Z (shr_m mrs))%Q
  | false, true => (inject_Z (shr_m mrs) < y < inject_Z (shr_m mrs) + (1 # 2))%Q
  | true, false => (y == inject_Z (shr_m mrs) + (1 # 2))%Q
  | true, true => (inject_Z (shr_m mrs) + (1 # 2) < y < inject_Z (shr_m mrs) + 1)%Q
  end.

(** The integer [mz] is [y] rounded to the nearest integer, a tie going to
    the even one. *)
Definition is_rne (y : Q) (mz : Z) : Prop :=
  (inject_Z mz - (1 # 2) < y < inject_Z mz + (1 # 2))%Q \/
  (((y == inject_Z mz - (1 # 2)) \/ (y == inject_Z mz + (1 # 2)))%Q /\
   Z.even mz = true).

(** The value rounded to 53 digits at binade [k], as a float: the mantissa
    [2^53] is the next power of two. *)
Definition float_of (mz k : Z) : spec_float :=
  if mz =? 2 ^ 53 then S754_finite false (Z.to_pos (2 ^ 52)) (k - 52)
  else S754_finite false (Z.to_pos mz) (k - 53).

(** [f] is [x] rounded to nearest, ties to even, [x] being positive and in
    the range of normal binary64 numbers. *)
Definition Rounds (x : Q) (f : spec_float) : Prop :=
  exists k mz,
    -1021 <= k <= 1023 /\
    (bpow (k - 1) <= x < bpow k)%Q /\
    is_rne (x / bpow (k - 53)) mz /\
    f = float_of mz k /\
    (mz = 2 ^ 53 -> k <= 1022).

(** The rational a finite float stands for (0 for the others). *)
Definition B2Q (f : spec_float) : Q :=
  match f with
  | S754_finite s m e => (inject_Z (cond_Zopp s (Zpos m)) * bpow e)%Q
  | _ => 0%Q
  end.

(** A positive normal number that is not in the topmost binade. *)
Definition pnormal (f : spec_float) : Prop :=
  exists m e,
    f = S754_finite false m e /\ 2 ^ 52 <= Zpos m < 2 ^ 53 /\ -1074 <= e <= 970.

(** The floats the estimate works with: [+0] and the positive normal
    numbers. *)
Definition nonneg_float (f : spec_float) : Prop :=
  f = S754_zero false \/ pnormal f.

(** [f] is [x] rounded, [x] being zero or positive. *)
Definition RoundsNN (x : Q) (f : spec_float) : Prop :=
  ((x == 0)%Q /\ f = S754_zero false) \/ Rounds x f.

(** A positive normal number between two powers of two. *)
Definition ptame (lo hi : Z) (f : spec_float) : Prop :=
  pnormal f /\ (bpow lo <= B2Q f <= bpow hi)%Q.

(** [+0] or such a number. *)
Definition tame (lo hi : Z) (f : spec_float) : Prop :=
  f = S754_zero false \/ ptame lo hi f.

(** [(seconds / 86400.0 * per_day) * 5.0] *)
Definition expensive (per_day : binary64) (seconds : Z) : binary64 :=
  double_mul
    (double_mul (double_div (double_of_int seconds) (double_of_int 86400)) per_day)
    fSigcheckVerificationFactor.

(** What the two calibrations have in common. *)
Definition calibrated (d : CCheckpointData.t binary64) : Prop :=
  0 < CCheckpointData.nTransactionsLastCheckpoint d <= 2 ^ 20 /\
  nonneg_int64 (CCheckpointData.nTimeLastCheckpoint d) /\
  ptame 0 10 (CCheckpointData.fTransactionsPerDay d).

(** The relative error of one rounding to nearest: half a unit in the last
    place of a number in [[1, 2)]. *)
Definition eps : Q := bpow (-53).

(** [(1 - eps) ^ n] *)
Fixpoint shrink (n : nat) : Q :=
  match n with
  | O => 1
  | S n' => (1 - eps) * shrink n'
  end.

(** [v] is the non-negative [x] up to [n] roundings: each rounding takes a
    factor between [1 - eps] and [1 / (1 - eps)]. *)
Definition within (n : nat) (x v : Q) : Prop :=
  (0 <= x /\ 0 <= v /\ x * shrink n <= v /\ v * shrink n <= x)%Q.

(** ** Example worlds *)

(** One reading of a hash literal, used for the example worlds only: an
    optional [0x], then the base-16 digits up to the first other character,
    of which the low 256 bits are kept. *)
Definition hex_digit (c : ascii) : option Z :=
  let n := Z.of_nat (nat_of_ascii c) in
  if (48 <=? n) && (n <=? 57) then Some (n - 48)
  else if (97 <=? n) && (n <=? 102) then Some (n - 87)
  else if (65 <=? n) && (n <=? 70) then Some (n - 55)
  else None.

Fixpoint hex_run (acc : Z) (s : string) : Z :=
  match s with
  | EmptyString => acc
  | String c s' =>
      match hex_digit c with
      | Some d => hex_run (16 * acc + d) s'
      | None => acc
      end
  end.

Definition read_hex (s : string) : uint256 :=
  let digits :=
    match s with
    | String "0"%char (String "x"%char s') => s'
    | _ => s
    end in
  hex_run 0 digits mod 2 ^ 256.

(** [GetBoolArg] when the command line does not mention the option. *)
Definition args_none : string -> bool -> bool := fun _ fDefault => fDefault.

(** [GetBoolArg] under [-checkpoints=0]. *)
Definition args_checkpoints_off : string -> bool -> bool :=
  fun name fDefault => if String.eqb name "-checkpoints" then false else fDefault.

Definition H0 : uint256 :=
  read_hex "0x00000076d84c62af64353f3b59d8515191ee9f27e56d9c8422b1964aa6d167155x".
Definition H1000 : uint256 :=
  read_hex "0x00000dd11391efd43db7bbbe1de4c07cd82ec207b4074464256bc4d9deaa18c4".
Definition H7387 : uint256 :=
  read_hex "0x0000000000ff52a2bf06e724e846f5cc7a85b9f43ede7adc89b289564a3e724d".

(** A node after startup: the static maps as initialised, [index] as its
    block index, the hash of height 0 as genesis hash. *)
Definition node (test : bool) (args : string -> bool -> bool) (now : Z)
    (index : gmap Z (option CBlockIndex)) : World :=
  {| fTestNet := test; GetBoolArg := args; clock := now;
     mapBlockIndex := index; hashGenesisBlock := H0;
     mapCheckpoints := mapCheckpoints_init read_hex;
     mapCheckpointsTestnet := mapCheckpointsTestnet_init read_hex |}.

(** The same with both static maps empty, which no run reaches. *)
Definition node_without_checkpoints (test : bool) : World :=
  {| fTestNet := test; GetBoolArg := args_none; clock := 1403925464;
     mapBlockIndex := ∅; hashGenesisBlock := H0;
     mapCheckpoints := ∅; mapCheckpointsTestnet := ∅ |}.

Definition block (height time chain_tx : Z) (hash : uint256) (main : bool)
    : CBlockIndex :=
  {| nHeight := height; nTime := time; nChainTx := chain_tx;
     GetBlockHash := hash; IsInMainChain := main |}.

(** A block index that holds the checkpoints of heights 0 and 1000, the
    second one on a side chain. *)
Definition index_0_1000 : gmap Z (option CBlockIndex) :=
  <[H1000 := Some (block 1000 1403000000 3000 H1000 false)]>
    (<[H0 := Some (block 0 1402000000 1 H0 true)]> ∅).

(** A production node whose checkpoint table holds the heights 0 and 1000
    only. *)
Definition node_two_checkpoints (index : gmap Z (option CBlockIndex)) : World :=
  {| fTestNet := false; GetBoolArg := args_none; clock := 0;
     mapBlockIndex := index; hashGenesisBlock := H0;
     mapCheckpoints := StdMap.map_list_of [ (0, H0); (1000, H1000) ];
     mapCheckpointsTestnet := ∅ |}.

(** A block index that holds only the checkpoint of height 0. *)
Definition index_0 : gmap Z (option CBlockIndex) :=
  <[H0 := Some (block 0 1402000000 1 H0 true)]> ∅.

(** A block index that holds the checkpoint of height 1000 on the main
    chain and a null pointer under the hash of height 0. *)
Definition index_1000_null_0 : gmap Z (option CBlockIndex) :=
  <[H0 := NULL]>
    (<[H1000 := Some (block 1000 1403000000 3000 H1000 true)]> ∅).

(** A block index that stores a null pointer under the hash of the last
    production checkpoint and nothing else. *)
Definition index_null_7387 : gmap Z (option CBlockIndex) :=
  <[H7387 := NULL]> ∅.

(** A block 3000 transactions into the chain, below the last production
    checkpoint. *)
Definition block_below_checkpoint : CBlockIndex :=
  block 1000 1403000000 3000 H1000 true.

(** A block with no transaction up to it. *)
Definition block_without_transactions : CBlockIndex :=
  block 0 1402000000 0 H0 true.

(** The block of the last production checkpoint: 25000 transactions up to
    it, mined at the calibration's timestamp. *)
Definition block_at_checkpoint : CBlockIndex :=
  block 7387 1403925464 25000 H7387 true.

(** A block 600 transactions past the last production checkpoint whose
    timestamp is seven days after the calibration's. *)
Definition block_past_checkpoint : CBlockIndex :=
  block 7500 (1403925464 + 7 * 86400) 25600 1 true.

(** * Properties *)

(** ** Ordered iteration over a [std::map] *)

Section StdMap_facts.

Context {V : Type}.
Implicit Types (m : gmap Z V) (k : Z) (v : V).

Lemma elem_of_items m k v : (k, v) ∈ StdMap.items m <-> m !! k = Some v.
Proof.
  unfold StdMap.items. rewrite merge_sort_Permutation.
  apply elem_of_map_to_list.
Qed.

Lemma elem_of_ritems m k v : (k, v) ∈ StdMap.ritems m <-> m !! k = Some v.
Proof. unfold StdMap.ritems. rewrite elem_of_reverse. apply elem_of_items. Qed.

Lemma ritems_descending m :
  StronglySorted (flip (@StdMap.key_le V)) (StdMap.ritems m).
Proof.
  apply Sorted_StronglySorted.
  - intros a b c Hab Hbc. unfold flip, StdMap.key_le in *. lia.
  - apply Sorted_reverse, Sorted_merge_sort, _.
Qed.

Lemma ritems_nil m : StdMap.ritems m = [] <-> m = ∅.
Proof.
  unfold StdMap.ritems, StdMap.items. split.
  - intros E. apply (f_equal reverse) in E. rewrite reverse_involutive in E.
    change (reverse []) with (@nil (Z * V)) in E.
    apply map_to_list_empty_iff, Permutation_nil_r.
    rewrite <- E. symmetry. apply merge_sort_Permutation.
  - intros E. subst m. rewrite map_to_list_empty. reflexivity.
Qed.

(** Whatever comes after an entry in the reverse order has a key that is
    not greater. *)
Lemma ritems_split_le m l1 l2 k v k' v' :
  StdMap.ritems m = l1 ++ (k, v) :: l2 ->
  m !! k' = Some v' ->
  (k', v') ∉ l1 ->
  k' <= k.
Proof.
  intros E Hk' Hl1.
  pose proof (ritems_descending m) as Hs. rewrite E in Hs.
  apply elem_of_ritems in Hk'. rewrite E in Hk'.
  apply elem_of_app in Hk' as [Hin | Hin]; [contradiction|].
  apply elem_of_cons in Hin as [Heq | Hin].
  - injection Heq as -> _. lia.
  - apply StronglySorted_app_1_r, StronglySorted_cons in Hs as [Hall _].
    rewrite Forall_forall in Hall.
    apply (Hall _ Hin).
Qed.

Lemma rbegin_None m : StdMap.rbegin m = None <-> m = ∅.
Proof. unfold StdMap.rbegin. rewrite head_None. apply ritems_nil. Qed.

Lemma rbegin_Some m k v :
  StdMap.rbegin m = Some (k, v) ->
  m !! k = Some v /\ forall k', is_Some (m !! k') -> k' <= k.
Proof.
  unfold StdMap.rbegin. rewrite head_Some. intros [l E]. split.
  - apply elem_of_ritems. rewrite E. left.
  - intros k' [v' Hk'].
    apply (ritems_split_le m [] l k v k' v'); [exact E | exact Hk' |].
    apply not_elem_of_nil.
Qed.

Lemma rbegin_is_Some m : m <> ∅ -> is_Some (StdMap.rbegin m).
Proof.
  intros Hne. destruct (StdMap.rbegin m) eqn:E; [eauto|].
  apply rbegin_None in E. contradiction.
Qed.

End StdMap_facts.

(** ** Running a call *)

Lemma set_mapBlockIndex_same w : set_mapBlockIndex (mapBlockIndex w) w = w.
Proof. destruct w; reflexivity. Qed.

Lemma bind_Returns {A B : Type} (m : M A) (f : A -> M B) w a w' :
  m w = Returns (a, w') -> (m ≫= f) w = f a w'.
Proof. intros E. unfold mbind, M_bind. rewrite E. reflexivity. Qed.

Lemma bind_inv {A B : Type} (m : M A) (f : A -> M B) w b w'' :
  (m ≫= f) w = Returns (b, w'') ->
  exists a w', m w = Returns (a, w') /\ f a w' = Returns (b, w'').
Proof.
  unfold mbind, M_bind. destruct (m w) as [[a w']| |]; [eauto | discriminate..].
Qed.

(** Unfolds the monad down to the case analysis of the code. *)
Ltac run :=
  unfold mbind, M_bind, mret, M_ret, read, undefined, deref; simpl.

Section Oracle_facts.

Context {D : Type} `{DoubleOps D}.

Lemma Checkpoints_run w :
  Checkpoints (D:=D) w = Returns (active_data w, w).
Proof. unfold Checkpoints, active_data. run. destruct (fTestNet w); reflexivity. Qed.

Lemma deref_active w :
  deref (CCheckpointData.mapCheckpoints (active_data (D:=D) w)) w
  = Returns (active_table w, w).
Proof. unfold active_data, active_table. run. destruct (fTestNet w); reflexivity. Qed.

(** C1. [CheckBlock] returns true on the test network and when checkpoints
    are switched off; otherwise it returns true for a height without an
    entry in the active table, and for a height with an entry it returns
    true exactly when the hash supplied is the one stored. *)
Theorem CheckBlock_spec (w : World) (nHeight : Z) (hash : uint256) :
  exists b : bool,
    CheckBlock (D:=D) nHeight hash w = Returns (b, w) /\
    (fTestNet w = true \/ checkpoints_enabled w = false -> b = true) /\
    (fTestNet w = false -> checkpoints_enabled w = true ->
     match active_table w !! nHeight with
     | None => b = true
     | Some stored => b = true <-> hash = stored
     end).
Proof.
  destruct w as [test args now index genesis main_table test_table].
  unfold CheckBlock, Checkpoints, active_table, checkpoints_enabled,
    StdMap.find. run.
  destruct test; simpl.
  { exists true. split; [reflexivity|]. split; [auto | discriminate]. }
  destruct (args "-checkpoints" true); simpl.
  2: { exists true. split; [reflexivity|]. split; [auto | discriminate]. }
  destruct (main_table !! nHeight) as [stored|].
  - exists (hash =? stored). split; [reflexivity|]. split.
    + intros [?|?]; discriminate.
    + intros _ _. apply Z.eqb_eq.
  - exists true. split; [reflexivity|]. split; auto.
Qed.

(** C7. [GetTotalBlocksEstimate] returns 0 on the test network and when
    checkpoints are switched off; otherwise it returns the greatest height
    of the active table. *)
Theorem GetTotalBlocksEstimate_spec (w : World) :
  (fTestNet w = true \/ checkpoints_enabled w = false ->
   GetTotalBlocksEstimate (D:=D) w = Returns (0, w)) /\
  (fTestNet w = false -> checkpoints_enabled w = true ->
   active_table w <> ∅ ->
   exists height,
     GetTotalBlocksEstimate (D:=D) w = Returns (height, w) /\
     is_Some (active_table w !! height) /\
     forall height', is_Some (active_table w !! height') -> height' <= height).
Proof.
  destruct w as [test args now index genesis main_table test_table].
  unfold GetTotalBlocksEstimate, Checkpoints, active_table, checkpoints_enabled.
  run. split.
  - intros [-> | E]; [reflexivity|].
    destruct test; [reflexivity|]. simpl. rewrite E. reflexivity.
  - intros -> E Hne. simpl. rewrite E. simpl.
    destruct (rbegin_is_Some _ Hne) as [[k v] Erb]. rewrite Erb. simpl.
    apply rbegin_Some in Erb as [Hk Hmax].
    exists k. split; [reflexivity|]. split; [eauto | exact Hmax].
Qed.

(** The loop of [GetLastCheckpoint] stops at the first entry whose hash is a
    key of the index, or visits them all. *)
Lemma GetLastCheckpoint_loop_spec (index : gmap Z (option CBlockIndex))
    (entries : list (Z * Z)) :
  (exists l1 i l2 p,
     entries = l1 ++ i :: l2 /\ index !! i.2 = Some p /\
     Forall (fun j => index !! j.2 = None) l1 /\
     GetLastCheckpoint_loop index entries = p)
  \/ (Forall (fun j => index !! j.2 = None) entries /\
      GetLastCheckpoint_loop index entries = NULL).
Proof.
  induction entries as [|i rest IH]; simpl.
  - right. split; [constructor | reflexivity].
  - unfold StdMap.find. destruct (index !! i.2) as [p|] eqn:Ei.
    + left. exists [], i, rest, p. repeat split; [exact Ei | constructor].
    + destruct IH as [(l1 & j & l2 & p & -> & Ej & Hl1 & Eloop) | [Hall Eloop]].
      * left. exists (i :: l1), j, l2, p.
        repeat split; [exact Ej | constructor; assumption | exact Eloop].
      * right. split; [constructor; assumption | exact Eloop].
Qed.

(** C4. [GetLastCheckpoint] returns null on the test network and when
    checkpoints are switched off. Otherwise it returns what the index stores
    under the hash of the highest entry of the active table whose hash is a
    key of the index, and null when no hash of the table is a key. *)
Theorem GetLastCheckpoint_spec (w : World)
    (index : gmap Z (option CBlockIndex)) :
  exists p : option CBlockIndex,
    GetLastCheckpoint (D:=D) index w = Returns (p, w) /\
    (fTestNet w = true \/ checkpoints_enabled w = false -> p = NULL) /\
    (fTestNet w = false -> checkpoints_enabled w = true ->
     (exists height hash,
        active_table w !! height = Some hash /\
        index !! hash = Some p /\
        forall height' hash',
          active_table w !! height' = Some hash' ->
          is_Some (index !! hash') -> height' <= height)
     \/ ((forall height' hash',
           active_table w !! height' = Some hash' -> index !! hash' = None) /\
         p = NULL)).
Proof.
  destruct w as [test args now idx genesis main_table test_table].
  unfold GetLastCheckpoint, Checkpoints, active_table, checkpoints_enabled.
  run.
  destruct test; simpl.
  { exists NULL. split; [reflexivity|]. split; [auto | discriminate]. }
  destruct (args "-checkpoints" true); simpl.
  2: { exists NULL. split; [reflexivity|]. split; [auto | discriminate]. }
  eexists. split; [reflexivity|]. split; [intros [?|?]; discriminate|].
  intros _ _.
  destruct (GetLastCheckpoint_loop_spec index (StdMap.ritems main_table))
    as [(l1 & [height hash] & l2 & p & E & Ep & Hl1 & ->) | [Hall ->]].
  - left. exists height, hash. split; [|split; [exact Ep|]].
    + apply elem_of_ritems. rewrite E. apply elem_of_app. right. left.
    + intros height' hash' Hentry [p' Hp'].
      apply (ritems_split_le main_table l1 l2 height hash height' hash');
        [exact E | exact Hentry |].
      intros Hin. rewrite Forall_forall in Hl1.
      specialize (Hl1 _ Hin). simpl in Hl1. congruence.
  - right. split; [|reflexivity].
    intros height' hash' Hentry. rewrite Forall_forall in Hall.
    apply elem_of_ritems in Hentry. apply (Hall _ Hentry).
Qed.

(** Indexing the block index under a key it holds inserts nothing. *)
Lemma mapBlockIndex_index_present w hash p :
  mapBlockIndex w !! hash = Some p ->
  mapBlockIndex_index hash w = Returns (p, w).
Proof.
  intros E. unfold mapBlockIndex_index, StdMap.index. rewrite E.
  rewrite set_mapBlockIndex_same. reflexivity.
Qed.

(** One turn of the loop of [GetLastAvailableCheckpoint]. *)
Lemma GetLastAvailableCheckpoint_loop_absent w i rest :
  mapBlockIndex w !! i.2 = None ->
  GetLastAvailableCheckpoint_loop (i :: rest) w
  = GetLastAvailableCheckpoint_loop rest w.
Proof.
  intros E. simpl. unfold mapBlockIndex_count, StdMap.count. run.
  rewrite E. reflexivity.
Qed.

Lemma GetLastAvailableCheckpoint_loop_present w i rest b :
  mapBlockIndex w !! i.2 = Some (Some b) ->
  GetLastAvailableCheckpoint_loop (i :: rest) w
  = if IsInMainChain b then Returns (i.2, w)
    else GetLastAvailableCheckpoint_loop rest w.
Proof.
  intros E. simpl. unfold mapBlockIndex_count, StdMap.count.
  unfold mbind at 1. unfold M_bind at 1. unfold read. rewrite E. simpl.
  rewrite (bind_Returns _ _ _ _ _ (mapBlockIndex_index_present w _ _ E)).
  simpl. run. destruct (IsInMainChain b); reflexivity.
Qed.

Lemma GetLastAvailableCheckpoint_loop_null w i rest :
  mapBlockIndex w !! i.2 = Some NULL ->
  GetLastAvailableCheckpoint_loop (i :: rest) w = Undefined.
Proof.
  intros E. simpl. unfold mapBlockIndex_count, StdMap.count.
  unfold mbind at 1. unfold M_bind at 1. unfold read. rewrite E. simpl.
  rewrite (bind_Returns _ _ _ _ _ (mapBlockIndex_index_present w _ _ E)).
  reflexivity.
Qed.

(** The loop stops at the first entry that is in the index and on the main
    chain, or visits them all and falls back to the genesis hash. *)
Lemma GetLastAvailableCheckpoint_loop_spec w (entries : list (Z * Z)) :
  index_wf (mapBlockIndex w) ->
  (exists l1 i l2,
     entries = l1 ++ i :: l2 /\ on_main_chain w i.2 /\
     Forall (fun j => ~ on_main_chain w j.2) l1 /\
     GetLastAvailableCheckpoint_loop entries w = Returns (i.2, w))
  \/ (Forall (fun j => ~ on_main_chain w j.2) entries /\
      GetLastAvailableCheckpoint_loop entries w = Returns (hashGenesisBlock w, w)).
Proof.
  intros Hwf. induction entries as [|i rest IH].
  - right. split; [constructor | reflexivity].
  - assert (Hskip :
        GetLastAvailableCheckpoint_loop (i :: rest) w
        = GetLastAvailableCheckpoint_loop rest w ->
        ~ on_main_chain w i.2 ->
        (exists l1 j l2,
           i :: rest = l1 ++ j :: l2 /\ on_main_chain w j.2 /\
           Forall (fun j => ~ on_main_chain w j.2) l1 /\
           GetLastAvailableCheckpoint_loop (i :: rest) w = Returns (j.2, w))
        \/ (Forall (fun j => ~ on_main_chain w j.2) (i :: rest) /\
            GetLastAvailableCheckpoint_loop (i :: rest) w
            = Returns (hashGenesisBlock w, w))).
    { intros -> Hno.
      destruct IH as [(l1 & j & l2 & -> & Hj & Hl1 & Eloop) | [Hall Eloop]].
      - left. exists (i :: l1), j, l2.
        repeat split; [exact Hj | constructor; assumption | exact Eloop].
      - right. split; [constructor; assumption | exact Eloop]. }
    destruct (mapBlockIndex w !! i.2) as [[b|]|] eqn:Ei.
    + rewrite (GetLastAvailableCheckpoint_loop_present w i rest b Ei) in *.
      destruct (IsInMainChain b) eqn:Eb.
      * left. exists [], i, rest.
        repeat split; [exists b; split; assumption | constructor].
      * apply Hskip; [reflexivity|].
        intros (b' & Eb' & Hmain). congruence.
    + destruct (Hwf _ Ei).
    + apply Hskip.
      * apply GetLastAvailableCheckpoint_loop_absent, Ei.
      * intros (b' & Eb' & _). congruence.
Qed.

(** C3, as the code has it. On a block index that stores no null pointer
    [GetLastAvailableCheckpoint] returns the hash of the highest entry of
    the active table that is in the index and on the main chain, and the
    genesis hash when no entry is. Nothing keeps the call off a null
    pointer the index stores: [IsInMainChain] is called through whatever
    pointer is found. *)
Theorem GetLastAvailableCheckpoint_spec (w : World) :
  index_wf (mapBlockIndex w) ->
  exists hash : uint256,
    GetLastAvailableCheckpoint w = Returns (hash, w) /\
    ((exists height,
        active_table w !! height = Some hash /\
        on_main_chain w hash /\
        forall height' hash',
          active_table w !! height' = Some hash' ->
          on_main_chain w hash' -> height' <= height)
     \/ ((forall height' hash',
           active_table w !! height' = Some hash' -> ~ on_main_chain w hash') /\
         hash = hashGenesisBlock w)).
Proof.
  intros Hwf. unfold GetLastAvailableCheckpoint. run.
  replace ((if fTestNet w then mapCheckpointsTestnet else mapCheckpoints) w)
    with (active_table w)
    by (unfold active_table; destruct (fTestNet w); reflexivity).
  destruct (GetLastAvailableCheckpoint_loop_spec w
              (StdMap.ritems (active_table w)) Hwf)
    as [(l1 & [height hash] & l2 & E & Hmain & Hl1 & Eloop) | [Hall Eloop]].
  - exists hash. split; [exact Eloop|]. left. exists height.
    split; [|split; [exact Hmain|]].
    + apply elem_of_ritems. rewrite E. apply elem_of_app. right. left.
    + intros height' hash' Hentry Hmain'.
      apply (ritems_split_le (active_table w) l1 l2 height hash height' hash');
        [exact E | exact Hentry |].
      intros Hin. rewrite Forall_forall in Hl1.
      apply (Hl1 _ Hin). exact Hmain'.
  - exists (hashGenesisBlock w). split; [exact Eloop|]. right.
    split; [|reflexivity].
    intros height' hash' Hentry. rewrite Forall_forall in Hall.
    apply elem_of_ritems in Hentry. apply (Hall _ Hentry).
Qed.

(** Startup leaves neither static map empty. *)
Lemma startup_active_table_nonempty uint256_of (w : World) :
  startup uint256_of w -> active_table w <> ∅.
Proof.
  intros [Emain Etest] Hempty. unfold active_table in Hempty.
  destruct (fTestNet w).
  - rewrite Etest in Hempty.
    apply (f_equal (fun m : gmap Z Z => m !! 44)) in Hempty.
    unfold mapCheckpointsTestnet_init, StdMap.map_list_of in Hempty.
    simpl in Hempty. rewrite lookup_insert_eq, lookup_empty in Hempty.
    discriminate.
  - rewrite Emain in Hempty.
    apply (f_equal (fun m : gmap Z Z => m !! 0)) in Hempty.
    unfold mapCheckpoints_init, StdMap.map_list_of in Hempty.
    simpl in Hempty. rewrite lookup_insert_eq, lookup_empty in Hempty.
    discriminate.
Qed.

(** C2, as the code has it. On a non-empty active table
    [GetLatestHardenedCheckpoint] returns the hash of the entry of greatest
    height, whatever the network mode, the [-checkpoints] argument and the
    block index are; startup leaves the active table non-empty. On an empty
    table nothing is checked and nothing is thrown: the call is undefined. *)
Theorem GetLatestHardenedCheckpoint_spec uint256_of (w : World) :
  (active_table w <> ∅ ->
   exists height hash,
     GetLatestHardenedCheckpoint (D:=D) w = Returns (hash, w) /\
     active_table w !! height = Some hash /\
     (forall height', is_Some (active_table w !! height') -> height' <= height) /\
     forall args index,
       result (GetLatestHardenedCheckpoint (D:=D)
                 (set_GetBoolArg args (set_mapBlockIndex index w)))
       = Returns hash) /\
  (startup uint256_of w -> active_table w <> ∅) /\
  (active_table w = ∅ -> GetLatestHardenedCheckpoint (D:=D) w = Undefined).
Proof.
  split; [|split; [apply startup_active_table_nonempty|]].
  - destruct w as [test args now index genesis main_table test_table].
    unfold GetLatestHardenedCheckpoint, Checkpoints, active_table, result.
    run. intros Hne.
    destruct (rbegin_is_Some _ Hne) as [[height hash] Erb].
    exists height, hash.
    destruct test; simpl in *; rewrite Erb; simpl;
      (split; [reflexivity|]);
      apply rbegin_Some in Erb as [Hk Hmax]; auto.
  - destruct w as [test args now index genesis main_table test_table].
    unfold GetLatestHardenedCheckpoint, Checkpoints, active_table.
    run. intros Hempty. apply rbegin_None in Hempty.
    destruct test; simpl in *; rewrite Hempty; reflexivity.
Qed.

(** The loop of [GetLastAvailableCheckpoint] never looks at the arguments. *)
Lemma GetLastAvailableCheckpoint_loop_args args (entries : list (Z * Z)) w :
  GetLastAvailableCheckpoint_loop entries (set_GetBoolArg args w)
  = outcome_map (fun r => (r.1, set_GetBoolArg args r.2))
      (GetLastAvailableCheckpoint_loop entries w).
Proof.
  induction entries as [|i rest IH]; [reflexivity|].
  destruct (mapBlockIndex w !! i.2) as [[b|]|] eqn:Ei.
  - rewrite (GetLastAvailableCheckpoint_loop_present w i rest b Ei).
    rewrite (GetLastAvailableCheckpoint_loop_present
               (set_GetBoolArg args w) i rest b Ei).
    destruct (IsInMainChain b); [reflexivity | exact IH].
  - rewrite (GetLastAvailableCheckpoint_loop_null w i rest Ei).
    rewrite (GetLastAvailableCheckpoint_loop_null
               (set_GetBoolArg args w) i rest Ei).
    reflexivity.
  - rewrite (GetLastAvailableCheckpoint_loop_absent w i rest Ei).
    rewrite (GetLastAvailableCheckpoint_loop_absent
               (set_GetBoolArg args w) i rest Ei).
    exact IH.
Qed.

(** The loop of [GetLastCheckpoint] returns what the index stores under the
    hash of an entry when no entry above it has its hash in the index. *)
Lemma GetLastCheckpoint_loop_top (index : gmap Z (option CBlockIndex))
    (m : gmap Z Z) (height : Z) (hash : uint256) (p : option CBlockIndex) :
  m !! height = Some hash -> index !! hash = Some p ->
  (forall height' hash',
     m !! height' = Some hash' -> height < height' -> index !! hash' = None) ->
  GetLastCheckpoint_loop index (StdMap.ritems m) = p.
Proof.
  intros Hentry Hp Habove.
  destruct (GetLastCheckpoint_loop_spec index (StdMap.ritems m))
    as [(l1 & [k v] & l2 & q & E & Eq & Hl1 & ->) | [Hall _]].
  - simpl in Eq.
    assert (Hkv : m !! k = Some v).
    { apply elem_of_ritems. rewrite E. apply elem_of_app. right. left. }
    assert (Hout : (height, hash) ∉ l1).
    { intros Hin. rewrite Forall_forall in Hl1. specialize (Hl1 _ Hin).
      simpl in Hl1. congruence. }
    pose proof (ritems_split_le m l1 l2 k v height hash E Hentry Hout) as Hle.
    destruct (Z.eq_dec height k) as [-> | Hne].
    + congruence.
    + specialize (Habove k v Hkv ltac:(lia)). congruence.
  - rewrite Forall_forall in Hall. apply elem_of_ritems in Hentry.
    specialize (Hall _ Hentry). simpl in Hall. congruence.
Qed.

(** C8. Whatever [GetBoolArg] answers, [GetLastAvailableCheckpoint] gives
    the same result, whereas [GetLastCheckpoint] follows the answer: it
    returns null as soon as [-checkpoints] is off, and with [-checkpoints]
    on, on the production network, it returns the block the index stores
    for the highest entry of the table whose hash is in the index, so that
    switching the argument off changes its result. *)
Theorem flag_sensitivity (w : World) (args : string -> bool -> bool)
    (index : gmap Z (option CBlockIndex)) :
  result (GetLastAvailableCheckpoint (set_GetBoolArg args w))
  = result (GetLastAvailableCheckpoint w) /\
  (args "-checkpoints" true = false ->
   GetLastCheckpoint (D:=D) index (set_GetBoolArg args w)
   = Returns (NULL, set_GetBoolArg args w)) /\
  (args "-checkpoints" true = true -> fTestNet w = false ->
   forall (height : Z) (hash : uint256) (b : CBlockIndex),
     active_table w !! height = Some hash ->
     index !! hash = Some (Some b) ->
     (forall height' hash',
        active_table w !! height' = Some hash' -> height < height' ->
        index !! hash' = None) ->
     GetLastCheckpoint (D:=D) index (set_GetBoolArg args w)
     = Returns (Some b, set_GetBoolArg args w) /\
     forall off : string -> bool -> bool,
       off "-checkpoints" true = false ->
       result (GetLastCheckpoint (D:=D) index (set_GetBoolArg off w))
       <> result (GetLastCheckpoint (D:=D) index (set_GetBoolArg args w))).
Proof.
  assert (Hoff : forall off : string -> bool -> bool,
            off "-checkpoints" true = false ->
            GetLastCheckpoint (D:=D) index (set_GetBoolArg off w)
            = Returns (NULL, set_GetBoolArg off w)).
  { intros off Eoff. destruct w as [test a now idx genesis main_table test_table].
    unfold GetLastCheckpoint, set_GetBoolArg. run.
    destruct test; [reflexivity|]. simpl. rewrite Eoff. reflexivity. }
  split; [|split].
  - unfold GetLastAvailableCheckpoint. run.
    destruct (fTestNet w); simpl;
      rewrite GetLastAvailableCheckpoint_loop_args; unfold result;
      destruct (GetLastAvailableCheckpoint_loop _ w) as [[hash w']| |];
      reflexivity.
  - apply Hoff.
  - intros Eon Etest height hash b Hentry Hb Habove.
    assert (Eres : GetLastCheckpoint (D:=D) index (set_GetBoolArg args w)
                   = Returns (Some b, set_GetBoolArg args w)).
    { destruct w as [test a now idx genesis main_table test_table].
      unfold active_table in Hentry, Habove. simpl in Etest, Hentry, Habove.
      subst test.
      unfold GetLastCheckpoint, Checkpoints, set_GetBoolArg. run.
      rewrite Eon. simpl.
      rewrite (GetLastCheckpoint_loop_top index main_table height hash (Some b)
                 Hentry Hb Habove).
      reflexivity. }
    split; [exact Eres|].
    intros off Eoff. rewrite Eres, (Hoff off Eoff). simpl. discriminate.
Qed.

(** ** No operation writes *)

Lemma preserves_frame {A : Type} (m : M A) :
  (forall w, m w = Undefined \/ preserves m w) -> frame m.
Proof.
  intros Hm w a w' E. destruct (Hm w) as [Eu | [a0 E0]]; congruence.
Qed.

Lemma CheckBlock_preserves w nHeight hash :
  preserves (CheckBlock (D:=D) nHeight hash) w.
Proof.
  destruct w as [test args now index genesis main_table test_table].
  unfold preserves, CheckBlock, Checkpoints, StdMap.find. run.
  destruct test; simpl; [eauto|].
  destruct (args "-checkpoints" true); simpl; [|eauto].
  destruct (main_table !! nHeight); eauto.
Qed.

Lemma GuessVerificationProgress_preserves w pindex :
  preserves (GuessVerificationProgress (D:=D) pindex) w.
Proof.
  unfold preserves, GuessVerificationProgress.
  destruct pindex as [b|]; run; [|eauto].
  destruct (Checkpoints w) as [[d w']| |] eqn:E;
    rewrite Checkpoints_run in E; [|discriminate..].
  injection E as <- <-. destruct (work _ _ b). eauto.
Qed.

Lemma GetLastCheckpoint_preserves w index :
  preserves (GetLastCheckpoint (D:=D) index) w.
Proof.
  destruct w as [test args now idx genesis main_table test_table].
  unfold preserves, GetLastCheckpoint, Checkpoints. run.
  destruct test; simpl; [eauto|].
  destruct (args "-checkpoints" true); simpl; eauto.
Qed.

Lemma GetTotalBlocksEstimate_stable w :
  (GetTotalBlocksEstimate (D:=D) w = Undefined \/
   preserves (GetTotalBlocksEstimate (D:=D)) w) /\
  (active_table w <> ∅ -> preserves (GetTotalBlocksEstimate (D:=D)) w).
Proof.
  destruct w as [test args now idx genesis main_table test_table].
  unfold preserves, GetTotalBlocksEstimate, Checkpoints, active_table. run.
  destruct test; simpl; [eauto|].
  destruct (args "-checkpoints" true); simpl; [|eauto].
  destruct (StdMap.rbegin main_table) as [i|] eqn:Erb; simpl; [eauto|].
  split; [auto|]. intros Hne. apply rbegin_None in Erb. contradiction.
Qed.

Lemma GetLatestHardenedCheckpoint_stable w :
  (GetLatestHardenedCheckpoint (D:=D) w = Undefined \/
   preserves (GetLatestHardenedCheckpoint (D:=D)) w) /\
  (active_table w <> ∅ -> preserves (GetLatestHardenedCheckpoint (D:=D)) w).
Proof.
  destruct w as [test args now idx genesis main_table test_table].
  unfold preserves, GetLatestHardenedCheckpoint, Checkpoints, active_table. run.
  destruct test; simpl.
  - destruct (StdMap.rbegin test_table) as [i|] eqn:Erb; simpl; [eauto|].
    split; [auto|]. intros Hne. apply rbegin_None in Erb. contradiction.
  - destruct (StdMap.rbegin main_table) as [i|] eqn:Erb; simpl; [eauto|].
    split; [auto|]. intros Hne. apply rbegin_None in Erb. contradiction.
Qed.

(** The guard [mapBlockIndex.count(hash)] keeps [mapBlockIndex[hash]] from
    ever inserting: the loop leaves the world as it is. *)
Lemma GetLastAvailableCheckpoint_loop_stable (entries : list (Z * Z)) w :
  GetLastAvailableCheckpoint_loop entries w = Undefined \/
  preserves (GetLastAvailableCheckpoint_loop entries) w.
Proof.
  induction entries as [|i rest IH].
  - right. exists (hashGenesisBlock w). reflexivity.
  - unfold preserves in *.
    destruct (mapBlockIndex w !! i.2) as [[b|]|] eqn:Ei.
    + rewrite (GetLastAvailableCheckpoint_loop_present w i rest b Ei).
      destruct (IsInMainChain b); [eauto | exact IH].
    + left. apply GetLastAvailableCheckpoint_loop_null, Ei.
    + rewrite (GetLastAvailableCheckpoint_loop_absent w i rest Ei). exact IH.
Qed.

Lemma GetLastAvailableCheckpoint_stable w :
  (GetLastAvailableCheckpoint w = Undefined \/
   preserves GetLastAvailableCheckpoint w) /\
  (index_wf (mapBlockIndex w) -> preserves GetLastAvailableCheckpoint w).
Proof.
  unfold GetLastAvailableCheckpoint, preserves. run. split.
  - apply GetLastAvailableCheckpoint_loop_stable.
  - intros Hwf.
    destruct (GetLastAvailableCheckpoint_loop_spec w
      (StdMap.ritems ((if fTestNet w then mapCheckpointsTestnet
                       else mapCheckpoints) w)) Hwf)
      as [(l1 & i & l2 & _ & _ & _ & E) | [_ E]]; eauto.
Qed.

(** C9. No operation of the oracle changes the checkpoint tables, the
    block index or any other variable: a call that returns leaves the world
    as it found it, [GetLastAvailableCheckpoint] included although it
    indexes [mapBlockIndex]; and with a non-empty active table and a block
    index free of null pointers every call does return. *)
Theorem oracle_frame (w : World) (nHeight : Z) (hash : uint256)
    (pindex : option CBlockIndex) (index : gmap Z (option CBlockIndex)) :
  (frame (CheckBlock (D:=D) nHeight hash) /\
   frame (GuessVerificationProgress (D:=D) pindex) /\
   frame (GetTotalBlocksEstimate (D:=D)) /\
   frame (GetLastCheckpoint (D:=D) index) /\
   frame GetLastAvailableCheckpoint /\
   frame (GetLatestHardenedCheckpoint (D:=D))) /\
  (active_table w <> ∅ -> index_wf (mapBlockIndex w) ->
   preserves (CheckBlock (D:=D) nHeight hash) w /\
   preserves (GuessVerificationProgress (D:=D) pindex) w /\
   preserves (GetTotalBlocksEstimate (D:=D)) w /\
   preserves (GetLastCheckpoint (D:=D) index) w /\
   preserves GetLastAvailableCheckpoint w /\
   preserves (GetLatestHardenedCheckpoint (D:=D)) w).
Proof.
  split.
  - repeat split; apply preserves_frame; intros w0.
    + right. apply CheckBlock_preserves.
    + right. apply GuessVerificationProgress_preserves.
    + apply GetTotalBlocksEstimate_stable.
    + right. apply GetLastCheckpoint_preserves.
    + apply GetLastAvailableCheckpoint_stable.
    + apply GetLatestHardenedCheckpoint_stable.
  - intros Hne Hwf. repeat split.
    + apply CheckBlock_preserves.
    + apply GuessVerificationProgress_preserves.
    + apply GetTotalBlocksEstimate_stable, Hne.
    + apply GetLastCheckpoint_preserves.
    + apply GetLastAvailableCheckpoint_stable, Hwf.
    + apply GetLatestHardenedCheckpoint_stable, Hne.
Qed.

(** ** After startup, and with a null pointer in the index *)

(** After startup the production table ends at height 7387: that is the
    estimate of [GetTotalBlocksEstimate], and [GetLatestHardenedCheckpoint]
    returns what the literal recorded for that height reads as; on the test
    network it returns the literal of height 44. *)
Theorem startup_estimates uint256_of (w : World) :
  startup uint256_of w ->
  (fTestNet w = false -> checkpoints_enabled w = true ->
   GetTotalBlocksEstimate (D:=D) w = Returns (7387, w)) /\
  (fTestNet w = false ->
   GetLatestHardenedCheckpoint (D:=D) w
   = Returns (uint256_of
                "0x0000000000ff52a2bf06e724e846f5cc7a85b9f43ede7adc89b289564a3e724d",
              w)) /\
  (fTestNet w = true ->
   GetLatestHardenedCheckpoint (D:=D) w = Returns (uint256_of "0", w)).
Proof.
  destruct w as [test args now index genesis main_table test_table].
  unfold startup, checkpoints_enabled. simpl. intros [-> ->].
  assert (Emain : StdMap.rbegin (mapCheckpoints_init uint256_of)
                  = Some (7387, uint256_of
                     "0x0000000000ff52a2bf06e724e846f5cc7a85b9f43ede7adc89b289564a3e724d"))
    by (vm_compute; reflexivity).
  assert (Etest : StdMap.rbegin (mapCheckpointsTestnet_init uint256_of)
                  = Some (44, uint256_of "0"))
    by (vm_compute; reflexivity).
  unfold GetTotalBlocksEstimate, GetLatestHardenedCheckpoint, Checkpoints. run.
  split; [|split].
  - intros -> E. simpl. rewrite E. simpl. rewrite Emain. reflexivity.
  - intros ->. simpl. rewrite Emain. reflexivity.
  - intros ->. simpl. rewrite Etest. reflexivity.
Qed.

(** [GetLastAvailableCheckpoint] calls [IsInMainChain] through whatever
    pointer the index stores: when the highest entry of the active table is
    in the index with a null pointer, the call is undefined. *)
Theorem GetLastAvailableCheckpoint_null_pointer (w : World)
    (height : Z) (hash : uint256) :
  StdMap.rbegin (active_table w) = Some (height, hash) ->
  mapBlockIndex w !! hash = Some NULL ->
  GetLastAvailableCheckpoint w = Undefined.
Proof.
  intros Erb Enull. unfold GetLastAvailableCheckpoint. run.
  replace ((if fTestNet w then mapCheckpointsTestnet else mapCheckpoints) w)
    with (active_table w)
    by (unfold active_table; destruct (fTestNet w); reflexivity).
  unfold StdMap.rbegin in Erb. apply head_Some in Erb as [rest ->].
  apply GetLastAvailableCheckpoint_loop_null. exact Enull.
Qed.

(** ** The height estimate against [CheckBlock] *)

(** What [GetTotalBlocksEstimate] reads off the active table. *)
Lemma GetTotalBlocksEstimate_inv (w w' : World) (n : Z) :
  GetTotalBlocksEstimate (D:=D) w = Returns (n, w') ->
  (fTestNet w = true \/ checkpoints_enabled w = false) \/
  (fTestNet w = false /\ checkpoints_enabled w = true /\
   exists hash, StdMap.rbegin (mapCheckpoints w) = Some (n, hash)).
Proof.
  destruct w as [test args now index genesis main_table test_table].
  unfold GetTotalBlocksEstimate, Checkpoints, checkpoints_enabled. run.
  destruct test; simpl; [auto|].
  destruct (args "-checkpoints" true); simpl; [|auto].
  destruct (StdMap.rbegin main_table) as [[k v]|] eqn:Erb; simpl; [|discriminate].
  intros [= <- _]. right. eauto.
Qed.

(** No block above the height [GetTotalBlocksEstimate] returns is ever
    refused: [CheckBlock] accepts any hash at any greater height. *)
Theorem CheckBlock_above_estimate (w w' : World) (n nHeight : Z) (hash : uint256) :
  GetTotalBlocksEstimate (D:=D) w = Returns (n, w') ->
  n < nHeight ->
  CheckBlock (D:=D) nHeight hash w = Returns (true, w).
Proof.
  intros E Hlt. apply GetTotalBlocksEstimate_inv in E.
  destruct w as [test args now index genesis main_table test_table].
  unfold CheckBlock, Checkpoints, checkpoints_enabled, StdMap.find in *.
  simpl in E. run.
  destruct E as [[-> | E] | (-> & E & h & Erb)].
  - reflexivity.
  - destruct test; [reflexivity|]. simpl. rewrite E. reflexivity.
  - simpl. rewrite E. simpl.
    apply rbegin_Some in Erb as [_ Hmax].
    destruct (main_table !! nHeight) as [stored|] eqn:Es; [|reflexivity].
    specialize (Hmax nHeight (mk_is_Some _ _ Es)). lia.
Qed.

(** On a production node with checkpoints enabled, at the height
    [GetTotalBlocksEstimate] returns [CheckBlock] accepts the hash
    [GetLatestHardenedCheckpoint] returns and no other. *)
Theorem CheckBlock_at_estimate (w w1 w2 : World) (n : Z) (hardened hash : uint256) :
  fTestNet w = false -> checkpoints_enabled w = true ->
  GetTotalBlocksEstimate (D:=D) w = Returns (n, w1) ->
  GetLatestHardenedCheckpoint (D:=D) w = Returns (hardened, w2) ->
  CheckBlock (D:=D) n hash w = Returns (hash =? hardened, w).
Proof.
  intros Etest Eon En Eh. apply GetTotalBlocksEstimate_inv in En.
  destruct En as [[En | En] | (_ & _ & h & Erb)]; [congruence | congruence |].
  destruct w as [test args now index genesis main_table test_table].
  unfold CheckBlock, GetLatestHardenedCheckpoint, Checkpoints,
    checkpoints_enabled, StdMap.find in *.
  simpl in *. subst test. revert Eh. run. rewrite Eon, Erb. simpl.
  intros [= <- _]. apply rbegin_Some in Erb as [-> _]. reflexivity.
Qed.

(** With an empty active table the three lookups still return, accepting
    the block, finding no checkpoint and falling back to the genesis hash,
    whereas [GetTotalBlocksEstimate], when it gets as far as the table,
    dereferences [rbegin()] of the empty map. *)
Theorem empty_table (w : World) (nHeight : Z) (hash : uint256)
    (index : gmap Z (option CBlockIndex)) :
  active_table w = ∅ ->
  CheckBlock (D:=D) nHeight hash w = Returns (true, w) /\
  GetLastCheckpoint (D:=D) index w = Returns (NULL, w) /\
  GetLastAvailableCheckpoint w = Returns (hashGenesisBlock w, w) /\
  (fTestNet w = false -> checkpoints_enabled w = true ->
   GetTotalBlocksEstimate (D:=D) w = Undefined).
Proof.
  destruct w as [test args now idx genesis main_table test_table].
  unfold active_table, checkpoints_enabled. simpl. intros Hempty.
  unfold CheckBlock, GetLastCheckpoint, GetLastAvailableCheckpoint,
    GetTotalBlocksEstimate, Checkpoints, StdMap.find, StdMap.rbegin. run.
  destruct test; simpl; subst.
  - repeat split; discriminate.
  - destruct (args "-checkpoints" true); simpl.
    + repeat split; reflexivity.
    + repeat split; try reflexivity. discriminate.
Qed.

(** ** [GetLastAvailableCheckpoint] on any block index *)

Lemma GetLastAvailableCheckpoint_run w :
  GetLastAvailableCheckpoint w
  = GetLastAvailableCheckpoint_loop (StdMap.ritems (active_table w)) w.
Proof.
  unfold GetLastAvailableCheckpoint, active_table. run.
  destruct (fTestNet w); reflexivity.
Qed.

(** The loop passes over the entries whose hash is not in the index or is
    there off the main chain, and stops at the first other entry: with its
    hash when it is on the main chain, with a call through a null pointer
    when that is what the index stores. *)
Lemma GetLastAvailableCheckpoint_loop_cases w (entries : list (Z * Z)) :
  (exists l1 i l2,
     entries = l1 ++ i :: l2 /\
     Forall (fun j => ~ on_main_chain w j.2 /\
                      mapBlockIndex w !! j.2 <> Some NULL) l1 /\
     ((on_main_chain w i.2 /\
       GetLastAvailableCheckpoint_loop entries w = Returns (i.2, w)) \/
      (mapBlockIndex w !! i.2 = Some NULL /\
       GetLastAvailableCheckpoint_loop entries w = Undefined)))
  \/ (Forall (fun j => ~ on_main_chain w j.2 /\
                       mapBlockIndex w !! j.2 <> Some NULL) entries /\
      GetLastAvailableCheckpoint_loop entries w
      = Returns (hashGenesisBlock w, w)).
Proof.
  induction entries as [|i rest IH].
  - right. split; [constructor | reflexivity].
  - assert (Hskip :
        ~ on_main_chain w i.2 /\ mapBlockIndex w !! i.2 <> Some NULL ->
        GetLastAvailableCheckpoint_loop (i :: rest) w
        = GetLastAvailableCheckpoint_loop rest w ->
        (exists l1 j l2,
           i :: rest = l1 ++ j :: l2 /\
           Forall (fun j => ~ on_main_chain w j.2 /\
                            mapBlockIndex w !! j.2 <> Some NULL) l1 /\
           ((on_main_chain w j.2 /\
             GetLastAvailableCheckpoint_loop (i :: rest) w = Returns (j.2, w)) \/
            (mapBlockIndex w !! j.2 = Some NULL /\
             GetLastAvailableCheckpoint_loop (i :: rest) w = Undefined)))
        \/ (Forall (fun j => ~ on_main_chain w j.2 /\
                             mapBlockIndex w !! j.2 <> Some NULL) (i :: rest) /\
            GetLastAvailableCheckpoint_loop (i :: rest) w
            = Returns (hashGenesisBlock w, w))).
    { intros Hi ->.
      destruct IH as [(l1 & j & l2 & -> & Hl1 & Hj) | [Hall Eloop]].
      - left. exists (i :: l1), j, l2.
        split; [reflexivity|]. split; [constructor; assumption | exact Hj].
      - right. split; [constructor; assumption | exact Eloop]. }
    destruct (mapBlockIndex w !! i.2) as [[b|]|] eqn:Ei.
    + destruct (IsInMainChain b) eqn:Eb.
      * left. exists [], i, rest. split; [reflexivity|]. split; [constructor|].
        left. split; [exists b; split; assumption|].
        rewrite (GetLastAvailableCheckpoint_loop_present w i rest b Ei), Eb.
        reflexivity.
      * apply Hskip.
        -- split; [intros (b' & Eb' & Hmain); congruence | discriminate].
        -- rewrite (GetLastAvailableCheckpoint_loop_present w i rest b Ei), Eb.
           reflexivity.
    + left. exists [], i, rest. split; [reflexivity|]. split; [constructor|].
      right. split; [exact Ei|].
      apply GetLastAvailableCheckpoint_loop_null, Ei.
    + apply Hskip.
      * split; [intros (b' & Eb' & _); congruence | discriminate].
      * apply GetLastAvailableCheckpoint_loop_absent, Ei.
Qed.

(** Entries above the one the reverse iteration has reached were visited
    before it. *)
Lemma ritems_above (m : gmap Z Z) l1 l2 k v k' v' :
  StdMap.ritems m = l1 ++ (k, v) :: l2 ->
  m !! k' = Some v' -> k < k' -> (k', v') ∈ l1.
Proof.
  intros E Hk' Hlt. destruct (decide ((k', v') ∈ l1)) as [Hin | Hout]; [exact Hin|].
  pose proof (ritems_split_le m l1 l2 k v k' v' E Hk' Hout). lia.
Qed.

(** [GetLastAvailableCheckpoint] has undefined behaviour exactly when some
    entry of the active table is in the index with a null pointer and no
    entry of greater height is on the main chain. *)
Theorem GetLastAvailableCheckpoint_undefined_iff (w : World) :
  GetLastAvailableCheckpoint w = Undefined <->
  exists height hash,
    active_table w !! height = Some hash /\
    mapBlockIndex w !! hash = Some NULL /\
    forall height' hash',
      active_table w !! height' = Some hash' -> height < height' ->
      ~ on_main_chain w hash'.
Proof.
  rewrite GetLastAvailableCheckpoint_run.
  destruct (GetLastAvailableCheckpoint_loop_cases w
              (StdMap.ritems (active_table w)))
    as [(l1 & [k v] & l2 & E & Hl1 & [[Hmain Eloop] | [Enull Eloop]])
       | [Hall Eloop]];
    rewrite Eloop; rewrite Forall_forall in *; simpl in *.
  - split; [discriminate|].
    intros (height & hash & Hentry & Hnull & Habove). exfalso.
    pose proof Hentry as Hin. apply elem_of_ritems in Hin. rewrite E in Hin.
    apply elem_of_app in Hin as [Hin | Hin].
    { apply (Hl1 _ Hin). exact Hnull. }
    assert (Hkv : active_table w !! k = Some v).
    { apply elem_of_ritems. rewrite E. apply elem_of_app. right. left. }
    destruct (Z.lt_trichotomy height k) as [Hlt | [Heq | Hgt]].
    + apply (Habove k v Hkv Hlt Hmain).
    + subst k. assert (v = hash) by congruence. subst v.
      destruct Hmain as (b & Eb & _). congruence.
    + pose proof (ritems_above _ _ _ _ _ _ _ E Hentry Hgt) as Hin'.
      apply (Hl1 _ Hin'). exact Hnull.
  - split; [intros _|reflexivity].
    exists k, v. split; [|split; [exact Enull|]].
    + apply elem_of_ritems. rewrite E. apply elem_of_app. right. left.
    + intros height' hash' Hentry Hlt.
      apply (Hl1 _ (ritems_above _ _ _ _ _ _ _ E Hentry Hlt)).
  - split; [discriminate|].
    intros (height & hash & Hentry & Hnull & _). exfalso.
    apply elem_of_ritems in Hentry. apply (Hall _ Hentry). exact Hnull.
Qed.

(** Whenever [GetLastAvailableCheckpoint] returns, on whatever block index,
    it returns the hash of a table entry that is on the main chain, every
    entry above it being off the main chain with no null pointer stored for
    it; or it returns the genesis hash, and this holds of every entry. *)
Theorem GetLastAvailableCheckpoint_returned (w w' : World) (hash : uint256) :
  GetLastAvailableCheckpoint w = Returns (hash, w') ->
  (exists height,
     active_table w !! height = Some hash /\ on_main_chain w hash /\
     forall height' hash',
       active_table w !! height' = Some hash' -> height < height' ->
       ~ on_main_chain w hash' /\ mapBlockIndex w !! hash' <> Some NULL)
  \/ (hash = hashGenesisBlock w /\
      forall height' hash',
        active_table w !! height' = Some hash' ->
        ~ on_main_chain w hash' /\ mapBlockIndex w !! hash' <> Some NULL).
Proof.
  rewrite GetLastAvailableCheckpoint_run.
  destruct (GetLastAvailableCheckpoint_loop_cases w
              (StdMap.ritems (active_table w)))
    as [(l1 & [k v] & l2 & E & Hl1 & [[Hmain Eloop] | [Enull Eloop]])
       | [Hall Eloop]];
    rewrite Eloop; rewrite Forall_forall in *; simpl in *;
    [intros [= <- _] | discriminate | intros [= <- _]].
  - left. exists k. split; [|split; [exact Hmain|]].
    + apply elem_of_ritems. rewrite E. apply elem_of_app. right. left.
    + intros height' hash' Hentry Hlt.
      apply (Hl1 _ (ritems_above _ _ _ _ _ _ _ E Hentry Hlt)).
  - right. split; [reflexivity|].
    intros height' hash' Hentry. apply elem_of_ritems in Hentry.
    apply (Hall _ Hentry).
Qed.

(** ** The two lookups against each other *)

(** Entries whose hash is not in the index are passed over. *)
Lemma GetLastAvailableCheckpoint_loop_skip w (l1 rest : list (Z * Z)) :
  Forall (fun j => mapBlockIndex w !! j.2 = None) l1 ->
  GetLastAvailableCheckpoint_loop (l1 ++ rest) w
  = GetLastAvailableCheckpoint_loop rest w.
Proof.
  induction 1 as [|j l1 Hj _ IH]; [reflexivity|].
  rewrite <- app_comm_cons.
  rewrite (GetLastAvailableCheckpoint_loop_absent w j (l1 ++ rest) Hj).
  exact IH.
Qed.

(** When [GetLastCheckpoint], given the node's own block index, returns a
    block that is on the main chain, [GetLastAvailableCheckpoint] returns
    the hash of the table under which the index stores that block. *)
Theorem lookups_agree (w w' : World) (b : CBlockIndex) :
  GetLastCheckpoint (D:=D) (mapBlockIndex w) w = Returns (Some b, w') ->
  IsInMainChain b = true ->
  exists height hash,
    GetLastAvailableCheckpoint w = Returns (hash, w) /\
    active_table w !! height = Some hash /\
    mapBlockIndex w !! hash = Some (Some b).
Proof.
  intros E Hmain.
  assert (Eloop : GetLastCheckpoint_loop (mapBlockIndex w)
                    (StdMap.ritems (active_table w)) = Some b).
  { destruct w as [test args now index genesis main_table test_table].
    revert E. unfold GetLastCheckpoint, Checkpoints, active_table. run.
    destruct test; simpl; [discriminate|].
    destruct (args "-checkpoints" true); simpl; [|discriminate].
    intros [= E _]. exact E. }
  rewrite GetLastAvailableCheckpoint_run.
  destruct (GetLastCheckpoint_loop_spec (mapBlockIndex w)
              (StdMap.ritems (active_table w)))
    as [(l1 & [k v] & l2 & p & Eitems & Ep & Hl1 & Eloop') | [_ Eloop']];
    [|congruence].
  simpl in Ep. rewrite Eloop in Eloop'. subst p.
  exists k, v. split; [|split; [|exact Ep]].
  - rewrite Eitems, (GetLastAvailableCheckpoint_loop_skip w l1 _ Hl1).
    rewrite (GetLastAvailableCheckpoint_loop_present w (k, v) l2 b Ep), Hmain.
    reflexivity.
  - apply elem_of_ritems. rewrite Eitems. apply elem_of_app. right. left.
Qed.

End Oracle_facts.

(** ** The progress estimate *)

Lemma wrap64_in_range z : in_int64 z -> wrap64 z = z.
Proof.
  unfold in_int64, int64_min, int64_max, wrap64. intros Hz.
  rewrite Z.mod_small; lia.
Qed.

Lemma int64_sub_nonneg a b :
  nonneg_int64 a -> nonneg_int64 b -> int64_sub a b = a - b.
Proof.
  unfold nonneg_int64, int64_max, int64_sub. intros Ha Hb.
  apply wrap64_in_range. unfold in_int64, int64_min, int64_max. lia.
Qed.

Section Estimate_facts.

Context {D : Type} `{DoubleOps D}.

(** On values that are not negative the 64-bit differences of [work] are
    the mathematical ones, and [work] computes the two amounts of the
    specification. *)
Lemma work_spec (d : CCheckpointData.t D) (nNow : Z) (b : CBlockIndex) :
  nonneg_int64 nNow -> nonneg_int64 (nChainTx b) -> nonneg_int64 (nTime b) ->
  nonneg_int64 (CCheckpointData.nTimeLastCheckpoint d) ->
  nonneg_int64 (CCheckpointData.nTransactionsLastCheckpoint d) ->
  work nNow d b = (spec_work_before d b, spec_work_after d nNow b).
Proof.
  intros Hnow Htx Htime HT HC.
  unfold work, spec_work_before, spec_work_after, days_elapsed,
    fSigcheckVerificationFactor.
  rewrite !int64_sub_nonneg by assumption.
  destruct (nChainTx b <=? CCheckpointData.nTransactionsLastCheckpoint d);
    reflexivity.
Qed.

Lemma active_data_nonneg (w : World) :
  nonneg_int64 (CCheckpointData.nTimeLastCheckpoint (active_data (D:=D) w)) /\
  nonneg_int64 (CCheckpointData.nTransactionsLastCheckpoint (active_data (D:=D) w)).
Proof.
  unfold active_data, nonneg_int64, int64_max.
  destruct (fTestNet w); simpl; lia.
Qed.

(** C5. [GuessVerificationProgress] returns 0.0 for a null block and
    otherwise work-before / (work-before + work-after), the two amounts
    being those the specification gives for a block at or below the last
    checkpoint's transaction count and for a block past it. *)
Theorem GuessVerificationProgress_spec (w : World) (pindex : option CBlockIndex) :
  nonneg_int64 (clock w) ->
  (forall b, pindex = Some b ->
     nonneg_int64 (nChainTx b) /\ nonneg_int64 (nTime b)) ->
  GuessVerificationProgress (D:=D) pindex w
  = Returns (spec_progress (active_data w) (clock w) pindex, w).
Proof.
  intros Hnow Hb. destruct pindex as [b|]; [|reflexivity].
  destruct (Hb b eq_refl) as [Htx Htime].
  destruct (active_data_nonneg w) as [HT HC].
  unfold GuessVerificationProgress. run.
  rewrite Checkpoints_run.
  rewrite (work_spec _ _ _ Hnow Htx Htime HT HC). reflexivity.
Qed.

End Estimate_facts.

(** ** The estimate in exact arithmetic *)

Section Exact_facts.

Local Open Scope Q_scope.

Lemma Qratio_bounds (before after : Q) :
  0 <= before -> 0 <= after -> 0 < before + after ->
  0 <= before / (before + after) <= 1.
Proof.
  intros Hb Ha Hpos. split.
  - apply Qle_shift_div_l; [exact Hpos | lra].
  - apply Qle_shift_div_r; [exact Hpos | lra].
Qed.

Lemma Qratio_antitone (before after after' : Q) :
  0 <= before -> 0 <= after -> after <= after' -> 0 < before + after ->
  before / (before + after') <= before / (before + after).
Proof.
  intros Hb Ha Hle Hpos.
  apply Qle_shift_div_r; [lra|].
  set (x := before / (before + after)).
  assert (Hx : 0 <= x).
  { apply Qle_shift_div_l; [exact Hpos | lra]. }
  assert (Ex : x * (before + after) == before).
  { unfold x. rewrite Qmult_comm. apply Qmult_div_r. lra. }
  assert (Hextra : 0 <= x * (after' - after)).
  { apply Qmult_le_0_compat; lra. }
  assert (Esplit : x * (before + after')
                   == x * (before + after) + x * (after' - after)) by ring.
  rewrite Esplit, Ex. lra.
Qed.

(** The expensive work still to come grows with the seconds elapsed. *)
Lemma expensive_after_mono (seconds seconds' : Z) (per_day : Q) :
  0 <= per_day -> (seconds <= seconds')%Z ->
  inject_Z seconds / inject_Z 86400 * per_day * inject_Z 5
  <= inject_Z seconds' / inject_Z 86400 * per_day * inject_Z 5.
Proof.
  intros Hrate Hle. rewrite Zle_Qle in Hle.
  apply Qmult_le_compat_r; [|discriminate].
  apply Qmult_le_compat_r; [|exact Hrate].
  apply Qmult_le_compat_r; [exact Hle | discriminate].
Qed.

Lemma expensive_after_nonneg (seconds : Z) (per_day : Q) :
  0 <= per_day -> (0 <= seconds)%Z ->
  0 <= inject_Z seconds / inject_Z 86400 * per_day * inject_Z 5.
Proof.
  intros Hrate Hle.
  pose proof (expensive_after_mono 0 seconds per_day Hrate Hle) as Hm.
  assert (E0 : inject_Z 0 / inject_Z 86400 * per_day * inject_Z 5 == 0)
    by (unfold Qdiv; change (inject_Z 0) with 0; ring).
  rewrite E0 in Hm. exact Hm.
Qed.

(** The two amounts of work for a calibration with a positive transaction
    count and a rate that is not negative. *)
Section calibration.

Variable d : CCheckpointData.t Q.
Hypothesis count_positive : (0 < CCheckpointData.nTransactionsLastCheckpoint d)%Z.
Hypothesis rate_nonneg : 0 <= CCheckpointData.fTransactionsPerDay d.

Variable b : CBlockIndex.
Hypothesis tx_nonneg : (0 <= nChainTx b)%Z.

Lemma spec_work_before_nonneg : 0 <= spec_work_before d b.
Proof.
  unfold spec_work_before. simpl.
  destruct (Z.leb_spec (nChainTx b) (CCheckpointData.nTransactionsLastCheckpoint d))
    as [Hle | Hlt].
  - rewrite Zle_Qle in tx_nonneg. exact tx_nonneg.
  - assert (H1 : (0 <= CCheckpointData.nTransactionsLastCheckpoint d)%Z) by lia.
    assert (H2 : (0 <= nChainTx b - CCheckpointData.nTransactionsLastCheckpoint d)%Z)
      by lia.
    rewrite Zle_Qle in H1, H2. change (inject_Z 0) with 0 in *.
    change (inject_Z 5) with 5. nra.
Qed.

Lemma spec_work_after_nonneg (now : Z) :
  (CCheckpointData.nTimeLastCheckpoint d <= now)%Z ->
  ((CCheckpointData.nTransactionsLastCheckpoint d < nChainTx b)%Z ->
   (nTime b <= now)%Z) ->
  0 <= spec_work_after d now b.
Proof.
  intros HT Hb. unfold spec_work_after, days_elapsed. simpl.
  destruct (Z.leb_spec (nChainTx b) (CCheckpointData.nTransactionsLastCheckpoint d))
    as [Hle | Hlt].
  - assert (H1 : (0 <= CCheckpointData.nTransactionsLastCheckpoint d - nChainTx b)%Z)
      by lia.
    rewrite Zle_Qle in H1. change (inject_Z 0) with 0 in H1.
    pose proof (expensive_after_nonneg
                  (now - CCheckpointData.nTimeLastCheckpoint d) _ rate_nonneg
                  ltac:(lia)).
    lra.
  - apply expensive_after_nonneg; [exact rate_nonneg|].
    specialize (Hb Hlt). lia.
Qed.

Lemma spec_work_after_mono (now now' : Z) :
  (now <= now')%Z -> spec_work_after d now b <= spec_work_after d now' b.
Proof.
  intros Hle. unfold spec_work_after, days_elapsed. simpl.
  destruct (nChainTx b <=? CCheckpointData.nTransactionsLastCheckpoint d)%Z.
  - apply Qplus_le_r.
    apply expensive_after_mono; [exact rate_nonneg | lia].
  - apply expensive_after_mono; [exact rate_nonneg | lia].
Qed.

Lemma spec_work_positive (now : Z) :
  (CCheckpointData.nTimeLastCheckpoint d <= now)%Z ->
  ((CCheckpointData.nTransactionsLastCheckpoint d < nChainTx b)%Z ->
   (nTime b <= now)%Z) ->
  0 < spec_work_before d b + spec_work_after d now b.
Proof.
  intros HT Hb.
  pose proof (spec_work_after_nonneg now HT Hb) as Hafter. revert Hafter.
  unfold spec_work_before, spec_work_after, days_elapsed. simpl.
  assert (HC : 0 < inject_Z (CCheckpointData.nTransactionsLastCheckpoint d)).
  { rewrite Zlt_Qlt in count_positive. exact count_positive. }
  destruct (Z.leb_spec (nChainTx b) (CCheckpointData.nTransactionsLastCheckpoint d))
    as [Hle | Hlt].
  - intros _.
    pose proof (expensive_after_nonneg
                  (now - CCheckpointData.nTimeLastCheckpoint d) _ rate_nonneg
                  ltac:(lia)) as He.
    unfold Z.sub at 1. rewrite inject_Z_plus, inject_Z_opp. lra.
  - intros Hafter.
    assert (H2 : (0 <= nChainTx b - CCheckpointData.nTransactionsLastCheckpoint d)%Z)
      by lia.
    rewrite Zle_Qle in H2. change (inject_Z 0) with 0 in H2.
    change (inject_Z 5) with 5 in *. nra.
Qed.

End calibration.

Lemma active_data_calibrated (w : World) :
  (0 < CCheckpointData.nTransactionsLastCheckpoint (active_data (D:=Q) w))%Z /\
  0 <= CCheckpointData.fTransactionsPerDay (active_data (D:=Q) w).
Proof.
  unfold active_data. destruct (fTestNet w); simpl; split;
    solve [lia | discriminate].
Qed.

Lemma GuessVerificationProgress_exact (w : World) (b : CBlockIndex) :
  nonneg_int64 (clock w) -> nonneg_int64 (nChainTx b) -> nonneg_int64 (nTime b) ->
  work (D:=Q) (clock w) (active_data w) b
  = (spec_work_before (active_data w) b,
     spec_work_after (active_data w) (clock w) b) /\
  GuessVerificationProgress (D:=Q) (Some b) w
  = Returns (spec_work_before (active_data w) b
             / (spec_work_before (active_data w) b
                + spec_work_after (active_data w) (clock w) b), w).
Proof.
  intros Hnow Htx Htime.
  destruct (active_data_nonneg (D:=Q) w) as [HT HC].
  pose proof (work_spec (active_data (D:=Q) w) _ _ Hnow Htx Htime HT HC) as Ew.
  split; [exact Ew|].
  unfold GuessVerificationProgress. run.
  rewrite Checkpoints_run, Ew. reflexivity.
Qed.

(** Without rounding: for a block whose transaction count and timestamp are
    not negative, with the clock at or after the last checkpoint's timestamp
    and, when the block is past the checkpoint, at or after the block's own
    timestamp, [fWorkBefore + fWorkAfter] is positive. *)
Theorem denominator_positive_exact (w : World) (b : CBlockIndex) :
  nonneg_int64 (clock w) -> nonneg_int64 (nChainTx b) -> nonneg_int64 (nTime b) ->
  (CCheckpointData.nTimeLastCheckpoint (active_data (D:=Q) w) <= clock w)%Z ->
  ((CCheckpointData.nTransactionsLastCheckpoint (active_data (D:=Q) w)
    < nChainTx b)%Z -> (nTime b <= clock w)%Z) ->
  exists fWorkBefore fWorkAfter : Q,
    work (clock w) (active_data w) b = (fWorkBefore, fWorkAfter) /\
    (0 < CCheckpointData.nTransactionsLastCheckpoint (active_data (D:=Q) w))%Z /\
    0 < fWorkBefore + fWorkAfter /\
    GuessVerificationProgress (Some b) w
    = Returns (fWorkBefore / (fWorkBefore + fWorkAfter), w).
Proof.
  intros Hnow Htx Htime HT Hb.
  destruct (GuessVerificationProgress_exact w b Hnow Htx Htime) as [Ew Ep].
  destruct (active_data_calibrated w) as [HC Hrate].
  eexists _, _. split; [exact Ew|]. split; [exact HC|]. split; [|exact Ep].
  apply spec_work_positive; assumption.
Qed.

(** Without rounding: for a block whose transaction count and timestamp are
    not negative and a clock at or after the last checkpoint's timestamp and
    the block's, the estimate lies in [0,1], and it does not grow when the
    clock moves on. *)
Theorem progress_bounded_and_antitone_exact (w : World) (b : CBlockIndex)
    (now now' : Z) :
  nonneg_int64 (nChainTx b) -> nonneg_int64 (nTime b) ->
  (CCheckpointData.nTimeLastCheckpoint (active_data (D:=Q) w) <= now)%Z ->
  (nTime b <= now)%Z -> (now <= now')%Z -> (now' <= int64_max)%Z ->
  exists r r' : Q,
    GuessVerificationProgress (Some b) (set_clock now w)
    = Returns (r, set_clock now w) /\
    GuessVerificationProgress (Some b) (set_clock now' w)
    = Returns (r', set_clock now' w) /\
    0 <= r <= 1 /\ 0 <= r' <= 1 /\ r' <= r.
Proof.
  intros Htx Htime HT Hb Hle Hmax.
  assert (Hnow : nonneg_int64 now) by (unfold nonneg_int64 in *; lia).
  assert (Hnow' : nonneg_int64 now') by (unfold nonneg_int64 in *; lia).
  destruct (GuessVerificationProgress_exact (set_clock now w) b Hnow Htx Htime)
    as [_ Ep].
  destruct (GuessVerificationProgress_exact (set_clock now' w) b Hnow' Htx Htime)
    as [_ Ep'].
  destruct (active_data_calibrated w) as [HC Hrate].
  change (active_data (set_clock now w)) with (active_data (D:=Q) w) in Ep.
  change (active_data (set_clock now' w)) with (active_data (D:=Q) w) in Ep'.
  change (clock (set_clock now w)) with now in Ep.
  change (clock (set_clock now' w)) with now' in Ep'.
  set (d := active_data (D:=Q) w) in *.
  assert (Hbefore : 0 <= spec_work_before d b)
    by (apply spec_work_before_nonneg; [exact HC | apply Htx]).
  assert (Hafter : 0 <= spec_work_after d now b)
    by (apply spec_work_after_nonneg; auto).
  assert (Hmono : spec_work_after d now b <= spec_work_after d now' b)
    by (apply spec_work_after_mono; assumption).
  assert (Hpos : 0 < spec_work_before d b + spec_work_after d now b)
    by (apply spec_work_positive; auto).
  eexists _, _. split; [exact Ep|]. split; [exact Ep'|].
  split; [apply Qratio_bounds; assumption|].
  split; [apply Qratio_bounds; lra|].
  apply Qratio_antitone; assumption.
Qed.

End Exact_facts.

(** ** binary64: what the operations compute *)

Lemma bpow_pos e : (0 < bpow e)%Q.
Proof. apply Qpower_0_lt. reflexivity. Qed.

Lemma bpow_add a b : (bpow (a + b) == bpow a * bpow b)%Q.
Proof. apply Qpower_plus. discriminate. Qed.

Lemma bpow_0 : (bpow 0 == 1)%Q.
Proof. reflexivity. Qed.

Lemma bpow_1 : (bpow 1 == 2)%Q.
Proof. reflexivity. Qed.

Lemma bpow_succ a : (bpow (a + 1) == 2 * bpow a)%Q.
Proof. rewrite bpow_add, bpow_1. ring. Qed.

Lemma bpow_le a b : a <= b -> (bpow a <= bpow b)%Q.
Proof.
  intros Hab. replace b with (a + (b - a)) by lia. rewrite bpow_add.
  assert (G1 : (1 <= bpow (b - a))%Q).
  { apply Qpower_1_le; [discriminate | lia]. }
  pose proof (bpow_pos a). nra.
Qed.

Lemma bpow_lt a b : a < b -> (bpow a < bpow b)%Q.
Proof.
  intros Hab. apply Qlt_le_trans with (bpow (a + 1)); [|apply bpow_le; lia].
  rewrite bpow_succ. pose proof (bpow_pos a). lra.
Qed.

Lemma bpow_lt_inv a b : (bpow a < bpow b)%Q -> a < b.
Proof.
  intros Hlt. destruct (Z_lt_le_dec a b) as [?|Hle]; [assumption|].
  apply bpow_le in Hle. lra.
Qed.

Lemma bpow_inject n : 0 <= n -> (inject_Z (2 ^ n) == bpow n)%Q.
Proof. intros Hn. unfold bpow. rewrite Zpower_Qpower by assumption. reflexivity. Qed.

Lemma bpow_opp a : (bpow (- a) == / bpow a)%Q.
Proof. apply Qpower_opp. Qed.

Lemma bpow_sub a b : (bpow (a - b) == bpow a / bpow b)%Q.
Proof. unfold Z.sub. rewrite bpow_add, bpow_opp. reflexivity. Qed.

(** The number of binary digits of a positive number. *)
Lemma digits2_pos_bounds (p : positive) :
  2 ^ (Zpos (digits2_pos p) - 1) <= Zpos p < 2 ^ Zpos (digits2_pos p).
Proof.
  induction p as [p IH | p IH |]; simpl digits2_pos.
  - rewrite Pos2Z.inj_succ.
    replace (Z.succ (Zpos (digits2_pos p)) - 1) with ((Zpos (digits2_pos p) - 1) + 1) by lia.
    rewrite Z.pow_add_r by lia. rewrite Z.pow_succ_r by lia. lia.
  - rewrite Pos2Z.inj_succ.
    replace (Z.succ (Zpos (digits2_pos p)) - 1) with ((Zpos (digits2_pos p) - 1) + 1) by lia.
    rewrite Z.pow_add_r by lia. rewrite Z.pow_succ_r by lia. lia.
  - simpl. lia.
Qed.

Lemma digits2_pos_unique (p : positive) (d : Z) :
  2 ^ (d - 1) <= Zpos p < 2 ^ d -> Zpos (digits2_pos p) = d.
Proof.
  intros [Hlo Hhi]. pose proof (digits2_pos_bounds p) as [Hlo' Hhi'].
  assert (Hd : 0 < d).
  { destruct d as [|d|d];
      [simpl in Hhi; lia | lia | rewrite Z.pow_neg_r in Hhi by lia; lia]. }
  destruct (Z.lt_trichotomy (Zpos (digits2_pos p)) d) as [Hlt | [Heq | Hgt]];
    [|assumption|].
  - assert (2 ^ Zpos (digits2_pos p) <= 2 ^ (d - 1))
      by (apply Z.pow_le_mono_r; lia). lia.
  - assert (2 ^ d <= 2 ^ (Zpos (digits2_pos p) - 1))
      by (apply Z.pow_le_mono_r; lia). lia.
Qed.

(** *** Shifting with round and sticky bits *)

Lemma describes_ext mrs y y' : (y == y')%Q -> describes mrs y -> describes mrs y'.
Proof.
  intros E [Hm Hy]. split; [assumption|].
  destruct (shr_r mrs), (shr_s mrs); rewrite <- E; assumption.
Qed.

Lemma inject_Z_xO p : (inject_Z (Zpos p~0) == 2 * inject_Z (Zpos p))%Q.
Proof. rewrite Pos2Z.inj_xO, inject_Z_mult. reflexivity. Qed.

Lemma inject_Z_xI p : (inject_Z (Zpos p~1) == 2 * inject_Z (Zpos p) + 1)%Q.
Proof. rewrite Pos2Z.inj_xI, inject_Z_plus, inject_Z_mult. reflexivity. Qed.

Lemma shr_1_describes mrs y :
  describes mrs y ->
  describes (shr_1 mrs) (y * (1 # 2)) /\ shr_m (shr_1 mrs) = shr_m mrs / 2.
Proof.
  destruct mrs as [m r s]. unfold describes. simpl. intros [Hm Hy].
  destruct m as [|[p|p|]|p]; [| | | |lia].
  - split; [|destruct r, s; reflexivity].
    destruct r, s; simpl in *; (split; [lia|]);
      change (inject_Z 0) with 0%Q in *; lra.
  - split.
    + destruct r, s; simpl in *; (split; [lia|]);
        rewrite inject_Z_xI in Hy; lra.
    + simpl. rewrite Pos2Z.inj_xI. apply Z.div_unique with 1; lia.
  - split.
    + destruct r, s; simpl in *; (split; [lia|]);
        rewrite inject_Z_xO in Hy; lra.
    + simpl. rewrite Pos2Z.inj_xO. apply Z.div_unique with 0; lia.
  - split; [|destruct r, s; reflexivity].
    destruct r, s; simpl in *; (split; [lia|]);
      change (inject_Z 1) with 1%Q in *;
      change (inject_Z 0) with 0%Q; lra.
Qed.

Lemma pow2_xO p : 2 ^ Zpos p~0 = 2 ^ Zpos p * 2 ^ Zpos p.
Proof. rewrite Pos2Z.inj_xO, <- Z.pow_add_r by lia. f_equal. lia. Qed.

Lemma pow2_xI p : 2 ^ Zpos p~1 = 2 * (2 ^ Zpos p * 2 ^ Zpos p).
Proof.
  rewrite Pos2Z.inj_xI, <- Z.pow_add_r, <- Z.pow_succ_r by lia. f_equal. lia.
Qed.

Lemma bpow_xO p : (bpow (Zpos p~0) == bpow (Zpos p) * bpow (Zpos p))%Q.
Proof. rewrite <- bpow_add. rewrite Pos2Z.inj_xO. replace (2 * Zpos p) with (Zpos p + Zpos p) by lia. reflexivity. Qed.

Lemma bpow_xI p : (bpow (Zpos p~1) == 2 * (bpow (Zpos p) * bpow (Zpos p)))%Q.
Proof.
  rewrite <- bpow_add, <- bpow_succ. rewrite Pos2Z.inj_xI.
  replace (2 * Zpos p + 1) with (Zpos p + Zpos p + 1) by lia. reflexivity.
Qed.

Lemma shr_iter_describes (p : positive) :
  forall mrs y,
    describes mrs y ->
    describes (SpecFloat.iter_pos shr_1 p mrs) (y / bpow (Zpos p)) /\
    shr_m (SpecFloat.iter_pos shr_1 p mrs) = shr_m mrs / 2 ^ Zpos p.
Proof.
  induction p as [p IH | p IH |]; intros mrs y Hd; simpl SpecFloat.iter_pos.
  - destruct (shr_1_describes mrs y Hd) as [G1 E1].
    destruct (IH _ _ G1) as [G2 E2]. destruct (IH _ _ G2) as [G3 E3].
    split.
    + eapply describes_ext; [|exact G3].
      rewrite bpow_xI. pose proof (bpow_pos (Zpos p)). field. lra.
    + rewrite E3, E2, E1. rewrite !Z.div_div by lia.
      rewrite pow2_xI. reflexivity.
  - destruct (IH _ _ Hd) as [G2 E2]. destruct (IH _ _ G2) as [G3 E3].
    split.
    + eapply describes_ext; [|exact G3].
      rewrite bpow_xO. pose proof (bpow_pos (Zpos p)). field. lra.
    + rewrite E3, E2. rewrite !Z.div_div by lia.
      rewrite pow2_xO. reflexivity.
  - destruct (shr_1_describes mrs y Hd) as [G1 E1]. split.
    + eapply describes_ext; [|exact G1]. rewrite bpow_1. field.
    + rewrite E1. reflexivity.
Qed.

Lemma shr_describes mrs e n y :
  0 <= n -> describes mrs y ->
  describes (fst (shr mrs e n)) (y / bpow n) /\
  shr_m (fst (shr mrs e n)) = shr_m mrs / 2 ^ n /\
  snd (shr mrs e n) = e + n.
Proof.
  intros Hn Hd. destruct n as [|p|p]; [| |lia]; simpl.
  - split; [|split; [rewrite Z.div_1_r; reflexivity | lia]].
    eapply describes_ext; [|exact Hd]. change (bpow 0) with 1%Q. field.
  - destruct (shr_iter_describes p mrs y Hd) as [G1 E1].
    split; [exact G1|]. split; [exact E1 | reflexivity].
Qed.

(** *** Rounding to the nearest integer, ties to even *)

Lemma round_nearest_even_describes mrs y :
  describes mrs y ->
  is_rne y (round_nearest_even (shr_m mrs) (loc_of_shr_record mrs)).
Proof.
  destruct mrs as [m r s]. unfold describes, is_rne. simpl. intros [Hm Hy].
  destruct r, s; simpl.
  - left. rewrite inject_Z_plus. change (inject_Z 1) with 1%Q. lra.
  - destruct (Z.even m) eqn:Ev.
    + right. split; [right; exact Hy | exact Ev].
    + right. split.
      * left. rewrite inject_Z_plus. change (inject_Z 1) with 1%Q. lra.
      * rewrite Z.even_add, Ev. reflexivity.
  - left. lra.
  - left. lra.
Qed.

Lemma is_rne_mono y1 y2 m1 m2 :
  is_rne y1 m1 -> is_rne y2 m2 -> (y1 <= y2)%Q -> m1 <= m2.
Proof.
  intros G1 G2 Hle. destruct (Z_lt_le_dec m2 m1) as [Hlt|]; [|assumption].
  exfalso. assert (Hs : m2 + 1 <= m1) by lia.
  rewrite Zle_Qle, inject_Z_plus in Hs. change (inject_Z 1) with 1%Q in Hs.
  destruct G1 as [G1 | [G1 Ev1]], G2 as [G2 | [G2 Ev2]];
    try solve [lra | destruct G1; lra | destruct G2; lra].
  assert (E : m1 = m2 + 1).
  { apply Z.le_antisymm; [|lia].
    rewrite Zle_Qle, inject_Z_plus. change (inject_Z 1) with 1%Q.
    destruct G1, G2; lra. }
  subst m1. rewrite Z.even_add, Ev2 in Ev1. discriminate.
Qed.

Lemma is_rne_bounds y mz a b :
  is_rne y mz -> (inject_Z a <= y <= inject_Z b)%Q -> a <= mz <= b.
Proof.
  intros Hr [Ha Hb]. split.
  - destruct (Z_lt_le_dec mz a) as [Hlt|]; [|assumption].
    exfalso. assert (Hs : mz + 1 <= a) by lia.
    rewrite Zle_Qle, inject_Z_plus in Hs. change (inject_Z 1) with 1%Q in Hs.
    destruct Hr as [Hr | [[Hr | Hr] _]]; lra.
  - destruct (Z_lt_le_dec b mz) as [Hlt|]; [|assumption].
    exfalso. assert (Hs : b + 1 <= mz) by lia.
    rewrite Zle_Qle, inject_Z_plus in Hs. change (inject_Z 1) with 1%Q in Hs.
    destruct Hr as [Hr | [[Hr | Hr] _]]; lra.
Qed.

Lemma is_rne_exact m : is_rne (inject_Z m) m.
Proof. left. lra. Qed.

(** *** What [binary_round_aux] returns *)

Lemma Qdiv_lower (a b c : Q) : (0 < c -> a <= b / c -> a * c <= b)%Q.
Proof.
  intros Hc H. apply (Qmult_le_compat_r _ _ c) in H; [|lra].
  assert (E : (b / c * c == b)%Q) by (field; lra).
  rewrite E in H. exact H.
Qed.

Lemma Qdiv_upper (a b c : Q) : (0 < c -> b / c < a -> b < a * c)%Q.
Proof.
  intros Hc H. apply (Qmult_lt_compat_r _ _ c) in H; [|exact Hc].
  assert (E : (b / c * c == b)%Q) by (field; lra).
  rewrite E in H. exact H.
Qed.

Lemma describes_bounds mrs y :
  describes mrs y ->
  (inject_Z (shr_m mrs) <= y < inject_Z (shr_m mrs) + 1)%Q.
Proof.
  intros [_ Hy]. destruct (shr_r mrs), (shr_s mrs); lra.
Qed.

Lemma shr_m_of_loc m l : shr_m (shr_record_of_loc m l) = m.
Proof. destruct l as [|[| |]]; reflexivity. Qed.

Lemma fexp_normal e : -1021 <= e -> fexp 53 1024 e = e - 53.
Proof. intros He. unfold fexp, emin. lia. Qed.

Lemma Zdigits2_bounds m :
  0 < m -> 2 ^ (Zdigits2 m - 1) <= m < 2 ^ Zdigits2 m.
Proof.
  intros Hm. destruct m as [|p|p]; [lia | | lia]. apply digits2_pos_bounds.
Qed.

Lemma Zdigits2_unique m d :
  2 ^ (d - 1) <= m < 2 ^ d -> 0 < m -> Zdigits2 m = d.
Proof.
  intros Hb Hm. destruct m as [|p|p]; [lia | | lia].
  apply digits2_pos_unique, Hb.
Qed.

(** The first shift of [binary_round_aux] brings a mantissa of at least 53
    digits down to 53 digits. *)
Lemma shr_fexp_spec (mx ex : Z) (lx : location) (y : Q) :
  0 < mx -> 53 <= Zdigits2 mx -> -1021 <= Zdigits2 mx + ex ->
  describes (shr_record_of_loc mx lx) y ->
  describes (fst (shr_fexp 53 1024 mx ex lx)) (y / bpow (Zdigits2 mx - 53)) /\
  shr_m (fst (shr_fexp 53 1024 mx ex lx)) = mx / 2 ^ (Zdigits2 mx - 53) /\
  snd (shr_fexp 53 1024 mx ex lx) = Zdigits2 mx + ex - 53.
Proof.
  intros Hm Hd Hk Hy. unfold shr_fexp.
  rewrite fexp_normal by assumption.
  replace (Zdigits2 mx + ex - 53 - ex) with (Zdigits2 mx - 53) by lia.
  destruct (shr_describes (shr_record_of_loc mx lx) ex (Zdigits2 mx - 53) y
              ltac:(lia) Hy) as (G1 & G2 & G3).
  split; [exact G1|]. split; [rewrite G2, shr_m_of_loc; reflexivity|].
  rewrite G3. lia.
Qed.

Lemma div_pow2_bounds m d n :
  0 <= n <= d - 1 -> 2 ^ (d - 1) <= m < 2 ^ d ->
  2 ^ (d - n - 1) <= m / 2 ^ n < 2 ^ (d - n).
Proof.
  intros Hn [Hlo Hhi].
  assert (Hp : 0 < 2 ^ n) by (apply Z.pow_pos_nonneg; lia).
  split.
  - apply Z.div_le_lower_bound; [assumption|].
    rewrite <- Z.pow_add_r by lia. replace (n + (d - n - 1)) with (d - 1) by lia.
    assumption.
  - apply Z.div_lt_upper_bound; [assumption|].
    rewrite <- Z.pow_add_r by lia. replace (n + (d - n)) with d by lia.
    assumption.
Qed.

Lemma round_nearest_even_range m l :
  m <= round_nearest_even m l <= m + 1.
Proof.
  destruct l as [|[| |]]; simpl; try lia. destruct (Z.even m); lia.
Qed.

Lemma binary_round_aux_correct (mx ex : Z) (lx : location) (x : Q) :
  0 < mx -> 53 <= Zdigits2 mx -> -1021 <= Zdigits2 mx + ex <= 1022 ->
  describes (shr_record_of_loc mx lx) (x / bpow ex) ->
  Rounds x (binary_round_aux 53 1024 false mx ex lx).
Proof.
  intros Hm Hd Hk Hy.
  set (d := Zdigits2 mx) in *. set (k := d + ex).
  pose proof (Zdigits2_bounds mx Hm) as Hmx. fold d in Hmx.
  destruct (shr_fexp_spec mx ex lx _ Hm Hd ltac:(lia) Hy) as (G1 & G2 & G3).
  fold d in G1, G2, G3.
  unfold binary_round_aux.
  destruct (shr_fexp 53 1024 mx ex lx) as [mrs' e'] eqn:E1. simpl in G1, G2, G3.
  assert (Ey : (x / bpow ex / bpow (d - 53) == x / bpow (k - 53))%Q).
  { unfold k. replace (d + ex - 53) with (ex + (d - 53)) by lia.
    rewrite bpow_add. pose proof (bpow_pos ex). pose proof (bpow_pos (d - 53)).
    field. lra. }
  apply (describes_ext _ _ _ Ey) in G1.
  pose proof (round_nearest_even_describes mrs' _ G1) as Hrne.
  pose proof (round_nearest_even_range (shr_m mrs') (loc_of_shr_record mrs')) as Hrange.
  set (mz := round_nearest_even (shr_m mrs') (loc_of_shr_record mrs')) in *.
  pose proof (div_pow2_bounds mx d (d - 53) ltac:(lia) Hmx) as Hm1.
  rewrite <- G2 in Hm1.
  replace (d - (d - 53) - 1) with 52 in Hm1 by lia.
  replace (d - (d - 53)) with 53 in Hm1 by lia.
  assert (Hx : (bpow (k - 1) <= x < bpow k)%Q).
  { pose proof (describes_bounds _ _ Hy) as [Hlo Hhi].
    rewrite shr_m_of_loc in Hlo, Hhi.
    pose proof (bpow_pos ex) as Hpe.
    assert (Hlo' : (inject_Z mx * bpow ex <= x)%Q)
      by (apply Qdiv_lower; assumption).
    assert (Hhi' : (x < (inject_Z mx + 1) * bpow ex)%Q)
      by (apply Qdiv_upper; assumption).
    destruct Hmx as [Hmlo Hmhi].
    assert (Hmhi' : mx + 1 <= 2 ^ d) by lia.
    rewrite Zle_Qle in Hmlo, Hmhi'.
    rewrite bpow_inject in Hmlo, Hmhi' by lia.
    rewrite inject_Z_plus in Hmhi'. change (inject_Z 1) with 1%Q in Hmhi'.
    unfold k. replace (d + ex - 1) with ((d - 1) + ex) by lia.
    rewrite !bpow_add. split.
    - apply Qle_trans with (inject_Z mx * bpow ex)%Q; [|exact Hlo'].
      apply Qmult_le_compat_r; [exact Hmlo | lra].
    - apply Qlt_le_trans with ((inject_Z mx + 1) * bpow ex)%Q; [exact Hhi'|].
      apply Qmult_le_compat_r; [exact Hmhi' | lra]. }
  exists k, mz. split; [unfold k; lia|]. split; [exact Hx|]. split; [exact Hrne|].
  split; [|unfold k; lia].
  unfold float_of, shr_fexp.
  destruct (Z.eqb_spec mz (2 ^ 53)) as [Emz | Nmz].
  - rewrite Emz.
    replace (Zdigits2 (2 ^ 53)) with 54 by reflexivity.
    rewrite fexp_normal by lia. rewrite G3. fold k.
    replace (54 + (k - 53) - 53 - (k - 53)) with 1 by lia.
    simpl. replace (k - 53 + 1) with (k - 52) by lia.
    assert (Hle : (k - 52 <=? 1024 - 53) = true)
      by (apply Z.leb_le; lia).
    rewrite Hle. reflexivity.
  - assert (Hdz : Zdigits2 mz = 53) by (apply Zdigits2_unique; lia).
    rewrite Hdz. rewrite fexp_normal by lia. rewrite G3. fold k.
    replace (53 + (k - 53) - 53 - (k - 53)) with 0 by lia.
    simpl. destruct mz as [|pz|pz]; [lia | | lia]. simpl.
    assert (Hle : (k - 53 <=? 1024 - 53) = true)
      by (apply Z.leb_le; lia).
    rewrite Hle. reflexivity.
Qed.

(** *** Floats as rationals *)

Lemma is_rne_ext y y' mz : (y == y')%Q -> is_rne y mz -> is_rne y' mz.
Proof. intros E. unfold is_rne. rewrite E. tauto. Qed.

Lemma Rounds_ext x x' f : (x == x')%Q -> Rounds x f -> Rounds x' f.
Proof.
  intros E (k & mz & Hk & Hx & Hr & Ef). exists k, mz.
  split; [exact Hk|]. split; [rewrite <- E; exact Hx|].
  split; [|exact Ef]. eapply is_rne_ext; [|exact Hr]. rewrite E. reflexivity.
Qed.

Lemma bpow_52 : (bpow 52 == inject_Z (2 ^ 52))%Q.
Proof. reflexivity. Qed.

Lemma bpow_53 : (bpow 53 == inject_Z (2 ^ 53))%Q.
Proof. reflexivity. Qed.

Lemma scaled_bounds (x : Q) (k : Z) :
  (bpow (k - 1) <= x < bpow k)%Q ->
  (inject_Z (2 ^ 52) <= x / bpow (k - 53) < inject_Z (2 ^ 53))%Q.
Proof.
  intros [Hlo Hhi]. pose proof (bpow_pos (k - 53)) as Hp.
  rewrite <- bpow_52, <- bpow_53. split.
  - apply Qle_shift_div_l; [exact Hp|]. rewrite <- bpow_add.
    replace (52 + (k - 53)) with (k - 1) by lia. exact Hlo.
  - apply Qlt_shift_div_r; [exact Hp|]. rewrite <- bpow_add.
    replace (53 + (k - 53)) with k by lia. exact Hhi.
Qed.

(** What a rounded value looks like. *)
Lemma Rounds_inv x f :
  Rounds x f ->
  exists k mz,
    -1021 <= k <= 1023 /\ (bpow (k - 1) <= x < bpow k)%Q /\
    is_rne (x / bpow (k - 53)) mz /\ 2 ^ 52 <= mz <= 2 ^ 53 /\
    (B2Q f == inject_Z mz * bpow (k - 53))%Q /\ pnormal f.
Proof.
  intros (k & mz & Hk & Hx & Hr & Ef & Hc). exists k, mz.
  pose proof (scaled_bounds x k Hx) as [Hylo Hyhi].
  assert (Hmz : 2 ^ 52 <= mz <= 2 ^ 53).
  { apply (is_rne_bounds _ _ _ _ Hr). split; [exact Hylo | lra]. }
  split; [exact Hk|]. split; [exact Hx|]. split; [exact Hr|].
  split; [exact Hmz|].
  subst f. unfold float_of. destruct (Z.eqb_spec mz (2 ^ 53)) as [E | N].
  - split.
    + subst mz. unfold B2Q, cond_Zopp.
      replace (k - 52) with (1 + (k - 53)) by lia. rewrite bpow_add.
      change (Zpos (Z.to_pos (2 ^ 52))) with (2 ^ 52).
      change (bpow 1) with 2%Q.
      change (inject_Z (2 ^ 53)) with (2 * inject_Z (2 ^ 52))%Q. ring.
    + exists (Z.to_pos (2 ^ 52)), (k - 52). split; [reflexivity|].
      specialize (Hc E).
      split; [|lia]. change (Zpos (Z.to_pos (2 ^ 52))) with (2 ^ 52). lia.
  - assert (Hpos : Zpos (Z.to_pos mz) = mz) by (apply Z2Pos.id; lia).
    split.
    + unfold B2Q, cond_Zopp. rewrite Hpos. reflexivity.
    + exists (Z.to_pos mz), (k - 53). split; [reflexivity|].
      rewrite Hpos. split; lia.
Qed.

Lemma Rounds_pnormal x f : Rounds x f -> pnormal f.
Proof. intros H. destruct (Rounds_inv x f H) as (k & mz & _ & _ & _ & _ & _ & Hn). exact Hn. Qed.

Lemma Rounds_positive x f : Rounds x f -> (0 < x)%Q.
Proof.
  intros (k & mz & _ & [Hx _] & _). pose proof (bpow_pos (k - 1)). lra.
Qed.

Lemma pnormal_value_bounds m e :
  2 ^ 52 <= Zpos m < 2 ^ 53 ->
  (bpow (e + 52) <= inject_Z (Zpos m) * bpow e < bpow (e + 53))%Q.
Proof.
  intros [Hlo Hhi]. pose proof (bpow_pos e) as Hp.
  rewrite Zle_Qle in Hlo. rewrite Zlt_Qlt in Hhi.
  rewrite <- bpow_52 in Hlo. rewrite <- bpow_53 in Hhi.
  replace (e + 52) with (52 + e) by lia. replace (e + 53) with (53 + e) by lia.
  rewrite !bpow_add. split.
  - apply Qmult_le_compat_r; [exact Hlo | lra].
  - apply Qmult_lt_compat_r; [exact Hp | exact Hhi].
Qed.

Lemma pnormal_positive f : pnormal f -> (0 < B2Q f)%Q.
Proof.
  intros (m & e & -> & Hm & He). simpl.
  pose proof (pnormal_value_bounds m e Hm) as [Hlo _].
  pose proof (bpow_pos (e + 52)). lra.
Qed.

(** A normal number is its own rounding. *)
Lemma pnormal_Rounds f : pnormal f -> Rounds (B2Q f) f.
Proof.
  intros (m & e & -> & Hm & He). simpl.
  pose proof (pnormal_value_bounds m e Hm) as [Hlo Hhi].
  exists (e + 53), (Zpos m). split; [lia|]. split.
  - replace (e + 53 - 1) with (e + 52) by lia. split; assumption.
  - split.
    + replace (e + 53 - 53) with e by lia.
      apply (is_rne_ext (inject_Z (Zpos m))); [|apply is_rne_exact].
      pose proof (bpow_pos e). field. lra.
    + split; [|lia].
      unfold float_of. destruct (Z.eqb_spec (Zpos m) (2 ^ 53)) as [E | N]; [lia|].
      replace (e + 53 - 53) with e by lia. reflexivity.
Qed.

(** Rounding is monotone. *)
Lemma Rounds_mono x1 x2 f1 f2 :
  Rounds x1 f1 -> Rounds x2 f2 -> (x1 <= x2)%Q -> (B2Q f1 <= B2Q f2)%Q.
Proof.
  intros G1 G2 Hle.
  destruct (Rounds_inv _ _ G1) as (k1 & m1 & Hk1 & [Hx1 Hx1'] & Hr1 & Hm1 & E1 & _).
  destruct (Rounds_inv _ _ G2) as (k2 & m2 & Hk2 & [Hx2 Hx2'] & Hr2 & Hm2 & E2 & _).
  rewrite E1, E2.
  destruct (Z.lt_trichotomy k1 k2) as [Hlt | [Heq | Hgt]].
  - apply Qle_trans with (bpow k1).
    + replace k1 with (53 + (k1 - 53)) at 2 by lia. rewrite bpow_add, bpow_53.
      apply Qmult_le_compat_r; [|pose proof (bpow_pos (k1 - 53)); lra].
      rewrite <- Zle_Qle. lia.
    + apply Qle_trans with (bpow (k2 - 1)); [apply bpow_le; lia|].
      replace (k2 - 1) with (52 + (k2 - 53)) by lia. rewrite bpow_add, bpow_52.
      apply Qmult_le_compat_r; [|pose proof (bpow_pos (k2 - 53)); lra].
      rewrite <- Zle_Qle. lia.
  - subst k2.
    apply Qmult_le_compat_r; [|pose proof (bpow_pos (k1 - 53)); lra].
    rewrite <- Zle_Qle. apply (is_rne_mono _ _ _ _ Hr1 Hr2).
    pose proof (bpow_pos (k1 - 53)) as Hp.
    apply Qle_shift_div_l; [exact Hp|].
    assert (E : (x1 / bpow (k1 - 53) * bpow (k1 - 53) == x1)%Q) by (field; lra).
    rewrite E. exact Hle.
  - exfalso. assert (Hb : (bpow k2 <= bpow (k1 - 1))%Q) by (apply bpow_le; lia).
    lra.
Qed.

(** Rounding does not cross a power of two. *)
Lemma Rounds_bounds x f a b :
  Rounds x f -> -1021 <= a -> b <= 1021 -> (bpow a <= x <= bpow b)%Q ->
  (bpow a <= B2Q f <= bpow b)%Q.
Proof.
  intros Hr Ha Hb [Hlo Hhi].
  assert (Hab : a <= b).
  { destruct (Z_lt_le_dec b a) as [Hlt|]; [|assumption].
    apply bpow_lt in Hlt. lra. }
  assert (Hpow : forall c, -1021 <= c <= 1021 ->
            Rounds (bpow c) (S754_finite false (Z.to_pos (2 ^ 52)) (c - 52)) /\
            (B2Q (S754_finite false (Z.to_pos (2 ^ 52)) (c - 52)) == bpow c)%Q).
  { intros c Hc.
    assert (Ev : (B2Q (S754_finite false (Z.to_pos (2 ^ 52)) (c - 52)) == bpow c)%Q).
    { simpl. change (Zpos (Z.to_pos (2 ^ 52))) with (2 ^ 52).
      rewrite <- bpow_52, <- bpow_add. replace (52 + (c - 52)) with c by lia.
      reflexivity. }
    split; [|exact Ev].
    apply (Rounds_ext _ _ _ Ev). apply pnormal_Rounds.
    exists (Z.to_pos (2 ^ 52)), (c - 52). split; [reflexivity|].
    change (Zpos (Z.to_pos (2 ^ 52))) with (2 ^ 52). lia. }
  destruct (Hpow a ltac:(lia)) as [Hra Eva].
  destruct (Hpow b ltac:(lia)) as [Hrb Evb].
  split.
  - rewrite <- Eva. apply (Rounds_mono _ _ _ _ Hra Hr Hlo).
  - rewrite <- Evb. apply (Rounds_mono _ _ _ _ Hr Hrb Hhi).
Qed.

(** *** Order *)

Lemma SFcompare_pnormal f1 f2 :
  pnormal f1 -> pnormal f2 ->
  SFcompare f1 f2 = Some (B2Q f1 ?= B2Q f2)%Q.
Proof.
  intros (m1 & e1 & -> & Hm1 & He1) (m2 & e2 & -> & Hm2 & He2).
  simpl SFcompare. f_equal. symmetry.
  pose proof (pnormal_value_bounds m1 e1 Hm1) as [Hlo1 Hhi1].
  pose proof (pnormal_value_bounds m2 e2 Hm2) as [Hlo2 Hhi2].
  unfold B2Q, cond_Zopp.
  destruct (Z.compare_spec e1 e2) as [E | Hlt | Hgt].
  - subst e2. pose proof (bpow_pos e1) as Hp.
    rewrite Pos.compare_cont_spec. simpl Pos.switch_Eq.
    destruct (Pos.compare_spec m1 m2) as [E | Hlt | Hgt].
    + subst m2. rewrite <- Qeq_alt. reflexivity.
    + rewrite <- Qlt_alt. apply Qmult_lt_compat_r; [exact Hp|].
      rewrite <- Zlt_Qlt. lia.
    + rewrite <- Qgt_alt. apply Qmult_lt_compat_r; [exact Hp|].
      rewrite <- Zlt_Qlt. lia.
  - rewrite <- Qlt_alt.
    assert (Hb : (bpow (e1 + 53) <= bpow (e2 + 52))%Q) by (apply bpow_le; lia).
    lra.
  - rewrite <- Qgt_alt.
    assert (Hb : (bpow (e2 + 53) <= bpow (e1 + 52))%Q) by (apply bpow_le; lia).
    lra.
Qed.

Lemma nonneg_float_value f : nonneg_float f -> (0 <= B2Q f)%Q.
Proof.
  intros [-> | Hn]; [simpl; lra | apply Qlt_le_weak, pnormal_positive, Hn].
Qed.

Lemma SFltb_nonneg f1 f2 :
  nonneg_float f1 -> nonneg_float f2 ->
  (SFltb f1 f2 = true <-> (B2Q f1 < B2Q f2)%Q).
Proof.
  intros [-> | G1] [-> | G2].
  - simpl. split; [discriminate | lra].
  - pose proof (pnormal_positive _ G2).
    destruct G2 as (m & e & -> & _). simpl in *. split; [intros _; assumption | reflexivity].
  - pose proof (pnormal_positive _ G1).
    destruct G1 as (m & e & -> & _). simpl in *. split; [discriminate | lra].
  - unfold SFltb. rewrite (SFcompare_pnormal _ _ G1 G2).
    rewrite Qlt_alt. destruct (B2Q f1 ?= B2Q f2)%Q; split; congruence.
Qed.

Lemma SFleb_nonneg f1 f2 :
  nonneg_float f1 -> nonneg_float f2 ->
  (SFleb f1 f2 = true <-> (B2Q f1 <= B2Q f2)%Q).
Proof.
  intros [-> | G1] [-> | G2].
  - simpl. split; [lra | reflexivity].
  - pose proof (pnormal_positive _ G2).
    destruct G2 as (m & e & -> & _). simpl in *. split; [lra | reflexivity].
  - pose proof (pnormal_positive _ G1).
    destruct G1 as (m & e & -> & _). simpl in *. split; [discriminate | lra].
  - unfold SFleb. rewrite (SFcompare_pnormal _ _ G1 G2).
    rewrite Qle_alt. destruct (B2Q f1 ?= B2Q f2)%Q; split; congruence.
Qed.

(** *** Rounding a mantissa and an exponent *)

Lemma Pos_iter_xO (n p : positive) :
  Zpos (Pos.iter xO p n) = Zpos p * 2 ^ Zpos n.
Proof.
  induction n as [|n IH] using Pos.peano_ind.
  - simpl. lia.
  - rewrite Pos.iter_succ. rewrite Pos2Z.inj_xO, IH.
    rewrite Pos2Z.inj_succ, Z.pow_succ_r by lia. lia.
Qed.

(** Aligning to a smaller exponent keeps the value. *)
Lemma shl_align_value (m : positive) (e e' : Z) :
  e' <= e ->
  snd (shl_align m e e') = e' /\
  Zpos (fst (shl_align m e e')) = Zpos m * 2 ^ (e - e').
Proof.
  intros Hle. unfold shl_align.
  destruct (e' - e) as [|d|d] eqn:Ed; simpl.
  - assert (e = e') by lia. subst e'. rewrite Z.sub_diag. simpl. lia.
  - lia.
  - rewrite Pos_iter_xO. split; [reflexivity|]. f_equal. f_equal. lia.
Qed.

Lemma binary_round_correct (m : positive) (e : Z) :
  -1021 <= Zpos (digits2_pos m) + e <= 1022 ->
  Rounds (inject_Z (Zpos m) * bpow e) (binary_round 53 1024 false m e).
Proof.
  intros Hk. unfold binary_round.
  rewrite fexp_normal by lia.
  set (d := Zpos (digits2_pos m)) in *.
  pose proof (digits2_pos_bounds m) as Hm. fold d in Hm.
  destruct (Z_lt_le_dec d 53) as [Hsmall | Hbig].
  - destruct (shl_align_value m e (d + e - 53) ltac:(lia)) as [E2 E1].
    destruct (shl_align m e (d + e - 53)) as [mz ez]. simpl in E1, E2. subst ez.
    replace (e - (d + e - 53)) with (53 - d) in E1 by lia.
    assert (Hmz : 2 ^ 52 <= Zpos mz < 2 ^ 53).
    { assert (Hd0 : 0 < d) by (unfold d; lia).
      assert (E52 : 2 ^ 52 = 2 ^ (d - 1) * 2 ^ (53 - d))
        by (rewrite <- Z.pow_add_r by lia; f_equal; lia).
      assert (E53 : 2 ^ 53 = 2 ^ d * 2 ^ (53 - d))
        by (rewrite <- Z.pow_add_r by lia; f_equal; lia).
      assert (Hc : 0 < 2 ^ (53 - d)) by (apply Z.pow_pos_nonneg; lia).
      rewrite E1, E52, E53. split.
      - apply Z.mul_le_mono_nonneg_r; lia.
      - apply Z.mul_lt_mono_pos_r; lia. }
    assert (Hdz : Zdigits2 (Zpos mz) = 53) by (apply Zdigits2_unique; lia).
    apply binary_round_aux_correct; rewrite ?Hdz; try lia.
    unfold describes. simpl. split; [lia|].
    rewrite E1, inject_Z_mult, bpow_inject by lia.
    replace e with ((53 - d) + (d + e - 53)) at 1 by lia. rewrite bpow_add.
    pose proof (bpow_pos (d + e - 53)). field. lra.
  - assert (Eal : shl_align m e (d + e - 53) = (m, e)).
    { unfold shl_align. destruct (d + e - 53 - e) eqn:Ed; try reflexivity. lia. }
    rewrite Eal.
    apply binary_round_aux_correct; simpl Zdigits2; fold d; try lia.
    unfold describes. simpl. split; [lia|].
    pose proof (bpow_pos e). field. lra.
Qed.

(** The same with the range read off the value. *)
Lemma binary_round_value (m : positive) (e : Z) (x : Q) :
  (x == inject_Z (Zpos m) * bpow e)%Q ->
  (bpow (-1022) <= x < bpow 1022)%Q ->
  Rounds x (binary_round 53 1024 false m e).
Proof.
  intros Ex [Hlo Hhi]. apply (Rounds_ext (inject_Z (Zpos m) * bpow e)%Q);
    [symmetry; exact Ex|].
  apply binary_round_correct.
  pose proof (digits2_pos_bounds m) as [Hmlo Hmhi].
  set (d := Zpos (digits2_pos m)) in *.
  assert (0 < d) by (unfold d; lia).
  rewrite Zle_Qle in Hmlo. rewrite Zlt_Qlt in Hmhi.
  rewrite bpow_inject in Hmlo, Hmhi by lia.
  pose proof (bpow_pos e) as Hp.
  assert (G1 : (bpow (d - 1 + e) <= x)%Q).
  { rewrite Ex, bpow_add. apply Qmult_le_compat_r; [exact Hmlo | lra]. }
  assert (G2 : (x < bpow (d + e))%Q).
  { rewrite Ex, bpow_add. apply Qmult_lt_compat_r; [exact Hp | exact Hmhi]. }
  assert (G3 : d - 1 + e < 1022) by (apply bpow_lt_inv; lra).
  assert (G4 : -1022 < d + e) by (apply bpow_lt_inv; lra).
  lia.
Qed.

(** Converting a positive integer. *)
Lemma of_int_correct (z : Z) :
  0 < z < 2 ^ 1022 ->
  Rounds (inject_Z z) (binary_normalize 53 1024 z 0 false).
Proof.
  intros [Hz Hhi]. destruct z as [|p|p]; [lia | | lia]. simpl binary_normalize.
  apply binary_round_value.
  - change (bpow 0) with 1%Q. ring.
  - split.
    + apply Qle_trans with 1%Q; [apply (bpow_le (-1022) 0); lia|].
      change 1%Q with (inject_Z 1). rewrite <- Zle_Qle. lia.
    + rewrite <- bpow_inject by lia. rewrite <- Zlt_Qlt. exact Hhi.
Qed.

(** *** The operations *)

Lemma describes_binade (mx ex : Z) (lx : location) (x : Q) :
  0 < mx -> describes (shr_record_of_loc mx lx) (x / bpow ex) ->
  (bpow (Zdigits2 mx + ex - 1) <= x < bpow (Zdigits2 mx + ex))%Q.
Proof.
  intros Hm Hy. set (d := Zdigits2 mx).
  pose proof (Zdigits2_bounds mx Hm) as [Hmlo Hmhi]. fold d in Hmlo, Hmhi.
  assert (Hd0 : 0 < d).
  { destruct (Z_lt_le_dec 0 d) as [|Hle]; [assumption|].
    destruct d; [simpl in Hmhi; lia | lia | rewrite Z.pow_neg_r in Hmhi; lia]. }
  pose proof (describes_bounds _ _ Hy) as [Hlo Hhi].
  rewrite shr_m_of_loc in Hlo, Hhi.
  pose proof (bpow_pos ex) as Hpe.
  assert (Hlo' : (inject_Z mx * bpow ex <= x)%Q)
    by (apply Qdiv_lower; assumption).
  assert (Hhi' : (x < (inject_Z mx + 1) * bpow ex)%Q)
    by (apply Qdiv_upper; assumption).
  assert (Hmhi' : mx + 1 <= 2 ^ d) by lia.
  rewrite Zle_Qle in Hmlo, Hmhi'.
  rewrite bpow_inject in Hmlo, Hmhi' by lia.
  rewrite inject_Z_plus in Hmhi'. change (inject_Z 1) with 1%Q in Hmhi'.
  replace (d + ex - 1) with ((d - 1) + ex) by lia.
  rewrite !bpow_add. split.
  - apply Qle_trans with (inject_Z mx * bpow ex)%Q; [|exact Hlo'].
    apply Qmult_le_compat_r; [exact Hmlo | lra].
  - apply Qlt_le_trans with ((inject_Z mx + 1) * bpow ex)%Q; [exact Hhi'|].
    apply Qmult_le_compat_r; [exact Hmhi' | lra].
Qed.

Lemma binary_round_aux_value (mx ex : Z) (lx : location) (x : Q) :
  0 < mx -> 53 <= Zdigits2 mx ->
  describes (shr_record_of_loc mx lx) (x / bpow ex) ->
  (bpow (-1022) <= x < bpow 1022)%Q ->
  Rounds x (binary_round_aux 53 1024 false mx ex lx).
Proof.
  intros Hm Hd Hy [Hlo Hhi].
  pose proof (describes_binade mx ex lx x Hm Hy) as [Hblo Hbhi].
  apply binary_round_aux_correct; try assumption.
  assert (G3 : Zdigits2 mx + ex - 1 < 1022) by (apply bpow_lt_inv; lra).
  assert (G4 : -1022 < Zdigits2 mx + ex) by (apply bpow_lt_inv; lra).
  lia.
Qed.

Lemma Zdigits2_lower (m n : Z) : 0 <= n -> 2 ^ n <= m -> n + 1 <= Zdigits2 m.
Proof.
  intros Hn Hm.
  assert (Hpos : 0 < m) by (pose proof (Z.pow_pos_nonneg 2 n); lia).
  pose proof (Zdigits2_bounds m Hpos) as [_ Hhi].
  destruct (Z_lt_le_dec n (Zdigits2 m)) as [|Hle]; [lia|].
  assert (2 ^ Zdigits2 m <= 2 ^ n).
  { destruct (Z_lt_le_dec (Zdigits2 m) 0) as [Hneg|Hnn].
    - rewrite Z.pow_neg_r by assumption. pose proof (Z.pow_pos_nonneg 2 n). lia.
    - apply Z.pow_le_mono_r; lia. }
  lia.
Qed.

Lemma SFmul_correct f g :
  pnormal f -> pnormal g ->
  (bpow (-1022) <= B2Q f * B2Q g < bpow 1022)%Q ->
  Rounds (B2Q f * B2Q g) (SFmul 53 1024 f g).
Proof.
  intros (mf & ef & -> & Hmf & Hef) (mg & eg & -> & Hmg & Heg) Hx.
  unfold SFmul. simpl xorb.
  apply binary_round_aux_value; [lia | | | exact Hx].
  - assert (2 ^ 104 <= Zpos (mf * mg)).
    { rewrite Pos2Z.inj_mul. change (2 ^ 104) with (2 ^ 52 * 2 ^ 52). nia. }
    pose proof (Zdigits2_lower (Zpos (mf * mg)) 104 ltac:(lia) ltac:(assumption)).
    lia.
  - unfold describes. simpl shr_record_of_loc. simpl shr_r. simpl shr_s.
    simpl shr_m. split; [lia|].
    unfold B2Q, cond_Zopp. rewrite Pos2Z.inj_mul, inject_Z_mult, bpow_add.
    pose proof (bpow_pos ef). pose proof (bpow_pos eg). field. lra.
Qed.

Lemma SFadd_correct f g :
  pnormal f -> pnormal g ->
  (B2Q f + B2Q g < bpow 1022)%Q ->
  Rounds (B2Q f + B2Q g) (SFadd 53 1024 f g).
Proof.
  intros Hf Hg Hx.
  pose proof (pnormal_positive _ Hg) as Hgpos.
  destruct Hf as (mf & ef & -> & Hmf & Hef). destruct Hg as (mg & eg & -> & Hmg & Heg).
  unfold SFadd.
  destruct (shl_align_value mf ef (Z.min ef eg) ltac:(lia)) as [_ Ef].
  destruct (shl_align_value mg eg (Z.min ef eg) ltac:(lia)) as [_ Eg].
  set (a := fst (shl_align mf ef (Z.min ef eg))) in *.
  set (b := fst (shl_align mg eg (Z.min ef eg))) in *.
  set (ez := Z.min ef eg) in *.
  unfold cond_Zopp. change (Zpos a + Zpos b) with (Zpos (a + b)).
  unfold binary_normalize.
  pose proof (pnormal_value_bounds mf ef Hmf) as [Hflo _].
  apply binary_round_value.
  - unfold B2Q, cond_Zopp. rewrite Pos2Z.inj_add, inject_Z_plus, Ef, Eg.
    rewrite !inject_Z_mult, !bpow_inject by lia.
    replace ef with ((ef - ez) + ez) at 1 by lia.
    replace eg with ((eg - ez) + ez) at 1 by lia.
    rewrite !bpow_add. ring.
  - split; [|exact Hx].
    assert (Hb : (bpow (-1022) <= bpow (ef + 52))%Q) by (apply bpow_le; lia).
    unfold B2Q, cond_Zopp in *. lra.
Qed.

Lemma frac_lt_half (r m : Z) :
  0 < m -> 2 * r < m -> (inject_Z r / inject_Z m < 1 # 2)%Q.
Proof.
  intros Hm H. rewrite Zlt_Qlt in Hm, H. rewrite inject_Z_mult in H.
  change (inject_Z 0) with 0%Q in Hm. change (inject_Z 2) with 2%Q in H.
  apply Qlt_shift_div_r; [exact Hm | lra].
Qed.

Lemma frac_gt_half (r m : Z) :
  0 < m -> m < 2 * r -> ((1 # 2) < inject_Z r / inject_Z m)%Q.
Proof.
  intros Hm H. rewrite Zlt_Qlt in Hm, H. rewrite inject_Z_mult in H.
  change (inject_Z 0) with 0%Q in Hm. change (inject_Z 2) with 2%Q in H.
  apply Qlt_shift_div_l; [exact Hm | lra].
Qed.

Lemma frac_eq_half (r m : Z) :
  0 < m -> 2 * r = m -> (inject_Z r / inject_Z m == 1 # 2)%Q.
Proof.
  intros Hm H. subst m. rewrite Zlt_Qlt in Hm. rewrite inject_Z_mult in *.
  change (inject_Z 0) with 0%Q in Hm. change (inject_Z 2) with 2%Q in *.
  field. lra.
Qed.

Lemma frac_pos (r m : Z) :
  0 < m -> 0 < r -> (0 < inject_Z r / inject_Z m)%Q.
Proof.
  intros Hm H. rewrite Zlt_Qlt in Hm, H.
  change (inject_Z 0) with 0%Q in Hm, H.
  apply Qlt_shift_div_l; [exact Hm | lra].
Qed.

Lemma frac_lt_one (r m : Z) :
  0 < m -> r < m -> (inject_Z r / inject_Z m < 1)%Q.
Proof.
  intros Hm H. rewrite Zlt_Qlt in Hm, H.
  change (inject_Z 0) with 0%Q in Hm.
  apply Qlt_shift_div_r; [exact Hm | lra].
Qed.

(** The location computed from the remainder of a division places the
    quotient. *)
Lemma new_location_describes (q r m : Z) (y : Q) :
  0 < m -> 0 <= r < m -> 0 <= q ->
  (y == inject_Z q + inject_Z r / inject_Z m)%Q ->
  describes (shr_record_of_loc q (new_location m r)) y.
Proof.
  intros Hm [Hr0 Hr] Hq Ey.
  assert (Hexact : r = 0 -> describes (shr_record_of_loc q loc_Exact) y).
  { intros ->. split; [exact Hq|]. simpl. rewrite Ey.
    change (inject_Z 0) with 0%Q. unfold Qdiv. ring. }
  unfold new_location.
  destruct (Z.even m) eqn:Ev.
  - unfold new_location_even.
    destruct (Z.eqb_spec r 0) as [E0 | N0]; [auto|].
    pose proof (frac_pos r m Hm ltac:(lia)) as Hpos.
    pose proof (frac_lt_one r m Hm Hr) as Hone.
    destruct (Z.compare_spec (2 * r) m) as [E | Hlt | Hgt].
    + pose proof (frac_eq_half r m Hm E). split; [exact Hq|]. simpl. lra.
    + pose proof (frac_lt_half r m Hm Hlt). split; [exact Hq|]. simpl. lra.
    + pose proof (frac_gt_half r m Hm Hgt). split; [exact Hq|]. simpl. lra.
  - unfold new_location_odd.
    destruct (Z.eqb_spec r 0) as [E0 | N0]; [auto|].
    pose proof (frac_pos r m Hm ltac:(lia)) as Hpos.
    pose proof (frac_lt_one r m Hm Hr) as Hone.
    assert (Hne : 2 * r <> m).
    { intros E. subst m. rewrite Z.even_mul in Ev. discriminate. }
    destruct (Z.compare_spec (2 * r + 1) m) as [E | Hlt | Hgt].
    + pose proof (frac_lt_half r m Hm ltac:(lia)). split; [exact Hq|]. simpl. lra.
    + pose proof (frac_lt_half r m Hm ltac:(lia)). split; [exact Hq|]. simpl. lra.
    + pose proof (frac_gt_half r m Hm ltac:(lia)). split; [exact Hq|]. simpl. lra.
Qed.

Lemma SFdiv_correct f g :
  pnormal f -> pnormal g ->
  (bpow (-1020) <= B2Q f / B2Q g < bpow 1022)%Q ->
  Rounds (B2Q f / B2Q g) (SFdiv 53 1024 f g).
Proof.
  intros Hf Hg [Hxlo Hxhi].
  pose proof (pnormal_positive _ Hf) as Hfpos.
  pose proof (pnormal_positive _ Hg) as Hgpos.
  destruct Hf as (mf & ef & -> & Hmf & Hef). destruct Hg as (mg & eg & -> & Hmg & Heg).
  pose proof (pnormal_value_bounds mf ef Hmf) as [Hflo Hfhi].
  pose proof (pnormal_value_bounds mg eg Hmg) as [Hglo Hghi].
  unfold B2Q, cond_Zopp in *.
  pose proof (bpow_pos ef) as Hpf. pose proof (bpow_pos eg) as Hpg.
  (* the exponents are not too far apart *)
  assert (Hee : -1021 <= ef - eg).
  { assert (Hq : (inject_Z (Zpos mf) * bpow ef / (inject_Z (Zpos mg) * bpow eg)
                  < bpow (ef - eg + 1))%Q).
    { apply Qlt_shift_div_r; [exact Hgpos|].
      apply Qlt_le_trans with (bpow (ef + 53)); [exact Hfhi|].
      apply Qle_trans with (bpow (ef - eg + 1) * bpow (eg + 52))%Q.
      - rewrite <- bpow_add. apply bpow_le. lia.
      - apply Qmult_le_l; [apply bpow_pos | exact Hglo]. }
    assert (-1020 < ef - eg + 1) by (apply bpow_lt_inv; lra). lia. }
  unfold SFdiv. simpl xorb. unfold SFdiv_core_binary.
  replace (Zdigits2 (Zpos mf)) with 53 by (symmetry; apply Zdigits2_unique; lia).
  replace (Zdigits2 (Zpos mg)) with 53 by (symmetry; apply Zdigits2_unique; lia).
  replace (53 + ef - (53 + eg)) with (ef - eg) by lia.
  rewrite fexp_normal by lia.
  rewrite Z.min_l by lia.
  replace (ef - eg - (ef - eg - 53)) with 53 by lia.
  rewrite Z.shiftl_mul_pow2 by lia.
  pose proof (Z.div_eucl_eq (Zpos mf * 2 ^ 53) (Zpos mg) ltac:(lia)) as Hdiv.
  pose proof (Z.mod_pos_bound (Zpos mf * 2 ^ 53) (Zpos mg) ltac:(lia)) as Hmod.
  unfold Z.modulo in Hmod.
  destruct (Z.div_eucl (Zpos mf * 2 ^ 53) (Zpos mg)) as [q r].
  assert (Hq : 2 ^ 52 <= q).
  { destruct (Z_lt_le_dec q (2 ^ 52)) as [Hlt|]; [|assumption]. exfalso.
    assert (Zpos mg * q + r < Zpos mg * 2 ^ 52) by nia.
    change (2 ^ 53) with (2 * 2 ^ 52) in Hdiv. nia. }
  apply binary_round_aux_value.
  - lia.
  - pose proof (Zdigits2_lower q 52 ltac:(lia) Hq). lia.
  - apply new_location_describes; [lia | exact Hmod | lia |].
    assert (Em : (inject_Z (Zpos mf) * inject_Z (2 ^ 53)
                  == inject_Z (Zpos mg) * inject_Z q + inject_Z r)%Q).
    { rewrite <- !inject_Z_mult, <- inject_Z_plus, Hdiv. reflexivity. }
    set (e' := ef - eg - 53).
    assert (Ebf : (bpow ef == bpow e' * bpow eg * bpow 53)%Q).
    { rewrite <- !bpow_add. unfold e'.
      replace (ef - eg - 53 + eg + 53) with ef by lia. reflexivity. }
    pose proof (bpow_pos e') as Hpe'.
    assert (Hmgpos : (0 < inject_Z (Zpos mg))%Q)
      by (change 0%Q with (inject_Z 0); rewrite <- Zlt_Qlt; lia).
    assert (E53 : (bpow 53 == inject_Z (2 ^ 53))%Q) by reflexivity.
    apply (Qmult_inj_r _ _ (inject_Z (Zpos mg))); [lra|].
    transitivity (inject_Z (Zpos mf) * inject_Z (2 ^ 53))%Q.
    + rewrite Ebf, E53. field. lra.
    + rewrite Em. field. lra.
  - split; [|exact Hxhi].
    apply Qle_trans with (bpow (-1020)); [apply bpow_le; lia | exact Hxlo].
Qed.

(** Operations with [+0]. *)
Lemma SFmul_zero_l g : pnormal g -> SFmul 53 1024 (S754_zero false) g = S754_zero false.
Proof. intros (m & e & -> & _). reflexivity. Qed.

Lemma SFdiv_zero_l g : pnormal g -> SFdiv 53 1024 (S754_zero false) g = S754_zero false.
Proof. intros (m & e & -> & _). reflexivity. Qed.

Lemma SFadd_zero_l g : nonneg_float g -> SFadd 53 1024 (S754_zero false) g = g.
Proof. intros [-> | (m & e & -> & _)]; reflexivity. Qed.

Lemma SFadd_zero_r f : nonneg_float f -> SFadd 53 1024 f (S754_zero false) = f.
Proof. intros [-> | (m & e & -> & _)]; reflexivity. Qed.

(** *** The operations on [+0] and positive normal numbers *)

Lemma tame_nonneg lo hi f : tame lo hi f -> nonneg_float f.
Proof. intros [-> | [Hn _]]; [left; reflexivity | right; exact Hn]. Qed.

Lemma tame_upper lo hi f : tame lo hi f -> (B2Q f <= bpow hi)%Q.
Proof.
  intros [-> | [_ [_ Hhi]]]; [|exact Hhi].
  simpl. apply Qlt_le_weak, bpow_pos.
Qed.

Lemma RoundsNN_ext x x' f : (x == x')%Q -> RoundsNN x f -> RoundsNN x' f.
Proof.
  intros E [[E0 Ef] | Hr].
  - left. split; [rewrite <- E; exact E0 | exact Ef].
  - right. apply (Rounds_ext _ _ _ E Hr).
Qed.

Lemma RoundsNN_nonneg x f : RoundsNN x f -> nonneg_float f.
Proof.
  intros [[_ ->] | Hr]; [left; reflexivity | right; apply (Rounds_pnormal _ _ Hr)].
Qed.

Lemma RoundsNN_arg_nonneg x f : RoundsNN x f -> (0 <= x)%Q.
Proof.
  intros [[E _] | Hr]; [lra | apply Qlt_le_weak, (Rounds_positive _ _ Hr)].
Qed.

Lemma RoundsNN_pos x f : RoundsNN x f -> (0 < x)%Q -> Rounds x f.
Proof. intros [[E _] | Hr] Hx; [lra | exact Hr]. Qed.

Lemma nonneg_RoundsNN f : nonneg_float f -> RoundsNN (B2Q f) f.
Proof.
  intros [-> | Hn]; [left; split; reflexivity | right; apply pnormal_Rounds, Hn].
Qed.

Lemma RoundsNN_mono x1 x2 f1 f2 :
  RoundsNN x1 f1 -> RoundsNN x2 f2 -> (x1 <= x2)%Q -> (B2Q f1 <= B2Q f2)%Q.
Proof.
  intros [[E1 ->] | G1] G2 Hle.
  - apply nonneg_float_value, (RoundsNN_nonneg _ _ G2).
  - pose proof (Rounds_positive _ _ G1).
    apply (Rounds_mono x1 x2 f1 f2 G1); [|exact Hle].
    apply (RoundsNN_pos _ _ G2). lra.
Qed.

Lemma RoundsNN_tame x f lo hi :
  RoundsNN x f -> -1021 <= lo -> hi <= 1021 ->
  ((x == 0)%Q \/ (bpow lo <= x)%Q) -> (x <= bpow hi)%Q ->
  tame lo hi f.
Proof.
  intros [[E ->] | Hr] Hlo Hhi Hx Hxhi; [left; reflexivity|].
  right. pose proof (Rounds_positive _ _ Hr).
  split; [apply (Rounds_pnormal _ _ Hr)|].
  apply (Rounds_bounds x); try assumption.
  destruct Hx as [E | Hx]; [lra|]. split; assumption.
Qed.

Lemma of_int_NN (z : Z) :
  0 <= z < 2 ^ 1022 ->
  RoundsNN (inject_Z z) (binary_normalize 53 1024 z 0 false).
Proof.
  intros [Hz Hhi]. destruct (Z.eq_dec z 0) as [-> | Hne].
  - left. split; reflexivity.
  - right. apply of_int_correct. lia.
Qed.

Lemma of_int_tame (z hi : Z) :
  0 <= hi <= 1021 -> 0 <= z <= 2 ^ hi ->
  RoundsNN (inject_Z z) (binary_normalize 53 1024 z 0 false) /\
  tame 0 hi (binary_normalize 53 1024 z 0 false).
Proof.
  intros Hhi [Hz Hzhi].
  assert (Hlt : 2 ^ hi < 2 ^ 1022) by (apply Z.pow_lt_mono_r; lia).
  pose proof (of_int_NN z ltac:(lia)) as Hr. split; [exact Hr|].
  apply (RoundsNN_tame _ _ _ _ Hr); try lia.
  - destruct (Z.eq_dec z 0) as [-> | Hne]; [left; reflexivity|].
    right. change (bpow 0) with (inject_Z 1). rewrite <- Zle_Qle. lia.
  - rewrite <- bpow_inject by lia. rewrite <- Zle_Qle. exact Hzhi.
Qed.

Lemma of_int_ptame (z hi : Z) :
  0 <= hi <= 1021 -> 0 < z <= 2 ^ hi ->
  Rounds (inject_Z z) (binary_normalize 53 1024 z 0 false) /\
  ptame 0 hi (binary_normalize 53 1024 z 0 false).
Proof.
  intros Hhi [Hz Hzhi].
  destruct (of_int_tame z hi Hhi ltac:(lia)) as [Hr Ht].
  assert (Hpos : (0 < inject_Z z)%Q)
    by (change 0%Q with (inject_Z 0); rewrite <- Zlt_Qlt; exact Hz).
  pose proof (RoundsNN_pos _ _ Hr Hpos) as Hr'. split; [exact Hr'|].
  destruct Ht as [E | Ht]; [|exact Ht].
  pose proof (Rounds_pnormal _ _ Hr') as (m & e & E' & _). congruence.
Qed.

Lemma tame_mul f g lo1 hi1 lo2 hi2 :
  tame lo1 hi1 f -> ptame lo2 hi2 g ->
  -1021 <= lo1 + lo2 -> hi1 + hi2 <= 1021 ->
  RoundsNN (B2Q f * B2Q g) (SFmul 53 1024 f g) /\
  tame (lo1 + lo2) (hi1 + hi2) (SFmul 53 1024 f g).
Proof.
  intros Hf [Hg [Hglo Hghi]] Hlo Hhi.
  pose proof (pnormal_positive _ Hg) as Hgpos.
  assert (Hr : RoundsNN (B2Q f * B2Q g) (SFmul 53 1024 f g) /\
               (((B2Q f * B2Q g == 0)%Q \/ (bpow (lo1 + lo2) <= B2Q f * B2Q g)%Q) /\
                (B2Q f * B2Q g <= bpow (hi1 + hi2))%Q)).
  { destruct Hf as [-> | [Hf [Hflo Hfhi]]].
    - rewrite (SFmul_zero_l _ Hg). simpl B2Q. split.
      + left. split; [ring | reflexivity].
      + split; [left; ring|]. pose proof (bpow_pos (hi1 + hi2)). lra.
    - pose proof (pnormal_positive _ Hf) as Hfpos.
      pose proof (bpow_pos lo1). pose proof (bpow_pos lo2).
      assert (G1 : (bpow (lo1 + lo2) <= B2Q f * B2Q g)%Q).
      { rewrite bpow_add. apply Qle_trans with (bpow lo1 * B2Q g)%Q.
        - apply Qmult_le_l; assumption.
        - apply Qmult_le_compat_r; lra. }
      assert (G2 : (B2Q f * B2Q g <= bpow (hi1 + hi2))%Q).
      { rewrite bpow_add. apply Qle_trans with (bpow hi1 * B2Q g)%Q.
        - apply Qmult_le_compat_r; lra.
        - apply Qmult_le_l; [lra | assumption]. }
      split; [|split; [right; exact G1 | exact G2]].
      right. apply SFmul_correct; try assumption. split.
      + apply Qle_trans with (bpow (lo1 + lo2)); [apply bpow_le; lia | exact G1].
      + apply Qle_lt_trans with (bpow (hi1 + hi2)); [exact G2 | apply bpow_lt; lia]. }
  destruct Hr as [Hr [Hx Hxhi]]. split; [exact Hr|].
  apply (RoundsNN_tame _ _ _ _ Hr); assumption.
Qed.

Lemma tame_div f g lo1 hi1 lo2 hi2 :
  tame lo1 hi1 f -> ptame lo2 hi2 g ->
  -1020 <= lo1 - hi2 -> hi1 - lo2 <= 1021 ->
  RoundsNN (B2Q f / B2Q g) (SFdiv 53 1024 f g) /\
  tame (lo1 - hi2) (hi1 - lo2) (SFdiv 53 1024 f g).
Proof.
  intros Hf [Hg [Hglo Hghi]] Hlo Hhi.
  pose proof (pnormal_positive _ Hg) as Hgpos.
  assert (Hr : RoundsNN (B2Q f / B2Q g) (SFdiv 53 1024 f g) /\
               (((B2Q f / B2Q g == 0)%Q \/ (bpow (lo1 - hi2) <= B2Q f / B2Q g)%Q) /\
                (B2Q f / B2Q g <= bpow (hi1 - lo2))%Q)).
  { destruct Hf as [-> | [Hf [Hflo Hfhi]]].
    - rewrite (SFdiv_zero_l _ Hg). simpl B2Q.
      assert (E : (0 / B2Q g == 0)%Q) by (unfold Qdiv; ring). split.
      + left. split; [exact E | reflexivity].
      + split; [left; exact E|]. rewrite E. apply Qlt_le_weak, bpow_pos.
    - pose proof (pnormal_positive _ Hf) as Hfpos.
      pose proof (bpow_pos lo1). pose proof (bpow_pos lo2).
      pose proof (bpow_pos hi2). pose proof (bpow_pos hi1).
      assert (Hqlo : (bpow (lo1 - hi2) <= B2Q f / B2Q g)%Q).
      { apply Qle_shift_div_l; [exact Hgpos|].
        apply Qle_trans with (bpow (lo1 - hi2) * bpow hi2)%Q.
        - apply Qmult_le_l; [apply bpow_pos | exact Hghi].
        - rewrite <- bpow_add. replace (lo1 - hi2 + hi2) with lo1 by lia.
          exact Hflo. }
      assert (Hqhi : (B2Q f / B2Q g <= bpow (hi1 - lo2))%Q).
      { apply Qle_shift_div_r; [exact Hgpos|].
        apply Qle_trans with (bpow (hi1 - lo2) * bpow lo2)%Q.
        - rewrite <- bpow_add. replace (hi1 - lo2 + lo2) with hi1 by lia.
          exact Hfhi.
        - apply Qmult_le_l; [apply bpow_pos | exact Hglo]. }
      split; [|split; [right; exact Hqlo | exact Hqhi]].
      right. apply SFdiv_correct; try assumption. split.
      + apply Qle_trans with (bpow (lo1 - hi2)); [apply bpow_le; lia | exact Hqlo].
      + apply Qle_lt_trans with (bpow (hi1 - lo2)); [exact Hqhi | apply bpow_lt; lia]. }
  destruct Hr as [Hr [Hx Hxhi]]. split; [exact Hr|].
  apply (RoundsNN_tame _ _ _ _ Hr); try assumption. lia.
Qed.

Lemma tame_add f g lo1 hi1 lo2 hi2 :
  tame lo1 hi1 f -> tame lo2 hi2 g ->
  -1021 <= Z.min lo1 lo2 -> Z.max hi1 hi2 <= 1020 ->
  RoundsNN (B2Q f + B2Q g) (SFadd 53 1024 f g) /\
  tame (Z.min lo1 lo2) (Z.max hi1 hi2 + 1) (SFadd 53 1024 f g).
Proof.
  intros Hf Hg Hlo Hhi.
  pose proof (tame_upper _ _ _ Hf) as Hfhi.
  pose proof (tame_upper _ _ _ Hg) as Hghi.
  pose proof (nonneg_float_value _ (tame_nonneg _ _ _ Hf)) as Hf0.
  pose proof (nonneg_float_value _ (tame_nonneg _ _ _ Hg)) as Hg0.
  assert (Hm1 : (bpow hi1 <= bpow (Z.max hi1 hi2))%Q) by (apply bpow_le; lia).
  assert (Hm2 : (bpow hi2 <= bpow (Z.max hi1 hi2))%Q) by (apply bpow_le; lia).
  assert (Hsum : (B2Q f + B2Q g <= bpow (Z.max hi1 hi2 + 1))%Q).
  { rewrite bpow_succ. lra. }
  assert (Hr : RoundsNN (B2Q f + B2Q g) (SFadd 53 1024 f g)).
  { destruct Hf as [-> | [Hf _]].
    - rewrite (SFadd_zero_l _ (tame_nonneg _ _ _ Hg)).
      apply (RoundsNN_ext (B2Q g)); [simpl; ring|].
      apply nonneg_RoundsNN, (tame_nonneg _ _ _ Hg).
    - destruct Hg as [-> | [Hg _]].
      + rewrite (SFadd_zero_r _ (or_intror Hf)).
        apply (RoundsNN_ext (B2Q f)); [simpl; ring|].
        apply nonneg_RoundsNN. right. exact Hf.
      + right. apply SFadd_correct; try assumption.
        apply Qle_lt_trans with (bpow (Z.max hi1 hi2 + 1)); [exact Hsum|].
        apply bpow_lt. lia. }
  split; [exact Hr|].
  apply (RoundsNN_tame _ _ _ _ Hr); try lia; [|exact Hsum].
  destruct Hf as [-> | [Hf [Hflo _]]].
  - destruct Hg as [-> | [Hg [Hglo _]]].
    + left. simpl. ring.
    + right. simpl B2Q.
      apply Qle_trans with (bpow lo2); [apply bpow_le; lia | lra].
  - right. apply Qle_trans with (bpow lo1); [apply bpow_le; lia | lra].
Qed.

(** ** The estimate in binary64 *)

Lemma of_int_between (z lo hi : Z) :
  0 <= lo -> hi <= 1021 -> 2 ^ lo <= z <= 2 ^ hi ->
  ptame lo hi (binary_normalize 53 1024 z 0 false).
Proof.
  intros Hlo Hhi [Hzlo Hzhi].
  assert (Hpos : 0 < z) by (pose proof (Z.pow_pos_nonneg 2 lo); lia).
  assert (Hlh : lo <= hi).
  { destruct (Z_lt_le_dec hi lo) as [Hlt|]; [|assumption].
    assert (2 ^ hi < 2 ^ lo) by (apply Z.pow_lt_mono_r; lia). lia. }
  destruct (of_int_ptame z hi ltac:(lia) ltac:(lia)) as [Hr [Hn _]].
  split; [exact Hn|].
  apply (Rounds_bounds _ _ _ _ Hr); try lia.
  rewrite <- !bpow_inject by lia. rewrite <- !Zle_Qle. lia.
Qed.

(** The literals of [GuessVerificationProgress]. *)
Lemma seconds_per_day_tame : ptame 16 17 (double_of_int (D:=binary64) 86400).
Proof. apply of_int_between; [lia | lia | simpl; lia]. Qed.

Lemma factor_tame : ptame 2 3 (fSigcheckVerificationFactor (D:=binary64)).
Proof. apply of_int_between; [lia | lia | simpl; lia]. Qed.

Lemma one_Rounds : Rounds 1 (double_of_int (D:=binary64) 1).
Proof. apply (of_int_correct 1). split; [lia | reflexivity]. Qed.

Lemma expensive_facts (per_day : binary64) (seconds : Z) :
  ptame 0 10 per_day -> 0 <= seconds <= int64_max ->
  tame (-15) 60 (expensive per_day seconds) /\
  forall seconds', seconds <= seconds' <= int64_max ->
    (B2Q (expensive per_day seconds) <= B2Q (expensive per_day seconds'))%Q.
Proof.
  intros Hrate Hs. unfold expensive. simpl double_mul. simpl double_div.
  simpl double_of_int.
  assert (Hstep : forall s, 0 <= s <= int64_max ->
    let S := binary_normalize 53 1024 s 0 false in
    let Dy := SFdiv 53 1024 S (binary_normalize 53 1024 86400 0 false) in
    let R := SFmul 53 1024 Dy per_day in
    let E := SFmul 53 1024 R fSigcheckVerificationFactor in
    (RoundsNN (inject_Z s) S /\ tame 0 63 S) /\
    (RoundsNN (B2Q S / B2Q (binary_normalize 53 1024 86400 0 false)) Dy /\
     tame (-17) 47 Dy) /\
    (RoundsNN (B2Q Dy * B2Q per_day) R /\ tame (-17) 57 R) /\
    (RoundsNN (B2Q R * B2Q fSigcheckVerificationFactor) E /\ tame (-15) 60 E)).
  { intros s Hs0 S Dy R E.
    assert (G1 : RoundsNN (inject_Z s) S /\ tame 0 63 S).
    { apply of_int_tame; [lia|]. unfold int64_max in Hs0. lia. }
    assert (G2 : RoundsNN (B2Q S / B2Q (binary_normalize 53 1024 86400 0 false)) Dy
                 /\ tame (-17) 47 Dy).
    { apply (tame_div S _ 0 63 16 17); [apply G1 | apply seconds_per_day_tame | lia | lia]. }
    assert (G3 : RoundsNN (B2Q Dy * B2Q per_day) R /\ tame (-17) 57 R).
    { apply (tame_mul Dy per_day (-17) 47 0 10); [apply G2 | exact Hrate | lia | lia]. }
    assert (G4 : RoundsNN (B2Q R * B2Q fSigcheckVerificationFactor) E /\ tame (-15) 60 E).
    { apply (tame_mul R _ (-17) 57 2 3); [apply G3 | apply factor_tame | lia | lia]. }
    auto. }
  destruct (Hstep seconds Hs) as ([HS _] & [HD _] & [HR _] & [HE HEt]).
  split; [exact HEt|].
  intros seconds' Hs'.
  destruct (Hstep seconds' ltac:(lia)) as ([HS' _] & [HD' _] & [HR' _] & [HE' _]).
  cbv zeta in *.
  pose proof (pnormal_positive _ (proj1 seconds_per_day_tame)) as Hc.
  pose proof (pnormal_positive _ (proj1 Hrate)) as Hr.
  pose proof (pnormal_positive _ (proj1 factor_tame)) as Hf.
  simpl double_of_int in Hc.
  assert (M0 : (inject_Z seconds <= inject_Z seconds')%Q)
    by (rewrite <- Zle_Qle; lia).
  pose proof (RoundsNN_mono _ _ _ _ HS HS' M0) as M1.
  assert (M1' : (B2Q (binary_normalize 53 1024 seconds 0 false)
                 / B2Q (binary_normalize 53 1024 86400 0 false)
                 <= B2Q (binary_normalize 53 1024 seconds' 0 false)
                    / B2Q (binary_normalize 53 1024 86400 0 false))%Q).
  { apply Qmult_le_compat_r; [exact M1|].
    apply Qlt_le_weak, Qinv_lt_0_compat, Hc. }
  pose proof (RoundsNN_mono _ _ _ _ HD HD' M1') as M2.
  pose proof (RoundsNN_mono _ _ _ _ HR HR'
                (Qmult_le_compat_r _ _ _ M2 (Qlt_le_weak _ _ Hr))) as M3.
  apply (RoundsNN_mono _ _ _ _ HE HE').
  apply Qmult_le_compat_r; [exact M3 | apply Qlt_le_weak, Hf].
Qed.

Lemma Qlt_plus_nonneg (a b : Q) : (0 < a -> 0 <= b -> 0 < a + b)%Q.
Proof. intros. lra. Qed.

Lemma tame_weaken lo hi lo' hi' f :
  lo' <= lo -> hi <= hi' -> tame lo hi f -> tame lo' hi' f.
Proof.
  intros Hlo Hhi [-> | [Hn [G1 G2]]]; [left; reflexivity|].
  right. split; [exact Hn|]. apply bpow_le in Hlo, Hhi. lra.
Qed.

Lemma RoundsNN_value_pos x f : RoundsNN x f -> (0 < x)%Q -> (0 < B2Q f)%Q.
Proof.
  intros Hr Hx. apply pnormal_positive, (Rounds_pnormal x), (RoundsNN_pos _ _ Hr Hx).
Qed.

(** The quotient [fWorkBefore / (fWorkBefore + fWorkAfter)]. *)
Lemma ratio_facts (B A : binary64) :
  tame 0 67 B -> tame (-15) 61 A -> (0 < B2Q B + B2Q A)%Q ->
  ptame (-15) 68 (double_add B A) /\
  RoundsNN (B2Q B + B2Q A) (double_add B A) /\
  RoundsNN (B2Q B / B2Q (double_add B A)) (double_div B (double_add B A)) /\
  double_lt (double_of_int 0) (double_add B A) = true /\
  double_le (double_of_int 0) (double_div B (double_add B A)) = true /\
  double_le (double_div B (double_add B A)) (double_of_int 1) = true.
Proof.
  intros HB HA Hpos. simpl double_add. simpl double_div. simpl double_le.
  simpl double_lt.
  change (double_of_int (D:=binary64) 0) with (S754_zero false).
  destruct (tame_add B A 0 67 (-15) 61 HB HA ltac:(lia) ltac:(lia)) as [Hr Ht].
  change (Z.min 0 (-15)) with (-15) in Ht. change (Z.max 67 61 + 1) with 68 in Ht.
  pose proof (RoundsNN_pos _ _ Hr Hpos) as Hr'.
  pose proof (Rounds_pnormal _ _ Hr') as Hn.
  assert (Hp : ptame (-15) 68 (SFadd 53 1024 B A)).
  { destruct Ht as [E | Ht]; [|exact Ht].
    destruct Hn as (m & e & E' & _). congruence. }
  destruct (tame_div B (SFadd 53 1024 B A) 0 67 (-15) 68 HB Hp ltac:(lia) ltac:(lia))
    as [Hq Hqt].
  pose proof (pnormal_positive _ Hn) as Hden.
  pose proof (nonneg_float_value _ (tame_nonneg _ _ _ HB)) as HB0.
  pose proof (nonneg_float_value _ (tame_nonneg _ _ _ HA)) as HA0.
  split; [exact Hp|]. split; [exact Hr|]. split; [exact Hq|]. split.
  - apply SFltb_nonneg; [left; reflexivity | right; exact Hn | exact Hden].
  - split.
    + apply SFleb_nonneg; [left; reflexivity | apply (RoundsNN_nonneg _ _ Hq) |].
      apply nonneg_float_value, (RoundsNN_nonneg _ _ Hq).
    + apply SFleb_nonneg;
        [apply (RoundsNN_nonneg _ _ Hq) | right; apply (Rounds_pnormal _ _ one_Rounds) |].
      apply (RoundsNN_mono _ _ _ _ Hq (or_intror one_Rounds)).
      apply Qle_shift_div_r; [exact Hden|]. rewrite Qmult_1_l.
      apply (RoundsNN_mono _ _ _ _ (nonneg_RoundsNN _ (tame_nonneg _ _ _ HB)) Hr).
      lra.
Qed.

(** More work left makes the quotient smaller. *)
Lemma ratio_antitone (B A A' : binary64) :
  tame 0 67 B -> tame (-15) 61 A -> tame (-15) 61 A' ->
  (0 < B2Q B + B2Q A)%Q -> (B2Q A <= B2Q A')%Q ->
  double_le (double_div B (double_add B A')) (double_div B (double_add B A)) = true.
Proof.
  intros HB HA HA' Hpos Hle.
  pose proof (nonneg_float_value _ (tame_nonneg _ _ _ HB)) as HB0.
  destruct (ratio_facts B A HB HA Hpos) as ([Hn _] & Hr & Hq & _).
  destruct (ratio_facts B A' HB HA' ltac:(lra)) as ([Hn' _] & Hr' & Hq' & _).
  simpl double_add in *. simpl double_div in *. simpl double_le.
  pose proof (pnormal_positive _ Hn) as Hden.
  pose proof (pnormal_positive _ Hn') as Hden'.
  apply SFleb_nonneg;
    [apply (RoundsNN_nonneg _ _ Hq') | apply (RoundsNN_nonneg _ _ Hq) |].
  apply (RoundsNN_mono _ _ _ _ Hq' Hq).
  assert (Hdd : (B2Q (SFadd 53 1024 B A) <= B2Q (SFadd 53 1024 B A'))%Q)
    by (apply (RoundsNN_mono _ _ _ _ Hr Hr'); lra).
  apply Qle_shift_div_r; [exact Hden'|].
  assert (E : (B2Q B / B2Q (SFadd 53 1024 B A) * B2Q (SFadd 53 1024 B A')
               == B2Q B * (B2Q (SFadd 53 1024 B A') / B2Q (SFadd 53 1024 B A)))%Q)
    by (field; lra).
  rewrite E.
  assert (G1 : (1 <= B2Q (SFadd 53 1024 B A') / B2Q (SFadd 53 1024 B A))%Q).
  { apply Qle_shift_div_l; [exact Hden | lra]. }
  nra.
Qed.

Lemma active_data_calibrated64 (w : World) : calibrated (active_data w).
Proof.
  unfold calibrated, active_data, nonneg_int64, int64_max.
  destruct (fTestNet w).
  - split; [simpl; lia|]. split; [simpl; lia|].
    apply (of_int_between 30 0 10); simpl; lia.
  - split; [simpl; lia|]. split; [simpl; lia|].
    apply (of_int_between 800 0 10); simpl; lia.
Qed.

(** The two amounts of work at two readings of the clock. *)
Lemma work_binary64 (d : CCheckpointData.t binary64) (now now' : Z)
    (b : CBlockIndex) :
  calibrated d -> nonneg_int64 (nChainTx b) -> nonneg_int64 (nTime b) ->
  CCheckpointData.nTimeLastCheckpoint d <= now ->
  (CCheckpointData.nTransactionsLastCheckpoint d < nChainTx b -> nTime b <= now) ->
  now <= now' <= int64_max ->
  exists B A A' : binary64,
    work now d b = (B, A) /\ work now' d b = (B, A') /\
    tame 0 67 B /\ tame (-15) 61 A /\ tame (-15) 61 A' /\
    (0 < B2Q B + B2Q A)%Q /\ (B2Q A <= B2Q A')%Q.
Proof.
  intros (HC & HT & Hrate) Htx Htime HTnow Hbnow Hnow'.
  assert (Hnow : nonneg_int64 now) by (unfold nonneg_int64 in *; lia).
  assert (Hnow'' : nonneg_int64 now') by (unfold nonneg_int64 in *; lia).
  assert (HCn : nonneg_int64 (CCheckpointData.nTransactionsLastCheckpoint d))
    by (unfold nonneg_int64, int64_max; lia).
  unfold work. rewrite !int64_sub_nonneg by assumption.
  set (C := CCheckpointData.nTransactionsLastCheckpoint d) in *.
  set (T := CCheckpointData.nTimeLastCheckpoint d) in *.
  set (rate := CCheckpointData.fTransactionsPerDay d) in *.
  destruct (Z.leb_spec (nChainTx b) C) as [Hle | Hgt].
  - (* at or below the checkpoint *)
    change (double_mul (double_mul (double_div (double_of_int (now - T))
              (double_of_int 86400)) rate) fSigcheckVerificationFactor)
      with (expensive rate (now - T)).
    change (double_mul (double_mul (double_div (double_of_int (now' - T))
              (double_of_int 86400)) rate) fSigcheckVerificationFactor)
      with (expensive rate (now' - T)).
    simpl double_add. simpl double_of_int.
    destruct (expensive_facts rate (now - T) Hrate
                ltac:(unfold nonneg_int64 in *; lia)) as [HE Hmono].
    specialize (Hmono (now' - T) ltac:(unfold nonneg_int64 in *; lia)).
    destruct (expensive_facts rate (now' - T) Hrate
                ltac:(unfold nonneg_int64 in *; lia)) as [HE' _].
    destruct (of_int_tame (nChainTx b) 20 ltac:(lia)
                ltac:(unfold nonneg_int64 in *; lia)) as [HBr HBt].
    destruct (of_int_tame (C - nChainTx b) 20 ltac:(lia)
                ltac:(unfold nonneg_int64 in *; lia)) as [HCr HCt].
    destruct (tame_add _ _ 0 20 (-15) 60 HCt HE ltac:(lia) ltac:(lia)) as [HAr HAt].
    destruct (tame_add _ _ 0 20 (-15) 60 HCt HE' ltac:(lia) ltac:(lia)) as [HAr' HAt'].
    change (Z.min 0 (-15)) with (-15) in *. change (Z.max 20 60 + 1) with 61 in *.
    eexists _, _, _. split; [reflexivity|]. split; [reflexivity|].
    split; [apply (tame_weaken 0 20); [lia | lia | exact HBt]|].
    split; [exact HAt|]. split; [exact HAt'|].
    pose proof (nonneg_float_value _ (tame_nonneg _ _ _ HE)) as HE0.
    pose proof (nonneg_float_value _ (RoundsNN_nonneg _ _ HBr)) as HB0.
    pose proof (nonneg_float_value _ (RoundsNN_nonneg _ _ HCr)) as HC0.
    pose proof (nonneg_float_value _ (RoundsNN_nonneg _ _ HAr)) as HA0.
    split.
    + destruct (Z.eq_dec (nChainTx b) 0) as [E0 | N0].
      * assert (Hcpos : (0 < inject_Z (C - nChainTx b))%Q).
        { change 0%Q with (inject_Z 0). rewrite <- Zlt_Qlt. lia. }
        pose proof (RoundsNN_value_pos _ _ HCr Hcpos).
        assert (0 < B2Q (SFadd 53 1024 (binary_normalize 53 1024 (C - nChainTx b) 0 false)
                           (expensive rate (now - T))))%Q
          by (apply (RoundsNN_value_pos _ _ HAr); lra).
        lra.
      * assert (Hnpos : (0 < inject_Z (nChainTx b))%Q).
        { change 0%Q with (inject_Z 0). rewrite <- Zlt_Qlt.
          unfold nonneg_int64 in Htx. lia. }
        pose proof (RoundsNN_value_pos _ _ HBr Hnpos). lra.
    + apply (RoundsNN_mono _ _ _ _ HAr HAr'). lra.
  - (* past the checkpoint *)
    change (double_mul (double_mul (double_div (double_of_int (now - nTime b))
              (double_of_int 86400)) rate) fSigcheckVerificationFactor)
      with (expensive rate (now - nTime b)).
    change (double_mul (double_mul (double_div (double_of_int (now' - nTime b))
              (double_of_int 86400)) rate) fSigcheckVerificationFactor)
      with (expensive rate (now' - nTime b)).
    simpl double_add. simpl double_of_int. simpl double_mul.
    specialize (Hbnow Hgt).
    destruct (expensive_facts rate (now - nTime b) Hrate
                ltac:(unfold nonneg_int64 in *; lia)) as [HE Hmono].
    specialize (Hmono (now' - nTime b) ltac:(unfold nonneg_int64 in *; lia)).
    destruct (expensive_facts rate (now' - nTime b) Hrate
                ltac:(unfold nonneg_int64 in *; lia)) as [HE' _].
    destruct (of_int_tame C 20 ltac:(lia) ltac:(lia)) as [HCr HCt].
    destruct (of_int_tame (nChainTx b - C) 63 ltac:(lia)
                ltac:(unfold nonneg_int64, int64_max in *; lia)) as [HXr HXt].
    destruct (tame_mul _ _ 0 63 2 3 HXt factor_tame ltac:(lia) ltac:(lia))
      as [HX5r HX5t].
    destruct (tame_add _ _ 0 20 (0 + 2) (63 + 3) HCt HX5t ltac:(lia) ltac:(lia))
      as [HBr HBt].
    change (Z.min 0 (0 + 2)) with 0 in *. change (Z.max 20 (63 + 3) + 1) with 67 in *.
    eexists _, _, _. split; [reflexivity|]. split; [reflexivity|].
    split; [exact HBt|].
    split; [apply (tame_weaken (-15) 60); [lia | lia | exact HE]|].
    split; [apply (tame_weaken (-15) 60); [lia | lia | exact HE']|].
    pose proof (nonneg_float_value _ (tame_nonneg _ _ _ HE)) as HE0.
    pose proof (nonneg_float_value _ (tame_nonneg _ _ _ HX5t)) as HX0.
    split; [|exact Hmono].
    assert (Hcpos : (0 < inject_Z C)%Q).
    { change 0%Q with (inject_Z 0). rewrite <- Zlt_Qlt. lia. }
    pose proof (RoundsNN_value_pos _ _ HCr Hcpos).
    assert (0 < B2Q (SFadd 53 1024 (binary_normalize 53 1024 C 0 false)
                       (SFmul 53 1024 (binary_normalize 53 1024 (nChainTx b - C) 0 false)
                          fSigcheckVerificationFactor)))%Q
      by (apply (RoundsNN_value_pos _ _ HBr); lra).
    apply Qlt_plus_nonneg; assumption.
Qed.

Lemma GuessVerificationProgress_binary64 (w : World) (b : CBlockIndex)
    (B A : binary64) :
  work (clock w) (active_data w) b = (B, A) ->
  GuessVerificationProgress (Some b) w
  = Returns (double_div B (double_add B A), w).
Proof.
  intros Ew. unfold GuessVerificationProgress. run.
  rewrite Checkpoints_run, Ew. reflexivity.
Qed.

(** C10, as the code has it. For a block whose transaction count and
    timestamp are not negative, with the clock at or after the last
    checkpoint's timestamp and, when the block is past the checkpoint, at or
    after the block's own timestamp, the binary64 denominator
    [fWorkBefore + fWorkAfter] is greater than zero; the transaction count of
    the active calibration is positive. *)
Theorem denominator_positive (w : World) (b : CBlockIndex) :
  nonneg_int64 (clock w) -> nonneg_int64 (nChainTx b) -> nonneg_int64 (nTime b) ->
  CCheckpointData.nTimeLastCheckpoint (active_data (D:=binary64) w) <= clock w ->
  (CCheckpointData.nTransactionsLastCheckpoint (active_data (D:=binary64) w)
   < nChainTx b -> nTime b <= clock w) ->
  exists fWorkBefore fWorkAfter : binary64,
    work (clock w) (active_data w) b = (fWorkBefore, fWorkAfter) /\
    0 < CCheckpointData.nTransactionsLastCheckpoint (active_data (D:=binary64) w) /\
    double_lt (double_of_int 0) (double_add fWorkBefore fWorkAfter) = true /\
    GuessVerificationProgress (Some b) w
    = Returns (double_div fWorkBefore (double_add fWorkBefore fWorkAfter), w).
Proof.
  intros Hnow Htx Htime HT Hb.
  pose proof (active_data_calibrated64 w) as Hcal.
  destruct (work_binary64 (active_data w) (clock w) (clock w) b Hcal Htx Htime HT Hb
              ltac:(unfold nonneg_int64 in Hnow; lia))
    as (B & A & A' & Ew & _ & HB & HA & _ & Hpos & _).
  exists B, A. split; [exact Ew|]. split; [apply Hcal|].
  destruct (ratio_facts B A HB HA Hpos) as (_ & _ & _ & Hlt & _).
  split; [exact Hlt|].
  apply GuessVerificationProgress_binary64, Ew.
Qed.

(** C6, as the code has it. For a block whose transaction count and
    timestamp are not negative and a clock at or after the last checkpoint's
    timestamp and the block's, the binary64 estimate lies between 0 and 1;
    and when the clock moves on, the block staying the same, the estimate
    does not grow. *)
Theorem progress_bounded_and_antitone (w : World) (b : CBlockIndex)
    (now now' : Z) :
  nonneg_int64 (nChainTx b) -> nonneg_int64 (nTime b) ->
  CCheckpointData.nTimeLastCheckpoint (active_data (D:=binary64) w) <= now ->
  nTime b <= now -> now <= now' -> now' <= int64_max ->
  exists r r' : binary64,
    GuessVerificationProgress (Some b) (set_clock now w)
    = Returns (r, set_clock now w) /\
    GuessVerificationProgress (Some b) (set_clock now' w)
    = Returns (r', set_clock now' w) /\
    (double_le (double_of_int 0) r = true /\ double_le r (double_of_int 1) = true) /\
    (double_le (double_of_int 0) r' = true /\ double_le r' (double_of_int 1) = true) /\
    double_le r' r = true.
Proof.
  intros Htx Htime HT Hb Hle Hmax.
  pose proof (active_data_calibrated64 w) as Hcal.
  destruct (work_binary64 (active_data w) now now' b Hcal Htx Htime HT
              ltac:(auto) ltac:(lia))
    as (B & A & A' & Ew & Ew' & HB & HA & HA' & Hpos & Hmono).
  pose proof (nonneg_float_value _ (tame_nonneg _ _ _ HA)) as HA0.
  destruct (ratio_facts B A HB HA Hpos) as (_ & _ & _ & _ & G0 & G1).
  destruct (ratio_facts B A' HB HA' ltac:(lra)) as (_ & _ & _ & _ & G0' & G1').
  exists (double_div B (double_add B A)), (double_div B (double_add B A')).
  split; [apply GuessVerificationProgress_binary64, Ew|].
  split; [apply GuessVerificationProgress_binary64, Ew'|].
  split; [split; assumption|]. split; [split; assumption|].
  apply ratio_antitone; assumption.
Qed.

(** ** Exact values of the binary64 estimate *)

(** A positive number has one rounding. *)
Lemma Rounds_fun x f g : Rounds x f -> Rounds x g -> f = g.
Proof.
  intros (k & mz & Hk & [Hlo Hhi] & Hr & -> & _)
         (k' & mz' & Hk' & [Hlo' Hhi'] & Hr' & -> & _).
  assert (k = k').
  { assert (k - 1 < k') by (apply bpow_lt_inv; lra).
    assert (k' - 1 < k) by (apply bpow_lt_inv; lra). lia. }
  subst k'.
  assert (mz <= mz') by (apply (is_rne_mono _ _ _ _ Hr Hr'), Qle_refl).
  assert (mz' <= mz) by (apply (is_rne_mono _ _ _ _ Hr' Hr), Qle_refl).
  replace mz' with mz by lia. reflexivity.
Qed.

(** [x / x] is [1.0]. *)
Lemma SFdiv_self f :
  pnormal f -> SFdiv 53 1024 f f = double_of_int (D:=binary64) 1.
Proof.
  intros Hf. pose proof (pnormal_positive f Hf) as Hpos.
  assert (E : (B2Q f / B2Q f == 1)%Q) by (field; lra).
  apply (Rounds_fun 1); [|exact one_Rounds].
  apply (Rounds_ext (B2Q f / B2Q f)); [exact E|].
  apply SFdiv_correct; [exact Hf | exact Hf |].
  rewrite E. change 1%Q with (bpow 0). split.
  - apply bpow_le. lia.
  - apply bpow_lt. lia.
Qed.

(** No time elapsed, no expensive work. *)
Lemma expensive_zero per_day :
  pnormal per_day -> expensive per_day 0 = S754_zero false.
Proof.
  intros (m & e & -> & _). vm_compute. reflexivity.
Qed.

(** The two branches of [work]. *)
Lemma work_below (d : CCheckpointData.t binary64) (now : Z) (b : CBlockIndex) :
  nChainTx b <= CCheckpointData.nTransactionsLastCheckpoint d ->
  work now d b
  = (double_of_int (nChainTx b),
     double_add
       (double_of_int
          (int64_sub (CCheckpointData.nTransactionsLastCheckpoint d) (nChainTx b)))
       (expensive (CCheckpointData.fTransactionsPerDay d)
          (int64_sub now (CCheckpointData.nTimeLastCheckpoint d)))).
Proof.
  intros Hle. unfold work, expensive.
  rewrite (proj2 (Z.leb_le _ _) Hle). reflexivity.
Qed.

Lemma work_past (d : CCheckpointData.t binary64) (now : Z) (b : CBlockIndex) :
  CCheckpointData.nTransactionsLastCheckpoint d < nChainTx b ->
  work now d b
  = (double_add
       (double_of_int (CCheckpointData.nTransactionsLastCheckpoint d))
       (double_mul
          (double_of_int
             (int64_sub (nChainTx b) (CCheckpointData.nTransactionsLastCheckpoint d)))
          fSigcheckVerificationFactor),
     expensive (CCheckpointData.fTransactionsPerDay d)
       (int64_sub now (nTime b))).
Proof.
  intros Hlt. unfold work, expensive.
  rewrite (proj2 (Z.leb_gt _ _) Hlt). reflexivity.
Qed.

Lemma int64_sub_diag a : int64_sub a a = 0.
Proof. unfold int64_sub. rewrite Z.sub_diag. reflexivity. Qed.

(** The work done up to a block at or past the checkpoint is a positive
    normal number. *)
Lemma work_before_pnormal (d : CCheckpointData.t binary64) (now : Z)
    (b : CBlockIndex) :
  calibrated d -> nonneg_int64 (nChainTx b) ->
  CCheckpointData.nTransactionsLastCheckpoint d <= nChainTx b ->
  pnormal (work now d b).1.
Proof.
  intros (HC & HT & Hrate) Htx Hge.
  assert (HCn : nonneg_int64 (CCheckpointData.nTransactionsLastCheckpoint d))
    by (unfold nonneg_int64, int64_max; lia).
  set (C := CCheckpointData.nTransactionsLastCheckpoint d) in *.
  destruct (Z.eq_dec (nChainTx b) C) as [E | N].
  - rewrite work_below by (fold C; lia). simpl fst. rewrite E.
    apply (of_int_ptame C 20); lia.
  - rewrite work_past by (fold C; lia). simpl fst. fold C.
    rewrite int64_sub_nonneg by assumption.
    simpl double_add. simpl double_mul. simpl double_of_int.
    destruct (of_int_tame C 20 ltac:(lia) ltac:(lia)) as [HCr HCt].
    destruct (of_int_tame (nChainTx b - C) 63 ltac:(lia)
                ltac:(unfold nonneg_int64, int64_max in *; lia)) as [HXr HXt].
    destruct (tame_mul _ _ 0 63 2 3 HXt factor_tame ltac:(lia) ltac:(lia))
      as [HX5r HX5t].
    destruct (tame_add _ _ 0 20 (0 + 2) (63 + 3) HCt HX5t ltac:(lia) ltac:(lia))
      as [HBr HBt].
    pose proof (nonneg_float_value _ (tame_nonneg _ _ _ HX5t)) as HX0.
    assert (Hcpos : (0 < inject_Z C)%Q).
    { change 0%Q with (inject_Z 0). rewrite <- Zlt_Qlt. lia. }
    pose proof (RoundsNN_value_pos _ _ HCr Hcpos) as HC0.
    apply (Rounds_pnormal _ _ (RoundsNN_pos _ _ HBr (Qlt_plus_nonneg _ _ HC0 HX0))).
Qed.

(** Nothing is left to do for the checkpoint block when the clock shows the
    checkpoint's timestamp, and for a block past the checkpoint when the
    clock shows the block's. *)
Lemma work_after_zero (d : CCheckpointData.t binary64) (now : Z)
    (b : CBlockIndex) :
  calibrated d ->
  (nChainTx b = CCheckpointData.nTransactionsLastCheckpoint d /\
   now = CCheckpointData.nTimeLastCheckpoint d) \/
  (CCheckpointData.nTransactionsLastCheckpoint d < nChainTx b /\
   now = nTime b) ->
  (work now d b).2 = S754_zero false.
Proof.
  intros (_ & _ & [Hrate _]) [[E ->] | [Hlt ->]].
  - rewrite work_below by lia. simpl snd.
    rewrite E, !int64_sub_diag, (expensive_zero _ Hrate). reflexivity.
  - rewrite work_past by exact Hlt. simpl snd.
    rewrite int64_sub_diag. apply expensive_zero, Hrate.
Qed.

(** A node that has caught up reports exactly [1.0]: for the block whose
    transaction count is the checkpoint's, with the clock at the
    checkpoint's timestamp, and for a block past the checkpoint with the
    clock at the block's own timestamp. *)
Theorem progress_one_when_caught_up (w : World) (b : CBlockIndex) :
  nonneg_int64 (nChainTx b) ->
  (nChainTx b
   = CCheckpointData.nTransactionsLastCheckpoint (active_data (D:=binary64) w) /\
   clock w = CCheckpointData.nTimeLastCheckpoint (active_data (D:=binary64) w)) \/
  (CCheckpointData.nTransactionsLastCheckpoint (active_data (D:=binary64) w)
   < nChainTx b /\
   clock w = nTime b) ->
  GuessVerificationProgress (D:=binary64) (Some b) w
  = Returns (double_of_int 1, w).
Proof.
  intros Htx Hcase.
  pose proof (active_data_calibrated64 w) as Hcal.
  pose proof (work_after_zero (active_data w) (clock w) b Hcal Hcase) as HA.
  assert (Hge : CCheckpointData.nTransactionsLastCheckpoint
                  (active_data (D:=binary64) w) <= nChainTx b)
    by (destruct Hcase as [[-> _] | [Hlt _]]; lia).
  pose proof (work_before_pnormal (active_data w) (clock w) b Hcal Htx Hge) as HB.
  destruct (work (D:=binary64) (clock w) (active_data w) b) as [B A] eqn:Ew.
  simpl in HA, HB. subst A.
  rewrite (GuessVerificationProgress_binary64 w b B _ Ew).
  simpl double_add. simpl double_div.
  rewrite (SFadd_zero_r B (or_intror HB)), (SFdiv_self B HB). reflexivity.
Qed.

(** A block with no transaction up to it is at [0.0], whatever its
    timestamp and however far the clock is past the checkpoint's. *)
Theorem progress_zero_without_transactions (w : World) (b : CBlockIndex) :
  nChainTx b = 0 ->
  CCheckpointData.nTimeLastCheckpoint (active_data (D:=binary64) w) <= clock w ->
  clock w <= int64_max ->
  GuessVerificationProgress (D:=binary64) (Some b) w
  = Returns (double_of_int 0, w).
Proof.
  intros E0 HT Hmax.
  pose proof (active_data_calibrated64 w) as Hcal.
  set (b0 := {| nHeight := nHeight b; nTime := 0; nChainTx := nChainTx b;
                GetBlockHash := GetBlockHash b; IsInMainChain := IsInMainChain b |}).
  assert (Hle : nChainTx b
                <= CCheckpointData.nTransactionsLastCheckpoint
                     (active_data (D:=binary64) w))
    by (destruct Hcal as [? _]; lia).
  assert (Eb : work (D:=binary64) (clock w) (active_data w) b
               = work (clock w) (active_data w) b0)
    by (rewrite (work_below _ _ b Hle), (work_below _ _ b0 Hle); reflexivity).
  destruct (work_binary64 (active_data w) (clock w) (clock w) b0 Hcal
              ltac:(unfold nonneg_int64, int64_max; simpl; lia)
              ltac:(unfold nonneg_int64, int64_max; simpl; lia)
              HT ltac:(simpl; lia) ltac:(lia))
    as (B & A & _ & Ew & _ & HB & HA & _ & Hpos & _).
  rewrite <- Eb in Ew.
  rewrite (GuessVerificationProgress_binary64 w b B A Ew).
  assert (EB : B = S754_zero false).
  { rewrite work_below in Ew by exact Hle. injection Ew as <- _.
    rewrite E0. reflexivity. }
  destruct (ratio_facts B A HB HA Hpos) as ([Hn _] & _).
  subst B. do 2 f_equal. exact (SFdiv_zero_l _ Hn).
Qed.

(** ** The rounding error of the binary64 estimate *)

Lemma eps_val : (eps == 1 # 9007199254740992)%Q.
Proof. vm_compute. reflexivity. Qed.

Lemma one_minus_eps : (0 < 1 - eps <= 1)%Q.
Proof. rewrite eps_val. split; lra. Qed.

Lemma shrink_pos n : (0 < shrink n <= 1)%Q.
Proof.
  induction n as [|n [IH1 IH2]]; simpl; [lra|].
  pose proof one_minus_eps as [G1 G2]. set (q := (1 - eps)%Q) in *. nra.
Qed.

Lemma shrink_add n m : (shrink (n + m) == shrink n * shrink m)%Q.
Proof.
  induction n as [|n IH]; simpl; [ring|]. rewrite IH. ring.
Qed.

Lemma shrink_le n m : (n <= m)%nat -> (shrink m <= shrink n)%Q.
Proof.
  intros Hle. replace m with (n + (m - n))%nat by lia. rewrite shrink_add.
  pose proof (shrink_pos n) as [G1 G2]. pose proof (shrink_pos (m - n)) as [G3 G4].
  nra.
Qed.

Lemma within_exact x : (0 <= x)%Q -> within 0 x x.
Proof. intros Hx. unfold within. simpl. repeat split; lra. Qed.

Lemma within_ext n x x' v v' :
  (x == x')%Q -> (v == v')%Q -> within n x v -> within n x' v'.
Proof. intros Ex Ev. unfold within. rewrite Ex, Ev. auto. Qed.

Lemma within_weaken n m x v : (n <= m)%nat -> within n x v -> within m x v.
Proof.
  intros Hle (Hx & Hv & G1 & G2). pose proof (shrink_le n m Hle) as Hs.
  pose proof (shrink_pos m) as [Hm _].
  repeat split; [exact Hx | exact Hv | nra | nra].
Qed.

(** One rounding moves a number in the normal range by a factor between
    [1 - eps] and [1 + eps]. *)
Lemma Rounds_error x f :
  Rounds x f -> (x * (1 - eps) <= B2Q f /\ B2Q f * (1 - eps) <= x)%Q.
Proof.
  intros Hr.
  destruct (Rounds_inv x f Hr) as (k & mz & Hk & Hx & Hrne & Hmz & E & _).
  pose proof (scaled_bounds x k Hx) as [Hylo _].
  pose proof (bpow_pos (k - 53)) as Hp.
  assert (Ex : (x == x / bpow (k - 53) * bpow (k - 53))%Q) by (field; lra).
  set (y := (x / bpow (k - 53))%Q) in *. set (p := bpow (k - 53)) in *.
  assert (Hm : (inject_Z mz - (1 # 2) <= y <= inject_Z mz + (1 # 2))%Q).
  { destruct Hrne as [[G1 G2] | [[G | G] _]]; lra. }
  change (inject_Z (2 ^ 52)) with (4503599627370496 # 1)%Q in Hylo.
  assert (G1 : (y * (1 - eps) <= inject_Z mz)%Q) by (rewrite eps_val; lra).
  assert (G2 : (inject_Z mz * (1 - eps) <= y)%Q) by (rewrite eps_val; lra).
  rewrite E, Ex. split.
  - assert (Eq : (y * p * (1 - eps) == y * (1 - eps) * p)%Q) by ring.
    rewrite Eq. apply Qmult_le_compat_r; lra.
  - assert (Eq : (inject_Z mz * p * (1 - eps) == inject_Z mz * (1 - eps) * p)%Q) by ring.
    rewrite Eq. apply Qmult_le_compat_r; lra.
Qed.

Lemma within_round n x y f :
  within n x y -> RoundsNN y f -> within (S n) x (B2Q f).
Proof.
  intros (Hx & Hy & G1 & G2) Hr.
  pose proof (nonneg_float_value _ (RoundsNN_nonneg _ _ Hr)) as Hf.
  pose proof (shrink_pos n) as [Hs Hs1]. pose proof one_minus_eps as [Hq Hq1].
  unfold within. simpl shrink. set (q := (1 - eps)%Q) in *.
  destruct Hr as [[E ->] | Hr].
  - simpl B2Q. repeat split; [exact Hx | lra | nra | lra].
  - destruct (Rounds_error _ _ Hr) as [E1 E2]. fold q in E1, E2.
    repeat split; [exact Hx | exact Hf | nra | nra].
Qed.

Lemma within_add n x y v w :
  within n x v -> within n y w -> within n (x + y) (v + w).
Proof.
  intros (Hx & Hv & G1 & G2) (Hy & Hw & G3 & G4).
  repeat split; [lra | lra | |].
  - rewrite Qmult_plus_distr_l. lra.
  - rewrite Qmult_plus_distr_l. lra.
Qed.

Lemma within_mul n m x y v w :
  within n x v -> within m y w -> within (n + m) (x * y) (v * w).
Proof.
  intros (Hx & Hv & G1 & G2) (Hy & Hw & G3 & G4).
  pose proof (shrink_pos n) as [Hn _]. pose proof (shrink_pos m) as [Hm _].
  unfold within. rewrite shrink_add.
  repeat split; [nra | nra | |].
  - assert (E : (x * y * (shrink n * shrink m) == x * shrink n * (y * shrink m))%Q)
      by ring.
    rewrite E. apply Qle_trans with (v * (y * shrink m))%Q.
    + apply Qmult_le_compat_r; [exact G1 | nra].
    + rewrite (Qmult_comm v), (Qmult_comm v). apply Qmult_le_compat_r; assumption.
  - assert (E : (v * w * (shrink n * shrink m) == v * shrink n * (w * shrink m))%Q)
      by ring.
    rewrite E. apply Qle_trans with (x * (w * shrink m))%Q.
    + apply Qmult_le_compat_r; [exact G2 | nra].
    + rewrite (Qmult_comm x), (Qmult_comm x). apply Qmult_le_compat_r; assumption.
Qed.

Lemma within_div n m x y v w :
  within n x v -> within m y w -> (0 < y)%Q -> (0 < w)%Q ->
  within (n + m) (x / y) (v / w).
Proof.
  intros (Hx & Hv & G1 & G2) (Hy & Hw & G3 & G4) Hy0 Hw0.
  pose proof (shrink_pos n) as [Hn _]. pose proof (shrink_pos m) as [Hm _].
  unfold within. rewrite shrink_add.
  assert (Hxy : (0 <= x / y)%Q) by (apply Qle_shift_div_l; lra).
  assert (Hvw : (0 <= v / w)%Q) by (apply Qle_shift_div_l; lra).
  repeat split; [exact Hxy | exact Hvw | |].
  - apply Qle_shift_div_l; [exact Hw0|].
    assert (E : (x / y * (shrink n * shrink m) * w
                 == x * shrink n * (w * shrink m) / y)%Q) by (field; lra).
    rewrite E. apply Qle_shift_div_r; [exact Hy0|].
    apply Qle_trans with (v * (w * shrink m))%Q.
    + apply Qmult_le_compat_r; [exact G1 | nra].
    + rewrite (Qmult_comm v), (Qmult_comm v). apply Qmult_le_compat_r; assumption.
  - apply Qle_shift_div_l; [exact Hy0|].
    assert (E : (v / w * (shrink n * shrink m) * y
                 == v * shrink n * (y * shrink m) / w)%Q) by (field; lra).
    rewrite E. apply Qle_shift_div_r; [exact Hw0|].
    apply Qle_trans with (x * (y * shrink m))%Q.
    + apply Qmult_le_compat_r; [exact G2 | nra].
    + rewrite (Qmult_comm x), (Qmult_comm x). apply Qmult_le_compat_r; assumption.
Qed.

(** The literals are exact. *)
Lemma seconds_per_day_value :
  (B2Q (double_of_int (D:=binary64) 86400) == inject_Z 86400)%Q.
Proof. vm_compute. reflexivity. Qed.

Lemma factor_value :
  (B2Q (fSigcheckVerificationFactor (D:=binary64)) == inject_Z 5)%Q.
Proof. vm_compute. reflexivity. Qed.

Lemma of_int_within z :
  0 <= z <= int64_max ->
  within 1 (inject_Z z) (B2Q (binary_normalize 53 1024 z 0 false)).
Proof.
  intros Hz. apply (within_round 0 (inject_Z z) (inject_Z z)).
  - apply within_exact. change 0%Q with (inject_Z 0). rewrite <- Zle_Qle. lia.
  - apply of_int_NN. unfold int64_max in Hz. split; [lia|].
    apply Z.le_lt_trans with (2 ^ 63); [lia|]. apply Z.pow_lt_mono_r; lia.
Qed.

Lemma within_literal (x : Q) (f : binary64) :
  (0 <= x)%Q -> (B2Q f == x)%Q -> within 0 x (B2Q f).
Proof.
  intros Hx E. apply (within_ext 0 x x x (B2Q f)); [reflexivity | symmetry; exact E|].
  apply within_exact, Hx.
Qed.

(** [(seconds / 86400.0 * per_day) * 5.0] takes four roundings. *)
Lemma expensive_within (per_day : binary64) (rate : Q) (seconds : Z) :
  ptame 0 10 per_day -> (B2Q per_day == rate)%Q -> 0 <= seconds <= int64_max ->
  within 4 (inject_Z seconds / inject_Z 86400 * rate * inject_Z 5)
    (B2Q (expensive per_day seconds)).
Proof.
  intros Hrate Erate Hs. unfold expensive. simpl double_mul. simpl double_div.
  simpl double_of_int.
  set (S := binary_normalize 53 1024 seconds 0 false).
  set (Dy := SFdiv 53 1024 S (binary_normalize 53 1024 86400 0 false)).
  set (R := SFmul 53 1024 Dy per_day).
  assert (G1 : RoundsNN (inject_Z seconds) S /\ tame 0 63 S).
  { apply of_int_tame; [lia|]. unfold int64_max in Hs. lia. }
  assert (G2 : RoundsNN (B2Q S / B2Q (binary_normalize 53 1024 86400 0 false)) Dy
               /\ tame (-17) 47 Dy).
  { apply (tame_div S _ 0 63 16 17); [apply G1 | apply seconds_per_day_tame | lia | lia]. }
  assert (G3 : RoundsNN (B2Q Dy * B2Q per_day) R /\ tame (-17) 57 R).
  { apply (tame_mul Dy per_day (-17) 47 0 10); [apply G2 | exact Hrate | lia | lia]. }
  assert (G4 : RoundsNN (B2Q R * B2Q fSigcheckVerificationFactor)
                 (SFmul 53 1024 R fSigcheckVerificationFactor)).
  { apply (tame_mul R _ (-17) 57 2 3); [apply G3 | apply factor_tame | lia | lia]. }
  pose proof (pnormal_positive _ (proj1 Hrate)) as Hr0.
  pose proof (pnormal_positive _ (proj1 seconds_per_day_tame)) as Hc0.
  pose proof (of_int_within seconds Hs) as W1. fold S in W1.
  assert (L1 : within 0 (inject_Z 86400)
                 (B2Q (binary_normalize 53 1024 86400 0 false))).
  { apply within_literal; [discriminate | exact seconds_per_day_value]. }
  assert (L2 : within 0 rate (B2Q per_day)).
  { apply within_literal; [rewrite <- Erate; lra | exact Erate]. }
  assert (L3 : within 0 (inject_Z 5) (B2Q fSigcheckVerificationFactor)).
  { apply within_literal; [discriminate | exact factor_value]. }
  assert (H86400 : (0 < inject_Z 86400)%Q) by reflexivity.
  pose proof (within_round 1 _ _ _ (within_div 1 0 _ _ _ _ W1 L1 H86400 Hc0)
                (proj1 G2)) as W2.
  pose proof (within_round 2 _ _ _ (within_mul 2 0 _ _ _ _ W2 L2) (proj1 G3)) as W3.
  exact (within_round 3 _ _ _ (within_mul 3 0 _ _ _ _ W3 L3) G4).
Qed.

(** The two branches of [work] in exact arithmetic. *)
Lemma work_below_exact (d : CCheckpointData.t Q) (now : Z) (b : CBlockIndex) :
  nChainTx b <= CCheckpointData.nTransactionsLastCheckpoint d ->
  work now d b
  = (inject_Z (nChainTx b),
     (inject_Z (int64_sub (CCheckpointData.nTransactionsLastCheckpoint d) (nChainTx b))
      + inject_Z (int64_sub now (CCheckpointData.nTimeLastCheckpoint d))
        / inject_Z 86400 * CCheckpointData.fTransactionsPerDay d * inject_Z 5)%Q).
Proof.
  intros Hle. unfold work. rewrite (proj2 (Z.leb_le _ _) Hle). reflexivity.
Qed.

Lemma work_past_exact (d : CCheckpointData.t Q) (now : Z) (b : CBlockIndex) :
  CCheckpointData.nTransactionsLastCheckpoint d < nChainTx b ->
  work now d b
  = ((inject_Z (CCheckpointData.nTransactionsLastCheckpoint d)
      + inject_Z (int64_sub (nChainTx b) (CCheckpointData.nTransactionsLastCheckpoint d))
        * inject_Z 5)%Q,
     (inject_Z (int64_sub now (nTime b))
      / inject_Z 86400 * CCheckpointData.fTransactionsPerDay d * inject_Z 5)%Q).
Proof.
  intros Hlt. unfold work. rewrite (proj2 (Z.leb_gt _ _) Hlt). reflexivity.
Qed.

(** The timestamp of a block at or below the checkpoint is not read. *)
Lemma work_tame (d : CCheckpointData.t binary64) (now : Z) (b : CBlockIndex) :
  calibrated d -> nonneg_int64 (nChainTx b) ->
  CCheckpointData.nTimeLastCheckpoint d <= now <= int64_max ->
  (CCheckpointData.nTransactionsLastCheckpoint d < nChainTx b ->
   0 <= nTime b <= now) ->
  tame 0 67 (work now d b).1 /\ tame (-15) 61 (work now d b).2 /\
  (0 < B2Q (work now d b).1 + B2Q (work now d b).2)%Q.
Proof.
  intros Hcal Htx Hnow Hb.
  set (b0 := {| nHeight := nHeight b;
                nTime := if nChainTx b <=? CCheckpointData.nTransactionsLastCheckpoint d
                         then 0 else nTime b;
                nChainTx := nChainTx b;
                GetBlockHash := GetBlockHash b; IsInMainChain := IsInMainChain b |}).
  assert (Eb : work now d b = work now d b0).
  { destruct (Z.leb_spec (nChainTx b) (CCheckpointData.nTransactionsLastCheckpoint d))
      as [Hle | Hgt].
    - rewrite (work_below _ _ b Hle), (work_below _ _ b0 Hle). reflexivity.
    - unfold b0. destruct b; reflexivity. }
  assert (Ht0 : nonneg_int64 (nTime b0) /\
                (CCheckpointData.nTransactionsLastCheckpoint d < nChainTx b0 ->
                 nTime b0 <= now)).
  { unfold b0, nonneg_int64 in *. simpl.
    destruct (Z.leb_spec (nChainTx b) (CCheckpointData.nTransactionsLastCheckpoint d))
      as [Hle | Hgt]; [unfold int64_max; lia|].
    specialize (Hb Hgt). lia. }
  destruct (work_binary64 d now now b0 Hcal Htx (proj1 Ht0) (proj1 Hnow) (proj2 Ht0)
              ltac:(lia))
    as (B & A & _ & Ew & _ & HB & HA & _ & Hpos & _).
  rewrite Eb, Ew. simpl. auto.
Qed.

(** The two amounts of work against their exact values: three roundings at
    most in the work done, five in the work left. *)
Lemma work_within (dq : CCheckpointData.t Q) (d : CCheckpointData.t binary64)
    (now : Z) (b : CBlockIndex) :
  calibrated d ->
  CCheckpointData.nTransactionsLastCheckpoint dq
  = CCheckpointData.nTransactionsLastCheckpoint d ->
  CCheckpointData.nTimeLastCheckpoint dq = CCheckpointData.nTimeLastCheckpoint d ->
  (B2Q (CCheckpointData.fTransactionsPerDay d)
   == CCheckpointData.fTransactionsPerDay dq)%Q ->
  nonneg_int64 (nChainTx b) ->
  CCheckpointData.nTimeLastCheckpoint d <= now <= int64_max ->
  (CCheckpointData.nTransactionsLastCheckpoint d < nChainTx b ->
   0 <= nTime b <= now) ->
  within 3 (work now dq b).1 (B2Q (work now d b).1) /\
  within 5 (work now dq b).2 (B2Q (work now d b).2).
Proof.
  intros Hcal EC ET Erate Htx Hnow Hb.
  pose proof Hcal as (HC & HT & Hrate).
  assert (HCn : nonneg_int64 (CCheckpointData.nTransactionsLastCheckpoint d))
    by (unfold nonneg_int64, int64_max; lia).
  assert (Hnow' : nonneg_int64 now) by (unfold nonneg_int64 in *; lia).
  destruct (Z.leb_spec (nChainTx b) (CCheckpointData.nTransactionsLastCheckpoint d))
    as [Hle | Hgt].
  - rewrite (work_below d now b Hle).
    rewrite (work_below_exact dq now b) by (rewrite EC; exact Hle).
    rewrite EC, ET. rewrite !int64_sub_nonneg by assumption.
    set (C := CCheckpointData.nTransactionsLastCheckpoint d) in *.
    set (T := CCheckpointData.nTimeLastCheckpoint d) in *.
    simpl fst. simpl snd. simpl double_add. simpl double_of_int. split.
    + apply (within_weaken 1 3); [lia|]. apply of_int_within.
      unfold nonneg_int64 in Htx. lia.
    + assert (W1 : within 1 (inject_Z (C - nChainTx b))
                     (B2Q (binary_normalize 53 1024 (C - nChainTx b) 0 false))).
      { apply of_int_within. unfold nonneg_int64, int64_max in *. lia. }
      pose proof (expensive_within _ _ (now - T) Hrate Erate
                    ltac:(unfold nonneg_int64 in *; lia)) as W4.
      destruct (of_int_tame (C - nChainTx b) 20 ltac:(lia)
                  ltac:(unfold nonneg_int64 in *; lia)) as [_ HCt].
      destruct (expensive_facts _ (now - T) Hrate
                  ltac:(unfold nonneg_int64 in *; lia)) as [HE _].
      destruct (tame_add _ _ 0 20 (-15) 60 HCt HE ltac:(lia) ltac:(lia)) as [HAr _].
      apply (within_round 4 _ _ _
               (within_add 4 _ _ _ _ (within_weaken 1 4 _ _ ltac:(lia) W1) W4)).
      exact HAr.
  - specialize (Hb Hgt).
    assert (Htime : nonneg_int64 (nTime b)) by (unfold nonneg_int64 in *; lia).
    rewrite (work_past d now b Hgt).
    rewrite (work_past_exact dq now b) by (rewrite EC; exact Hgt).
    rewrite EC. rewrite !int64_sub_nonneg by assumption.
    set (C := CCheckpointData.nTransactionsLastCheckpoint d) in *.
    simpl fst. simpl snd. simpl double_add. simpl double_mul. simpl double_of_int.
    split.
    + assert (W1 : within 1 (inject_Z C) (B2Q (binary_normalize 53 1024 C 0 false))).
      { apply of_int_within. unfold nonneg_int64 in HCn. lia. }
      assert (W1' : within 1 (inject_Z (nChainTx b - C))
                      (B2Q (binary_normalize 53 1024 (nChainTx b - C) 0 false))).
      { apply of_int_within. unfold nonneg_int64, int64_max in *. lia. }
      destruct (of_int_tame C 20 ltac:(lia) ltac:(lia)) as [_ HCt].
      destruct (of_int_tame (nChainTx b - C) 63 ltac:(lia)
                  ltac:(unfold nonneg_int64, int64_max in *; lia)) as [_ HXt].
      destruct (tame_mul _ _ 0 63 2 3 HXt factor_tame ltac:(lia) ltac:(lia))
        as [HX5r HX5t].
      destruct (tame_add _ _ 0 20 (0 + 2) (63 + 3) HCt HX5t ltac:(lia) ltac:(lia))
        as [HBr _].
      assert (L3 : within 0 (inject_Z 5) (B2Q fSigcheckVerificationFactor)).
      { apply within_literal; [discriminate | exact factor_value]. }
      pose proof (within_round 1 _ _ _ (within_mul 1 0 _ _ _ _ W1' L3) HX5r) as W2.
      apply (within_round 2 _ _ _
               (within_add 2 _ _ _ _ (within_weaken 1 2 _ _ ltac:(lia) W1) W2)).
      exact HBr.
    + apply (within_weaken 4 5); [lia|].
      apply (expensive_within _ _ (now - nTime b) Hrate Erate).
      unfold nonneg_int64 in *. lia.
Qed.

(** The quotient against its exact value: ten roundings at most. *)
Lemma ratio_within (B A : binary64) (Bq Aq : Q) :
  tame 0 67 B -> tame (-15) 61 A -> (0 < B2Q B + B2Q A)%Q ->
  within 3 Bq (B2Q B) -> within 5 Aq (B2Q A) ->
  (0 < Bq + Aq)%Q /\
  nonneg_float (double_div B (double_add B A)) /\
  within 10 (Bq / (Bq + Aq)) (B2Q (double_div B (double_add B A))).
Proof.
  intros HB HA Hpos WB WA.
  destruct (ratio_facts B A HB HA Hpos) as ([Hn _] & Hr & Hq & _).
  pose proof (pnormal_positive _ Hn) as Hden.
  pose proof (within_add 5 _ _ _ _ (within_weaken 3 5 _ _ ltac:(lia) WB) WA) as W5.
  pose proof (within_round 5 _ _ _ W5 Hr) as W6.
  assert (Hq0 : (0 < Bq + Aq)%Q).
  { destruct W5 as (_ & _ & _ & G). pose proof (shrink_pos 5) as [Hs _].
    apply Qlt_le_trans with ((B2Q B + B2Q A) * shrink 5)%Q; [|exact G].
    apply Qmult_lt_0_compat; assumption. }
  split; [exact Hq0|]. split; [apply (RoundsNN_nonneg _ _ Hq)|].
  apply (within_round 9 _ _ _ (within_div 3 6 _ _ _ _ WB W6 Hq0 Hden) Hq).
Qed.

Lemma GuessVerificationProgress_work {D : Type} `{DoubleOps D}
    (w : World) (b : CBlockIndex) :
  GuessVerificationProgress (Some b) w
  = Returns (double_div (work (clock w) (active_data w) b).1
               (double_add (work (clock w) (active_data w) b).1
                  (work (clock w) (active_data w) b).2), w).
Proof.
  unfold GuessVerificationProgress. run. rewrite Checkpoints_run.
  destruct (work (clock w) (active_data w) b). reflexivity.
Qed.

(** The two calibrations hold the same numbers in both arithmetics. *)
Lemma active_data_same (w : World) :
  CCheckpointData.nTransactionsLastCheckpoint (active_data (D:=Q) w)
  = CCheckpointData.nTransactionsLastCheckpoint (active_data (D:=binary64) w) /\
  CCheckpointData.nTimeLastCheckpoint (active_data (D:=Q) w)
  = CCheckpointData.nTimeLastCheckpoint (active_data (D:=binary64) w) /\
  (B2Q (CCheckpointData.fTransactionsPerDay (active_data (D:=binary64) w))
   == CCheckpointData.fTransactionsPerDay (active_data (D:=Q) w))%Q.
Proof.
  unfold active_data. destruct (fTestNet w);
    (split; [reflexivity|]); (split; [reflexivity|]); vm_compute; reflexivity.
Qed.

Lemma shrink_10 :
  (1 - bpow (-49) <= shrink 10)%Q /\ (1 <= shrink 10 * (1 + bpow (-49)))%Q.
Proof. split; vm_compute; discriminate. Qed.

(** The estimate and its exact value, for a block and a clock as in
    [work_tame]. *)
Lemma progress_within (w : World) (b : CBlockIndex) :
  nonneg_int64 (nChainTx b) ->
  CCheckpointData.nTimeLastCheckpoint (active_data (D:=binary64) w) <= clock w
  <= int64_max ->
  (CCheckpointData.nTransactionsLastCheckpoint (active_data (D:=binary64) w)
   < nChainTx b -> 0 <= nTime b <= clock w) ->
  exists (exact : Q) (r : binary64),
    GuessVerificationProgress (D:=Q) (Some b) w = Returns (exact, w) /\
    GuessVerificationProgress (D:=binary64) (Some b) w = Returns (r, w) /\
    nonneg_float r /\
    (exact == (work (D:=Q) (clock w) (active_data w) b).1
              / ((work (D:=Q) (clock w) (active_data w) b).1
                 + (work (D:=Q) (clock w) (active_data w) b).2))%Q /\
    (0 < (work (D:=Q) (clock w) (active_data w) b).1
         + (work (D:=Q) (clock w) (active_data w) b).2)%Q /\
    within 10 exact (B2Q r).
Proof.
  intros Htx Hnow Hb.
  pose proof (active_data_calibrated64 w) as Hcal.
  destruct (active_data_same w) as (EC & ET & Erate).
  destruct (work_tame _ (clock w) b Hcal Htx Hnow Hb) as (HB & HA & Hpos).
  destruct (work_within _ _ (clock w) b Hcal EC ET Erate Htx Hnow Hb) as [WB WA].
  destruct (ratio_within _ _ _ _ HB HA Hpos WB WA) as (Hq0 & Hnn & W).
  eexists _, _. split; [apply GuessVerificationProgress_work|].
  split; [apply GuessVerificationProgress_work|].
  split; [exact Hnn|]. split; [reflexivity|]. split; [exact Hq0 | exact W].
Qed.

(** The binary64 estimate is the exact quotient of the two amounts of work
    up to a relative error of [2^-49], for every block whose transaction
    count is not negative and every clock at or after the timestamps the
    estimate reads. *)
Theorem progress_rounding_error (w : World) (b : CBlockIndex) :
  nonneg_int64 (nChainTx b) ->
  CCheckpointData.nTimeLastCheckpoint (active_data (D:=binary64) w) <= clock w
  <= int64_max ->
  (CCheckpointData.nTransactionsLastCheckpoint (active_data (D:=binary64) w)
   < nChainTx b -> 0 <= nTime b <= clock w) ->
  exists (exact : Q) (r : binary64),
    GuessVerificationProgress (D:=Q) (Some b) w = Returns (exact, w) /\
    GuessVerificationProgress (D:=binary64) (Some b) w = Returns (r, w) /\
    nonneg_float r /\
    (exact * (1 - bpow (-49)) <= B2Q r <= exact * (1 + bpow (-49)))%Q.
Proof.
  intros Htx Hnow Hb.
  destruct (progress_within w b Htx Hnow Hb)
    as (exact & r & Eq & Er & Hnn & _ & _ & (Hx & Hv & G1 & G2)).
  exists exact, r. split; [exact Eq|]. split; [exact Er|]. split; [exact Hnn|].
  destruct shrink_10 as [S1 S2]. pose proof (shrink_pos 10) as [S0 _].
  set (s := shrink 10) in *. set (e := bpow (-49)) in *.
  assert (He : (0 <= e)%Q) by (unfold e; vm_compute; discriminate).
  split.
  - apply Qle_trans with (exact * s)%Q; [|exact G1].
    rewrite (Qmult_comm exact), (Qmult_comm exact).
    apply Qmult_le_compat_r; assumption.
  - apply Qle_trans with (B2Q r * (s * (1 + e)))%Q.
    + rewrite <- (Qmult_1_r (B2Q r)) at 1.
      rewrite (Qmult_comm (B2Q r)), (Qmult_comm (B2Q r)).
      apply Qmult_le_compat_r; assumption.
    + rewrite Qmult_assoc. apply Qmult_le_compat_r; [exact G2 | lra].
Qed.

(** At a fixed clock, of two blocks at or below the checkpoint's
    transaction count the one with more transactions gets the strictly
    greater estimate. *)
Theorem progress_increases_up_to_checkpoint (w : World) (b b' : CBlockIndex) :
  0 <= nChainTx b < nChainTx b' ->
  nChainTx b'
  <= CCheckpointData.nTransactionsLastCheckpoint (active_data (D:=binary64) w) ->
  CCheckpointData.nTimeLastCheckpoint (active_data (D:=binary64) w) <= clock w
  <= int64_max ->
  exists r r' : binary64,
    GuessVerificationProgress (D:=binary64) (Some b) w = Returns (r, w) /\
    GuessVerificationProgress (D:=binary64) (Some b') w = Returns (r', w) /\
    double_lt r r' = true.
Proof.
  intros Hn Hn' Hnow.
  pose proof (active_data_calibrated64 w) as (HC & HT & _).
  destruct (active_data_same w) as (EC & ET & _).
  set (C := CCheckpointData.nTransactionsLastCheckpoint (active_data (D:=binary64) w)) in *.
  set (T := CCheckpointData.nTimeLastCheckpoint (active_data (D:=binary64) w)) in *.
  assert (Htx : nonneg_int64 (nChainTx b))
    by (unfold nonneg_int64, int64_max; lia).
  assert (Htx' : nonneg_int64 (nChainTx b'))
    by (unfold nonneg_int64, int64_max; lia).
  destruct (progress_within w b Htx Hnow ltac:(fold C; lia))
    as (x & r & _ & Er & Hnn & Ex & Hd & (Hx & Hv & _ & G)).
  destruct (progress_within w b' Htx' Hnow ltac:(fold C; lia))
    as (x' & r' & _ & Er' & Hnn' & Ex' & Hd' & (Hx' & Hv' & G' & _)).
  exists r, r'. split; [exact Er|]. split; [exact Er'|].
  apply SFltb_nonneg; [exact Hnn | exact Hnn' |].
  rewrite (work_below_exact _ _ b) in Ex, Hd by (rewrite EC; fold C; lia).
  rewrite (work_below_exact _ _ b') in Ex', Hd' by (rewrite EC; fold C; lia).
  rewrite EC, ET in Ex, Hd, Ex', Hd'. fold C T in Ex, Hd, Ex', Hd'.
  rewrite !int64_sub_nonneg in Ex, Hd, Ex', Hd'
    by (unfold nonneg_int64, int64_max in *; lia).
  simpl fst in *. simpl snd in *.
  set (E := (inject_Z (clock w - T) / inject_Z 86400
             * CCheckpointData.fTransactionsPerDay (active_data (D:=Q) w)
             * inject_Z 5)%Q) in *.
  set (Dq := (inject_Z C + E)%Q).
  assert (ED : (inject_Z (nChainTx b) + (inject_Z (C - nChainTx b) + E) == Dq)%Q).
  { unfold Dq. unfold Zminus. rewrite inject_Z_plus, inject_Z_opp. ring. }
  assert (ED' : (inject_Z (nChainTx b') + (inject_Z (C - nChainTx b') + E) == Dq)%Q).
  { unfold Dq. unfold Zminus. rewrite inject_Z_plus, inject_Z_opp. ring. }
  rewrite ED in Ex, Hd. rewrite ED' in Ex'.
  destruct shrink_10 as [S1 _]. pose proof (shrink_pos 10) as [S0 S01].
  set (s := shrink 10) in *.
  assert (Ha : (B2Q r * Dq * s <= inject_Z (nChainTx b))%Q).
  { assert (Eq : (B2Q r * Dq * s == B2Q r * s * Dq)%Q) by ring.
    rewrite Eq. apply Qle_trans with (x * Dq)%Q.
    - apply Qmult_le_compat_r; [exact G | lra].
    - rewrite Ex. apply Qle_lteq; right. field. lra. }
  assert (Ha' : (inject_Z (nChainTx b') * s <= B2Q r' * Dq)%Q).
  { apply Qle_trans with (x' * s * Dq)%Q.
    - rewrite Ex'. apply Qle_lteq; right. field. lra.
    - apply Qmult_le_compat_r; [exact G' | lra]. }
  assert (Hnq : (inject_Z (nChainTx b) + 1 <= inject_Z (nChainTx b'))%Q).
  { change 1%Q with (inject_Z 1). rewrite <- inject_Z_plus, <- Zle_Qle. lia. }
  assert (Hn0 : (0 <= inject_Z (nChainTx b))%Q).
  { change 0%Q with (inject_Z 0). rewrite <- Zle_Qle. lia. }
  assert (Hn20 : (inject_Z (nChainTx b') <= inject_Z (2 ^ 20))%Q).
  { rewrite <- Zle_Qle. lia. }
  change (inject_Z (2 ^ 20)) with (1048576 # 1)%Q in Hn20.
  change (bpow (-49)) with (1 # 562949953421312)%Q in S1.
  assert (Hlt : (B2Q r * Dq < B2Q r' * Dq)%Q).
  { assert (K1 : (B2Q r * Dq * (1 - (1 # 562949953421312)) <= B2Q r * Dq * s)%Q).
    { rewrite (Qmult_comm (B2Q r * Dq)), (Qmult_comm (B2Q r * Dq)).
      apply Qmult_le_compat_r; [exact S1|].
      apply Qmult_le_0_compat; lra. }
    assert (K2 : (inject_Z (nChainTx b') * (1 - (1 # 562949953421312))
                  <= inject_Z (nChainTx b') * s)%Q).
    { rewrite (Qmult_comm (inject_Z (nChainTx b'))),
        (Qmult_comm (inject_Z (nChainTx b'))).
      apply Qmult_le_compat_r; [exact S1 | lra]. }
    set (a := (B2Q r * Dq)%Q) in *. set (a' := (B2Q r' * Dq)%Q) in *.
    set (n := inject_Z (nChainTx b)) in *. set (n' := inject_Z (nChainTx b')) in *.
    lra. }
  apply Qnot_le_lt. intros Hge.
  apply (Qmult_le_compat_r _ _ Dq) in Hge; lra.
Qed.

(** A block strictly below the checkpoint's transaction count is never
    reported as done: its estimate is less than [1.0], whatever the clock
    shows from the checkpoint's timestamp on. *)
Theorem progress_below_one_before_checkpoint (w : World) (b : CBlockIndex) :
  0 <= nChainTx b
  < CCheckpointData.nTransactionsLastCheckpoint (active_data (D:=binary64) w) ->
  CCheckpointData.nTimeLastCheckpoint (active_data (D:=binary64) w) <= clock w
  <= int64_max ->
  exists r : binary64,
    GuessVerificationProgress (D:=binary64) (Some b) w = Returns (r, w) /\
    double_lt r (double_of_int 1) = true.
Proof.
  intros Hn Hnow.
  pose proof (active_data_calibrated64 w) as (HC & HT & Hrate).
  destruct (active_data_same w) as (EC & ET & Erate).
  set (C := CCheckpointData.nTransactionsLastCheckpoint (active_data (D:=binary64) w)) in *.
  set (T := CCheckpointData.nTimeLastCheckpoint (active_data (D:=binary64) w)) in *.
  assert (Htx : nonneg_int64 (nChainTx b))
    by (unfold nonneg_int64, int64_max; lia).
  destruct (progress_within w b Htx Hnow ltac:(fold C; lia))
    as (x & r & _ & Er & Hnn & Ex & Hd & (Hx & Hv & _ & G)).
  exists r. split; [exact Er|].
  apply SFltb_nonneg;
    [exact Hnn | right; apply (Rounds_pnormal _ _ one_Rounds) |].
  assert (E1 : (B2Q (double_of_int (D:=binary64) 1) == 1)%Q)
    by (vm_compute; reflexivity).
  rewrite E1.
  rewrite (work_below_exact _ _ b) in Ex, Hd by (rewrite EC; fold C; lia).
  rewrite EC, ET in Ex, Hd. fold C T in Ex, Hd.
  rewrite !int64_sub_nonneg in Ex, Hd
    by (unfold nonneg_int64, int64_max in *; lia).
  simpl fst in *. simpl snd in *.
  pose proof (pnormal_positive _ (proj1 Hrate)) as Hr0. rewrite Erate in Hr0.
  assert (Hs0 : (0 <= inject_Z (clock w - T))%Q).
  { change 0%Q with (inject_Z 0). rewrite <- Zle_Qle. lia. }
  assert (HE : (0 <= inject_Z (clock w - T) / inject_Z 86400
                    * CCheckpointData.fTransactionsPerDay (active_data (D:=Q) w)
                    * inject_Z 5)%Q).
  { apply Qmult_le_0_compat; [|discriminate].
    apply Qmult_le_0_compat; [|lra].
    apply Qle_shift_div_l; [reflexivity | lra]. }
  set (E := (inject_Z (clock w - T) / inject_Z 86400
             * CCheckpointData.fTransactionsPerDay (active_data (D:=Q) w)
             * inject_Z 5)%Q) in *.
  set (Dq := (inject_Z C + E)%Q).
  assert (ED : (inject_Z (nChainTx b) + (inject_Z (C - nChainTx b) + E) == Dq)%Q).
  { unfold Dq. unfold Zminus. rewrite inject_Z_plus, inject_Z_opp. ring. }
  rewrite ED in Ex, Hd.
  assert (Hnq : (inject_Z (nChainTx b) + 1 <= inject_Z C)%Q).
  { change 1%Q with (inject_Z 1). rewrite <- inject_Z_plus, <- Zle_Qle. lia. }
  assert (HC20 : (inject_Z C <= inject_Z (2 ^ 20))%Q) by (rewrite <- Zle_Qle; lia).
  change (inject_Z (2 ^ 20)) with (1048576 # 1)%Q in HC20.
  assert (Hx1 : (x * (1048576 # 1) <= (1048576 # 1) - 1)%Q).
  { assert (K : (x * Dq == inject_Z (nChainTx b))%Q) by (rewrite Ex; field; lra).
    assert (Hx1 : (x <= 1)%Q).
    { rewrite Ex. apply Qle_shift_div_r; [exact Hd|]. unfold Dq. lra. }
    assert (K1 : (x * inject_Z C <= x * Dq)%Q).
    { rewrite (Qmult_comm x), (Qmult_comm x). apply Qmult_le_compat_r; [|exact Hx].
      unfold Dq. lra. }
    assert (K2 : ((1 - x) * inject_Z C <= (1 - x) * (1048576 # 1))%Q).
    { rewrite (Qmult_comm (1 - x)), (Qmult_comm (1 - x)).
      apply Qmult_le_compat_r; [exact HC20 | lra]. }
    lra. }
  destruct shrink_10 as [S1 _]. pose proof (shrink_pos 10) as [S0 S01].
  set (s := shrink 10) in *.
  change (bpow (-49)) with (1 # 562949953421312)%Q in S1.
  assert (K3 : (B2Q r * (1 - (1 # 562949953421312)) <= B2Q r * s)%Q).
  { rewrite (Qmult_comm (B2Q r)), (Qmult_comm (B2Q r)).
    apply Qmult_le_compat_r; [exact S1 | exact Hv]. }
  lra.
Qed.

(** ** The operations on the example worlds *)

Lemma index_0_1000_wf : index_wf index_0_1000.
Proof.
  intros hash. unfold index_0_1000.
  rewrite lookup_insert. case_decide; [discriminate|].
  rewrite lookup_insert. case_decide; [discriminate|].
  rewrite lookup_empty. discriminate.
Qed.

Lemma index_0_wf : index_wf index_0.
Proof.
  intros hash. unfold index_0.
  rewrite lookup_insert. case_decide; [discriminate|].
  rewrite lookup_empty. discriminate.
Qed.

(** [CheckBlock(1000, X)] with [X] not the hash recorded for height 1000 is
    refused on the production network and accepted on the test network. *)
Example CheckBlock_wrong_hash :
  result (CheckBlock (D:=binary64) 1000 H0 (node false args_none 0 ∅))
  = Returns false /\
  result (CheckBlock (D:=binary64) 1000 H1000 (node false args_none 0 ∅))
  = Returns true /\
  result (CheckBlock (D:=binary64) 1000 H0 (node true args_none 0 ∅))
  = Returns true /\
  result (CheckBlock (D:=binary64) 1000 H0 (node false args_checkpoints_off 0 ∅))
  = Returns true /\
  result (CheckBlock (D:=binary64) 1001 H0 (node false args_none 0 ∅))
  = Returns true.
Proof. repeat split; vm_compute; reflexivity. Qed.

(** With only the checkpoint of height 0 in the index, on the main chain,
    both lookups stop there. *)
Example lookups_with_genesis_only :
  result (GetLastAvailableCheckpoint (node false args_none 0 index_0))
  = Returns H0 /\
  result (GetLastCheckpoint (D:=binary64) index_0 (node false args_none 0 index_0))
  = Returns (Some (block 0 1402000000 1 H0 true)).
Proof. split; vm_compute; reflexivity. Qed.

(** With the checkpoint of height 1000 on a side chain, [GetLastCheckpoint]
    returns it and [GetLastAvailableCheckpoint] passes it over. *)
Example lookups_with_side_chain :
  result (GetLastAvailableCheckpoint (node false args_none 0 index_0_1000))
  = Returns H0 /\
  result (GetLastCheckpoint (D:=binary64) index_0_1000
            (node false args_none 0 index_0_1000))
  = Returns (Some (block 1000 1403000000 3000 H1000 false)).
Proof. split; vm_compute; reflexivity. Qed.

(** The table [{0: H0, 1000: H1000}] with only [H0] in the index, on the
    main chain. *)
Example two_checkpoints_genesis_only :
  result (GetLastAvailableCheckpoint (node_two_checkpoints index_0))
  = Returns H0 /\
  result (GetLastCheckpoint (D:=binary64) index_0 (node_two_checkpoints index_0))
  = Returns (Some (block 0 1402000000 1 H0 true)) /\
  result (CheckBlock (D:=binary64) 1000 H0 (node_two_checkpoints index_0))
  = Returns false.
Proof. repeat split; vm_compute; reflexivity. Qed.

Example estimates_after_startup :
  result (GetTotalBlocksEstimate (D:=binary64) (node false args_none 0 ∅))
  = Returns 7387 /\
  result (GetTotalBlocksEstimate (D:=binary64) (node true args_none 0 ∅))
  = Returns 0 /\
  result (GetLatestHardenedCheckpoint (D:=binary64) (node false args_none 0 ∅))
  = Returns H7387 /\
  result (GetLatestHardenedCheckpoint (D:=binary64)
            (node false args_checkpoints_off 0 ∅))
  = Returns H7387 /\
  result (GetLatestHardenedCheckpoint (D:=binary64) (node true args_none 0 ∅))
  = Returns (read_hex "0").
Proof. repeat split; vm_compute; reflexivity. Qed.

Lemma node_startup test args now index :
  startup read_hex (node test args now index).
Proof. split; reflexivity. Qed.

Lemma node_active_table_nonempty test args now index :
  active_table (node test args now index) <> ∅.
Proof. apply (startup_active_table_nonempty read_hex), node_startup. Qed.

(** *** Where the specification and the code part *)

(** C2: with an empty active table [GetLatestHardenedCheckpoint] does not
    fail with [EmptyTable] or [InvariantViolation]; it dereferences
    [rbegin()] of an empty map. *)
Lemma GetLatestHardenedCheckpoint_empty_table :
  active_table (node_without_checkpoints false) = ∅ /\
  GetLatestHardenedCheckpoint (D:=binary64) (node_without_checkpoints false)
  = Undefined /\
  GetLatestHardenedCheckpoint (D:=binary64) (node_without_checkpoints false)
  <> Throws EmptyTable /\
  GetLatestHardenedCheckpoint (D:=binary64) (node_without_checkpoints false)
  <> Throws InvariantViolation.
Proof.
  assert (E : GetLatestHardenedCheckpoint (D:=binary64)
                (node_without_checkpoints false) = Undefined)
    by (vm_compute; reflexivity).
  rewrite E. repeat split; discriminate.
Qed.

(** C3: with a null pointer stored under the hash of the last checkpoint
    no entry of the table is in the index on the main chain, yet
    [GetLastAvailableCheckpoint] does not return the genesis hash: it calls
    [IsInMainChain] through the null pointer. *)
Lemma GetLastAvailableCheckpoint_null_in_index :
  (forall height hash,
     active_table (node false args_none 0 index_null_7387) !! height = Some hash ->
     ~ on_main_chain (node false args_none 0 index_null_7387) hash) /\
  mapBlockIndex (node false args_none 0 index_null_7387) !! H7387 = Some NULL /\
  GetLastAvailableCheckpoint (node false args_none 0 index_null_7387)
  = Undefined /\
  GetLastAvailableCheckpoint (node false args_none 0 index_null_7387)
  <> Returns (hashGenesisBlock (node false args_none 0 index_null_7387),
              node false args_none 0 index_null_7387).
Proof.
  assert (E : GetLastAvailableCheckpoint (node false args_none 0 index_null_7387)
              = Undefined)
    by (vm_compute; reflexivity).
  split; [|split; [|split]].
  - intros height hash _ (b & Eb & _). simpl in Eb. unfold index_null_7387 in Eb.
    rewrite lookup_insert in Eb. case_decide; [discriminate|].
    rewrite lookup_empty in Eb. discriminate.
  - vm_compute. reflexivity.
  - exact E.
  - rewrite E. discriminate.
Qed.

(** C6: for the block of the last checkpoint the estimate is 1 when the
    clock shows the checkpoint's timestamp and about 0.862 a day later, in
    binary64 as in exact arithmetic: it went down while the clock went up. *)
Lemma progress_decreases_as_clock_advances :
  (1403925464 <= 1403925464 + 86400)%Z /\
  result (GuessVerificationProgress (D:=binary64) (Some block_at_checkpoint)
            (node false args_none 1403925464 ∅))
  = Returns (S754_finite false 4503599627370496 (-52)) /\
  result (GuessVerificationProgress (D:=binary64) (Some block_at_checkpoint)
            (node false args_none (1403925464 + 86400) ∅))
  = Returns (S754_finite false 7764826943742234 (-53)) /\
  double_lt (S754_finite false 7764826943742234 (-53))
            (S754_finite false 4503599627370496 (-52)) = true /\
  exists r r' : Q,
    result (GuessVerificationProgress (D:=Q) (Some block_at_checkpoint)
              (node false args_none 1403925464 ∅)) = Returns r /\
    result (GuessVerificationProgress (D:=Q) (Some block_at_checkpoint)
              (node false args_none (1403925464 + 86400) ∅)) = Returns r' /\
    (r == 1)%Q /\ (r' == 25 # 29)%Q /\ (r' < r)%Q.
Proof.
  split; [lia|]. split; [vm_compute; reflexivity|].
  split; [vm_compute; reflexivity|]. split; [vm_compute; reflexivity|].
  eexists _, _. split; [vm_compute; reflexivity|].
  split; [vm_compute; reflexivity|].
  repeat split.
Qed.

(** C10: for a block 600 transactions past the last checkpoint whose
    timestamp is seven days ahead of a clock that shows the checkpoint's
    timestamp, work-before is 28000 and work-after is -28000: the
    denominator is zero, in binary64 (where the quotient is +infinity) as
    in exact arithmetic. *)
Lemma denominator_zero_for_block_ahead_of_clock :
  (0 <= nChainTx block_past_checkpoint)%Z /\
  (CCheckpointData.nTimeLastCheckpoint (data (D:=binary64)) <= 1403925464)%Z /\
  work (D:=binary64) 1403925464 data block_past_checkpoint
  = (double_of_int 28000, double_of_int (-28000)) /\
  double_add (double_of_int 28000) (double_of_int (-28000))
  = S754_zero false /\
  result (GuessVerificationProgress (D:=binary64) (Some block_past_checkpoint)
            (node false args_none 1403925464 ∅))
  = Returns (S754_infinity false) /\
  exists before after : Q,
    work (D:=Q) 1403925464 data block_past_checkpoint = (before, after) /\
    (before + after == 0)%Q.
Proof.
  split; [vm_compute; discriminate|]. split; [vm_compute; discriminate|].
  split; [vm_compute; reflexivity|]. split; [vm_compute; reflexivity|].
  split; [vm_compute; reflexivity|].
  eexists _, _. split; [vm_compute; reflexivity|]. reflexivity.
Qed.

(** *** The theorems at the example worlds *)

Lemma GetLatestHardenedCheckpoint_spec_witness :
  exists height hash,
    GetLatestHardenedCheckpoint (D:=binary64) (node true args_checkpoints_off 0 index_0)
    = Returns (hash, node true args_checkpoints_off 0 index_0) /\
    active_table (node true args_checkpoints_off 0 index_0) !! height = Some hash /\
    (forall height',
       is_Some (active_table (node true args_checkpoints_off 0 index_0) !! height') ->
       height' <= height) /\
    forall args index,
      result (GetLatestHardenedCheckpoint (D:=binary64)
                (set_GetBoolArg args
                   (set_mapBlockIndex index (node true args_checkpoints_off 0 index_0))))
      = Returns hash.
Proof.
  apply (GetLatestHardenedCheckpoint_spec (D:=binary64) read_hex
           (node true args_checkpoints_off 0 index_0)).
  apply node_active_table_nonempty.
Defined.

Lemma GetLastAvailableCheckpoint_spec_witness :
  index_wf (mapBlockIndex (node false args_none 0 index_0_1000)) /\
  exists hash : uint256,
    GetLastAvailableCheckpoint (node false args_none 0 index_0_1000)
    = Returns (hash, node false args_none 0 index_0_1000) /\
    ((exists height,
        active_table (node false args_none 0 index_0_1000) !! height = Some hash /\
        on_main_chain (node false args_none 0 index_0_1000) hash /\
        forall height' hash',
          active_table (node false args_none 0 index_0_1000) !! height' = Some hash' ->
          on_main_chain (node false args_none 0 index_0_1000) hash' ->
          height' <= height)
     \/ ((forall height' hash',
           active_table (node false args_none 0 index_0_1000) !! height' = Some hash' ->
           ~ on_main_chain (node false args_none 0 index_0_1000) hash') /\
         hash = hashGenesisBlock (node false args_none 0 index_0_1000))).
Proof.
  split; [exact index_0_1000_wf|].
  apply (GetLastAvailableCheckpoint_spec (node false args_none 0 index_0_1000)).
  exact index_0_1000_wf.
Defined.

Lemma GuessVerificationProgress_spec_witness :
  nonneg_int64 (clock (node false args_none (1403925464 + 86400) ∅)) /\
  GuessVerificationProgress (D:=binary64) (Some block_at_checkpoint)
    (node false args_none (1403925464 + 86400) ∅)
  = Returns (spec_progress (active_data (node false args_none (1403925464 + 86400) ∅))
               (clock (node false args_none (1403925464 + 86400) ∅))
               (Some block_at_checkpoint),
             node false args_none (1403925464 + 86400) ∅).
Proof.
  assert (Hnow : nonneg_int64 (clock (node false args_none (1403925464 + 86400) ∅)))
    by (unfold nonneg_int64, int64_max; simpl; lia).
  split; [exact Hnow|].
  apply (GuessVerificationProgress_spec (D:=binary64)
           (node false args_none (1403925464 + 86400) ∅)
           (Some block_at_checkpoint) Hnow).
  intros b [= <-]. unfold nonneg_int64, int64_max. simpl. lia.
Defined.

Lemma GetTotalBlocksEstimate_spec_witness :
  exists height,
    GetTotalBlocksEstimate (D:=binary64) (node false args_none 0 ∅)
    = Returns (height, node false args_none 0 ∅) /\
    is_Some (active_table (node false args_none 0 ∅) !! height) /\
    forall height',
      is_Some (active_table (node false args_none 0 ∅) !! height') ->
      height' <= height.
Proof.
  apply (GetTotalBlocksEstimate_spec (D:=binary64) (node false args_none 0 ∅));
    [reflexivity | reflexivity | apply node_active_table_nonempty].
Defined.

Lemma oracle_frame_witness :
  preserves (CheckBlock (D:=binary64) 1000 H1000)
    (node false args_none 1403925464 index_0_1000) /\
  preserves (GuessVerificationProgress (D:=binary64) (Some block_at_checkpoint))
    (node false args_none 1403925464 index_0_1000) /\
  preserves (GetTotalBlocksEstimate (D:=binary64))
    (node false args_none 1403925464 index_0_1000) /\
  preserves (GetLastCheckpoint (D:=binary64) index_0_1000)
    (node false args_none 1403925464 index_0_1000) /\
  preserves GetLastAvailableCheckpoint
    (node false args_none 1403925464 index_0_1000) /\
  preserves (GetLatestHardenedCheckpoint (D:=binary64))
    (node false args_none 1403925464 index_0_1000).
Proof.
  apply (oracle_frame (D:=binary64)
           (node false args_none 1403925464 index_0_1000) 1000 H1000
           (Some block_at_checkpoint) index_0_1000).
  - apply node_active_table_nonempty.
  - exact index_0_1000_wf.
Defined.

Lemma denominator_positive_witness :
  nTime block_past_checkpoint <= clock (node false args_none (1403925464 + 7 * 86400) ∅) /\
  exists fWorkBefore fWorkAfter : binary64,
    work (clock (node false args_none (1403925464 + 7 * 86400) ∅))
      (active_data (node false args_none (1403925464 + 7 * 86400) ∅))
      block_past_checkpoint
    = (fWorkBefore, fWorkAfter) /\
    0 < CCheckpointData.nTransactionsLastCheckpoint
          (active_data (D:=binary64) (node false args_none (1403925464 + 7 * 86400) ∅)) /\
    double_lt (double_of_int 0) (double_add fWorkBefore fWorkAfter) = true /\
    GuessVerificationProgress (Some block_past_checkpoint)
      (node false args_none (1403925464 + 7 * 86400) ∅)
    = Returns (double_div fWorkBefore (double_add fWorkBefore fWorkAfter),
               node false args_none (1403925464 + 7 * 86400) ∅).
Proof.
  split; [simpl; lia|].
  apply (denominator_positive
           (node false args_none (1403925464 + 7 * 86400) ∅)
           block_past_checkpoint);
    unfold nonneg_int64, int64_max; simpl; lia.
Defined.

Lemma progress_bounded_and_antitone_witness :
  1403925464 <= 1403925464 + 86400 /\
  exists r r' : binary64,
    GuessVerificationProgress (Some block_at_checkpoint)
      (set_clock 1403925464 (node false args_none 0 ∅))
    = Returns (r, set_clock 1403925464 (node false args_none 0 ∅)) /\
    GuessVerificationProgress (Some block_at_checkpoint)
      (set_clock (1403925464 + 86400) (node false args_none 0 ∅))
    = Returns (r', set_clock (1403925464 + 86400) (node false args_none 0 ∅)) /\
    (double_le (double_of_int 0) r = true /\ double_le r (double_of_int 1) = true) /\
    (double_le (double_of_int 0) r' = true /\ double_le r' (double_of_int 1) = true) /\
    double_le r' r = true.
Proof.
  split; [lia|].
  apply (progress_bounded_and_antitone (node false args_none 0 ∅)
           block_at_checkpoint 1403925464 (1403925464 + 86400));
    unfold nonneg_int64, int64_max; simpl; lia.
Defined.

Lemma flag_sensitivity_witness :
  result (GetLastAvailableCheckpoint
            (set_GetBoolArg args_checkpoints_off
               (node false args_none 0 index_0_1000)))
  = result (GetLastAvailableCheckpoint (node false args_none 0 index_0_1000)) /\
  GetLastCheckpoint (D:=binary64) index_0_1000
    (set_GetBoolArg args_checkpoints_off (node false args_none 0 index_0_1000))
  = Returns (NULL, set_GetBoolArg args_checkpoints_off
                     (node false args_none 0 index_0_1000)) /\
  GetLastCheckpoint (D:=binary64) index_0_1000
    (set_GetBoolArg args_none (node false args_none 0 index_0_1000))
  = Returns (Some (block 1000 1403000000 3000 H1000 false),
             set_GetBoolArg args_none (node false args_none 0 index_0_1000)) /\
  result (GetLastCheckpoint (D:=binary64) index_0_1000
            (set_GetBoolArg args_checkpoints_off
               (node false args_none 0 index_0_1000)))
  <> result (GetLastCheckpoint (D:=binary64) index_0_1000
               (set_GetBoolArg args_none (node false args_none 0 index_0_1000))).
Proof.
  assert (Habove : forall height' hash',
            active_table (node false args_none 0 index_0_1000) !! height'
            = Some hash' ->
            1000 < height' -> index_0_1000 !! hash' = None).
  { intros height' hash' Hentry Hlt. revert Hentry.
    unfold active_table, node, mapCheckpoints_init, StdMap.map_list_of. simpl.
    repeat (rewrite lookup_insert; case_decide;
            [first [lia | intros [= <-]; vm_compute; reflexivity]|]).
    rewrite lookup_empty. discriminate. }
  destruct (flag_sensitivity (D:=binary64) (node false args_none 0 index_0_1000)
              args_checkpoints_off index_0_1000) as (G1 & G2 & _).
  destruct (flag_sensitivity (D:=binary64) (node false args_none 0 index_0_1000)
              args_none index_0_1000) as (_ & _ & G3).
  destruct (G3 eq_refl eq_refl 1000 H1000 (block 1000 1403000000 3000 H1000 false)
              ltac:(vm_compute; reflexivity) ltac:(vm_compute; reflexivity) Habove)
    as [G4 G5].
  split; [exact G1|]. split; [exact (G2 eq_refl)|]. split; [exact G4|].
  exact (G5 args_checkpoints_off eq_refl).
Defined.

Lemma startup_estimates_witness :
  startup read_hex (node false args_none 0 ∅) /\
  GetTotalBlocksEstimate (D:=binary64) (node false args_none 0 ∅)
  = Returns (7387, node false args_none 0 ∅) /\
  GetLatestHardenedCheckpoint (D:=binary64) (node false args_none 0 ∅)
  = Returns (H7387, node false args_none 0 ∅).
Proof.
  split; [apply node_startup|]. split.
  - apply (startup_estimates (D:=binary64) read_hex (node false args_none 0 ∅));
      [apply node_startup | reflexivity | reflexivity].
  - apply (startup_estimates (D:=binary64) read_hex (node false args_none 0 ∅));
      [apply node_startup | reflexivity].
Defined.

Lemma GetLastAvailableCheckpoint_null_pointer_witness :
  mapBlockIndex (node false args_none 0 (<[H7387 := NULL]> ∅)) !! H7387
  = Some NULL /\
  GetLastAvailableCheckpoint (node false args_none 0 (<[H7387 := NULL]> ∅))
  = Undefined.
Proof.
  split; [vm_compute; reflexivity|].
  apply (GetLastAvailableCheckpoint_null_pointer
           (node false args_none 0 (<[H7387 := NULL]> ∅)) 7387 H7387);
    vm_compute; reflexivity.
Defined.

Lemma CheckBlock_above_estimate_witness :
  GetTotalBlocksEstimate (D:=binary64) (node false args_none 0 ∅)
  = Returns (7387, node false args_none 0 ∅) /\
  CheckBlock (D:=binary64) 7388 H0 (node false args_none 0 ∅)
  = Returns (true, node false args_none 0 ∅).
Proof.
  assert (E : GetTotalBlocksEstimate (D:=binary64) (node false args_none 0 ∅)
              = Returns (7387, node false args_none 0 ∅))
    by (vm_compute; reflexivity).
  split; [exact E|].
  apply (CheckBlock_above_estimate (D:=binary64) (node false args_none 0 ∅)
           (node false args_none 0 ∅) 7387 7388 H0 E).
  lia.
Defined.

Lemma CheckBlock_at_estimate_witness :
  GetLatestHardenedCheckpoint (D:=binary64) (node false args_none 0 ∅)
  = Returns (H7387, node false args_none 0 ∅) /\
  CheckBlock (D:=binary64) 7387 H1000 (node false args_none 0 ∅)
  = Returns (H1000 =? H7387, node false args_none 0 ∅).
Proof.
  assert (E : GetLatestHardenedCheckpoint (D:=binary64) (node false args_none 0 ∅)
              = Returns (H7387, node false args_none 0 ∅))
    by (vm_compute; reflexivity).
  split; [exact E|].
  apply (CheckBlock_at_estimate (D:=binary64) (node false args_none 0 ∅)
           (node false args_none 0 ∅) (node false args_none 0 ∅) 7387 H7387 H1000);
    [reflexivity | reflexivity | vm_compute; reflexivity | exact E].
Defined.

Lemma empty_table_witness :
  active_table (node_without_checkpoints false) = ∅ /\
  CheckBlock (D:=binary64) 1000 H0 (node_without_checkpoints false)
  = Returns (true, node_without_checkpoints false) /\
  GetLastCheckpoint (D:=binary64) index_0 (node_without_checkpoints false)
  = Returns (NULL, node_without_checkpoints false) /\
  GetLastAvailableCheckpoint (node_without_checkpoints false)
  = Returns (hashGenesisBlock (node_without_checkpoints false),
             node_without_checkpoints false) /\
  GetTotalBlocksEstimate (D:=binary64) (node_without_checkpoints false)
  = Undefined.
Proof.
  assert (E : active_table (node_without_checkpoints false) = ∅) by reflexivity.
  destruct (empty_table (D:=binary64) (node_without_checkpoints false) 1000 H0
              index_0 E) as (G1 & G2 & G3 & G4).
  split; [exact E|]. split; [exact G1|]. split; [exact G2|]. split; [exact G3|].
  apply G4; reflexivity.
Defined.

Lemma GetLastAvailableCheckpoint_returned_witness :
  GetLastAvailableCheckpoint (node false args_none 0 index_1000_null_0)
  = Returns (H1000, node false args_none 0 index_1000_null_0) /\
  exists height,
    active_table (node false args_none 0 index_1000_null_0) !! height = Some H1000 /\
    on_main_chain (node false args_none 0 index_1000_null_0) H1000.
Proof.
  assert (E : GetLastAvailableCheckpoint (node false args_none 0 index_1000_null_0)
              = Returns (H1000, node false args_none 0 index_1000_null_0))
    by (vm_compute; reflexivity).
  split; [exact E|].
  destruct (GetLastAvailableCheckpoint_returned
              (node false args_none 0 index_1000_null_0)
              (node false args_none 0 index_1000_null_0) H1000 E)
    as [(height & Hentry & Hmain & _) | [Hgen _]].
  - exists height. split; assumption.
  - vm_compute in Hgen. discriminate.
Defined.

Lemma lookups_agree_witness :
  exists height hash,
    GetLastAvailableCheckpoint (node false args_none 0 index_0)
    = Returns (hash, node false args_none 0 index_0) /\
    active_table (node false args_none 0 index_0) !! height = Some hash /\
    mapBlockIndex (node false args_none 0 index_0) !! hash
    = Some (Some (block 0 1402000000 1 H0 true)).
Proof.
  apply (lookups_agree (D:=binary64) (node false args_none 0 index_0)
           (node false args_none 0 index_0) (block 0 1402000000 1 H0 true));
    [vm_compute; reflexivity | reflexivity].
Defined.

Lemma progress_one_when_caught_up_witness :
  GuessVerificationProgress (D:=binary64) (Some block_at_checkpoint)
    (node false args_none 1403925464 ∅)
  = Returns (double_of_int 1, node false args_none 1403925464 ∅) /\
  GuessVerificationProgress (D:=binary64) (Some block_past_checkpoint)
    (node false args_none (1403925464 + 7 * 86400) ∅)
  = Returns (double_of_int 1, node false args_none (1403925464 + 7 * 86400) ∅).
Proof.
  split.
  - apply (progress_one_when_caught_up (node false args_none 1403925464 ∅)
             block_at_checkpoint).
    + vm_compute. split; discriminate.
    + left. split; reflexivity.
  - apply (progress_one_when_caught_up
             (node false args_none (1403925464 + 7 * 86400) ∅)
             block_past_checkpoint).
    + vm_compute. split; discriminate.
    + right. split; reflexivity.
Defined.

Lemma progress_zero_without_transactions_witness :
  GuessVerificationProgress (D:=binary64) (Some block_without_transactions)
    (node false args_none (1403925464 + 86400) ∅)
  = Returns (double_of_int 0, node false args_none (1403925464 + 86400) ∅).
Proof.
  apply (progress_zero_without_transactions
           (node false args_none (1403925464 + 86400) ∅)
           block_without_transactions);
    [reflexivity | vm_compute; discriminate | vm_compute; discriminate].
Defined.

Lemma progress_rounding_error_witness :
  exists (exact : Q) (r : binary64),
    GuessVerificationProgress (D:=Q) (Some block_past_checkpoint)
      (node false args_none (1403925464 + 8 * 86400) ∅)
    = Returns (exact, node false args_none (1403925464 + 8 * 86400) ∅) /\
    GuessVerificationProgress (D:=binary64) (Some block_past_checkpoint)
      (node false args_none (1403925464 + 8 * 86400) ∅)
    = Returns (r, node false args_none (1403925464 + 8 * 86400) ∅) /\
    nonneg_float r /\
    (exact * (1 - bpow (-49)) <= B2Q r <= exact * (1 + bpow (-49)))%Q.
Proof.
  apply (progress_rounding_error
           (node false args_none (1403925464 + 8 * 86400) ∅)
           block_past_checkpoint).
  - vm_compute. split; discriminate.
  - vm_compute. split; discriminate.
  - intros _. vm_compute. split; discriminate.
Defined.

Lemma progress_increases_up_to_checkpoint_witness :
  exists r r' : binary64,
    GuessVerificationProgress (D:=binary64) (Some block_below_checkpoint)
      (node false args_none (1403925464 + 86400) ∅)
    = Returns (r, node false args_none (1403925464 + 86400) ∅) /\
    GuessVerificationProgress (D:=binary64) (Some block_at_checkpoint)
      (node false args_none (1403925464 + 86400) ∅)
    = Returns (r', node false args_none (1403925464 + 86400) ∅) /\
    double_lt r r' = true.
Proof.
  apply (progress_increases_up_to_checkpoint
           (node false args_none (1403925464 + 86400) ∅)
           block_below_checkpoint block_at_checkpoint).
  - vm_compute. split; [discriminate | reflexivity].
  - vm_compute. discriminate.
  - vm_compute. split; discriminate.
Defined.

Lemma progress_below_one_before_checkpoint_witness :
  exists r : binary64,
    GuessVerificationProgress (D:=binary64) (Some block_below_checkpoint)
      (node false args_none 1403925464 ∅)
    = Returns (r, node false args_none 1403925464 ∅) /\
    double_lt r (double_of_int 1) = true.
Proof.
  apply (progress_below_one_before_checkpoint
           (node false args_none 1403925464 ∅) block_below_checkpoint).
  - vm_compute. split; [discriminate | reflexivity].
  - vm_compute. split; discriminate.
Defined.
